(** * Class_Agent_React: the chat client's connection and messaging core

    A shallow embedding of the service module [services/WebSocketService]
    (class [WebSocketService] and the hook [useWebSocket]) and of the
    inbound-message handler of [src/components/ChatInterface.tsx], with the
    properties of the connection state machine, the outbound queue, the
    listener fan-out and the payload rendering. *)

From Stdlib Require Import ZArith Lia Ascii String.
From Stdlib Require Import DecimalString.
From stdpp Require Import base option list strings.

Local Open Scope string_scope.
Set Warnings "-register-all".

(** ** JavaScript values as the client sees them *)

Module JS.

(** A JS number is a double.  The client never computes with one: it only
    prints it inside a template literal, serialises it with [JSON.stringify]
    and tests its truthiness.  A number is therefore carried as these three
    observations (for [0]: ["0"], ["0"], falsy; for [Infinity]:
    ["Infinity"], ["null"], truthy). *)
Record Num := {
  num_string : string;
  num_json : string;
  num_truthy : bool;
}.

(** The values a message listener can receive: whatever [JSON.parse]
    returns, the raw text of a frame (a string), or the [Blob] of a binary
    frame.  An object is the list of its own properties in enumeration
    order. *)
Inductive value :=
| VNull
| VBool (b : bool)
| VNum (n : Num)
| VStr (s : string)
| VArr (items : list value)
| VObj (fields : list (string * value))
| VBlob.

(** A value or [undefined] ([None]). *)
Definition jsval := option value.

Fixpoint own (fields : list (string * value)) (k : string) : jsval :=
  match fields with
  | [] => None
  | (k', v) :: rest => if String.eqb k' k then Some v else own rest k
  end.

(** [data.k] for the property names the client reads ([type], [status],
    [message], [content], [filename]); none of them is defined on the
    prototypes of objects, arrays, strings, numbers or booleans.  Reading a
    property of [null] raises a TypeError ([None]); a Blob received from the
    socket has [type] equal to the empty string. *)
Definition get (data : value) (k : string) : option jsval :=
  match data with
  | VNull => None
  | VObj fields => Some (own fields k)
  | VBlob => Some (if String.eqb k "type" then Some (VStr EmptyString) else None)
  | _ => Some None
  end.

(** [x === s] for a string literal [s]. *)
Definition is_str (x : jsval) (s : string) : bool :=
  match x with
  | Some (VStr t) => String.eqb t s
  | _ => false
  end.

(** Truthiness, as tested by [if (x)]. *)
Definition truthy (x : jsval) : bool :=
  match x with
  | None | Some VNull => false
  | Some (VBool b) => b
  | Some (VNum n) => num_truthy n
  | Some (VStr s) => negb (String.eqb s EmptyString)
  | Some (VArr _) | Some (VObj _) | Some VBlob => true
  end.

Definition has_key (fields : list (string * value)) (k : string) : bool :=
  existsb (fun kv => String.eqb (fst kv) k) fields.

(** ToString of a value.  An object converts through
    [Object.prototype.toString]; an own property [toString] (never callable
    on a parsed object) hides it and the conversion raises a TypeError
    ([None]).  An array joins its elements with commas, [null] elements
    printing as the empty string. *)
Fixpoint ToString (v : value) : option string :=
  match v with
  | VNull => Some "null"
  | VBool true => Some "true"
  | VBool false => Some "false"
  | VNum n => Some (num_string n)
  | VStr s => Some s
  | VArr items =>
      (fix join (l : list value) : option string :=
         match l with
         | [] => Some EmptyString
         | x :: rest =>
             sx ← match x with VNull => Some EmptyString | _ => ToString x end;
             match rest with
             | [] => Some sx
             | _ => srest ← join rest; Some (sx ++ "," ++ srest)
             end
         end) items
  | VObj fields =>
      if has_key fields "toString" then None else Some "[object Object]"
  | VBlob => Some "[object Blob]"
  end.

(** The payload's field [k], [undefined] when it has none. *)
Definition field (data : value) (k : string) : jsval :=
  match get data k with
  | Some x => x
  | None => None
  end.

(** The conversion a template literal applies to [${x}]. *)
Definition template (x : jsval) : option string :=
  match x with
  | None => Some "undefined"
  | Some v => ToString v
  end.

Definition dquote : string := String (ascii_of_nat 34) EmptyString.
Definition backslash : string := String (ascii_of_nat 92) EmptyString.

Definition hex_digit (n : nat) : ascii :=
  ascii_of_nat (if n <? 10 then 48 + n else 87 + n)%nat.

(** One character of a string inside [JSON.stringify]'s output. *)
Definition escape_char (c : ascii) : string :=
  let n := nat_of_ascii c in
  if (n =? 34)%nat then backslash ++ dquote
  else if (n =? 92)%nat then backslash ++ backslash
  else if (n =? 8)%nat then backslash ++ "b"
  else if (n =? 12)%nat then backslash ++ "f"
  else if (n =? 10)%nat then backslash ++ "n"
  else if (n =? 13)%nat then backslash ++ "r"
  else if (n =? 9)%nat then backslash ++ "t"
  else if (n <? 32)%nat then
    backslash ++ "u00" ++
      String (hex_digit (n / 16)) (String (hex_digit (n mod 16)) EmptyString)
  else String c EmptyString.

Fixpoint escape (s : string) : string :=
  match s with
  | EmptyString => EmptyString
  | String c rest => escape_char c ++ escape rest
  end.

Definition quote (s : string) : string := dquote ++ escape s ++ dquote.

(** [JSON.stringify(v)] without indentation.  No value here has a callable
    [toJSON]; a Blob has no own enumerable property. *)
Fixpoint stringify (v : value) : string :=
  match v with
  | VNull => "null"
  | VBool true => "true"
  | VBool false => "false"
  | VNum n => num_json n
  | VStr s => quote s
  | VArr items =>
      "[" ++
      (fix elems (l : list value) : string :=
         match l with
         | [] => EmptyString
         | x :: rest =>
             match rest with
             | [] => stringify x
             | _ => stringify x ++ "," ++ elems rest
             end
         end) items ++ "]"
  | VObj fields =>
      "{" ++
      (fix members (l : list (string * value)) : string :=
         match l with
         | [] => EmptyString
         | (k, x) :: rest =>
             match rest with
             | [] => quote k ++ ":" ++ stringify x
             | _ => quote k ++ ":" ++ stringify x ++ "," ++ members rest
             end
         end) fields ++ "}"
  | VBlob => "{}"
  end.

End JS.

(** ** ChatInterface: rendering an inbound payload *)

Module Chat.
Import JS.

Record FileInfo := {
  name : string;
  type : string;
  size : Num;
}.

Record Message := {
  id : Z;
  text : jsval;
  isUser : bool;
  file : option FileInfo;
}.

(** The two pieces of component state the handler writes. *)
Record UI := {
  messages : list Message;
  isLoading : bool;
}.

(** [setIsLoading(false); setMessages(prev => [...prev, m])] with
    [m = { id: Date.now(), text, isUser: false }]. *)
Definition show (now : Z) (t : jsval) (ui : UI) : UI :=
  {| messages := messages ui ++
       [{| id := now; text := t; isUser := false; file := None |}];
     isLoading := false |}.

(** [handleMessage(data)]; [now] is the reading of [Date.now()], [None] an
    exception leaving the handler. *)
Definition handleMessage (now : Z) (data : value) (ui : UI) : option UI :=
  ty ← get data "type";
  if is_str ty "welcome" then
    content ← get data "content";
    Some (show now content ui)
  else
    st ← get data "status";
    if is_str st "error" then
      m ← get data "message";
      s ← template m;
      Some (show now (Some (VStr ("错误: " ++ s))) ui)
    else if is_str st "success" then
      ty' ← get data "type";
      if is_str ty' "file" then
        fn ← get data "filename";
        s ← template fn;
        Some (show now (Some (VStr ("文件上传成功: " ++ s))) ui)
      else
        m ← get data "message";
        Some (show now m ui)
    else
      m ← get data "message";
      if truthy m then
        m' ← get data "message";
        Some (show now m' ui)
      else
        Some (show now (Some (VStr (stringify data))) ui).

(** The wire contract of an inbound payload, as the interface section of
    the specification words it: five cases in priority order.  The fourth
    case is read as the handler tests it, a message field that is truthy. *)
Inductive Case := Welcome | ErrorStatus | SuccessStatus | PlainMessage | Fallback.

Definition applies (c : Case) (data : value) : Prop :=
  let welcome := is_str (field data "type") "welcome" in
  let error := is_str (field data "status") "error" in
  let success := is_str (field data "status") "success" in
  let message := truthy (field data "message") in
  match c with
  | Welcome => welcome = true
  | ErrorStatus => welcome = false /\ error = true
  | SuccessStatus => welcome = false /\ error = false /\ success = true
  | PlainMessage =>
      welcome = false /\ error = false /\ success = false /\ message = true
  | Fallback =>
      welcome = false /\ error = false /\ success = false /\ message = false
  end.

(** The text each case displays; [None] when a field that has to be
    converted to text cannot be. *)
Definition rendering (c : Case) (data : value) : option jsval :=
  match c with
  | Welcome => Some (field data "content")
  | ErrorStatus =>
      s ← template (field data "message");
      Some (Some (VStr ("错误: " ++ s)))
  | SuccessStatus =>
      if is_str (field data "type") "file" then
        s ← template (field data "filename");
        Some (Some (VStr ("文件上传成功: " ++ s)))
      else Some (field data "message")
  | PlainMessage => Some (field data "message")
  | Fallback => Some (Some (VStr (stringify data)))
  end.

(** The field a case converts to text inside a template literal, if it
    has one. *)
Definition interpolated (c : Case) (data : value) : option jsval :=
  match c with
  | ErrorStatus => Some (field data "message")
  | SuccessStatus =>
      if is_str (field data "type") "file" then Some (field data "filename")
      else None
  | Welcome | PlainMessage | Fallback => None
  end.

End Chat.

(** ** WebSocketService *)

Module WS.
Import JS.

Inductive ReadyState := CONNECTING | OPEN | CLOSING | CLOSED.

Inductive Status := connected | disconnected.

(** A [WebSocket] object: its [readyState] and the frames handed to its
    [send] so far. *)
Record Socket := {
  readyState : ReadyState;
  sent : list string;
}.

(** A message listener and a connection-status listener.  Listeners are
    opaque to the service: each has an identity (the [Set]s hold functions
    by identity) and either returns or throws on a given argument. *)
Record Handler := {
  hid : nat;
  hthrows : value -> bool;
}.

Record Callback := {
  cid : nat;
  cthrows : Status -> bool;
}.

(** The private fields of the class, followed by the part of the browser
    the class acts on: every socket created so far (a socket is named by
    its index), the number of pending [setTimeout] callbacks, the outcomes
    of the coming [new WebSocket(...)] calls ([true]: the constructor
    throws) with the count of calls made, and the record of every listener
    invocation. *)
Record State := {
  ws : option nat;
  reconnectAttempts : nat;
  messageQueue : list string;
  isConnecting : bool;
  messageHandlers : list Handler;
  connectionStatusCallbacks : list Callback;
  sockets : list Socket;
  timers : nat;
  tape : list bool;
  ctorCalls : nat;
  delivered : list (nat * value);
  notified : list (nat * Status);
}.

Definition maxReconnectAttempts : nat := 5.

(** The delay of the reconnect timer, in milliseconds.  Time is not part of
    the state: a pending timer fires at some later turn of the event loop. *)
Definition reconnectTimeout : nat := 3000.

Definition set_ws (x : option nat) (w : State) : State :=
  {| ws := x; reconnectAttempts := reconnectAttempts w;
     messageQueue := messageQueue w; isConnecting := isConnecting w;
     messageHandlers := messageHandlers w;
     connectionStatusCallbacks := connectionStatusCallbacks w;
     sockets := sockets w; timers := timers w; tape := tape w;
     ctorCalls := ctorCalls w; delivered := delivered w;
     notified := notified w |}.

Definition set_reconnectAttempts (x : nat) (w : State) : State :=
  {| ws := ws w; reconnectAttempts := x;
     messageQueue := messageQueue w; isConnecting := isConnecting w;
     messageHandlers := messageHandlers w;
     connectionStatusCallbacks := connectionStatusCallbacks w;
     sockets := sockets w; timers := timers w; tape := tape w;
     ctorCalls := ctorCalls w; delivered := delivered w;
     notified := notified w |}.

Definition set_messageQueue (x : list string) (w : State) : State :=
  {| ws := ws w; reconnectAttempts := reconnectAttempts w;
     messageQueue := x; isConnecting := isConnecting w;
     messageHandlers := messageHandlers w;
     connectionStatusCallbacks := connectionStatusCallbacks w;
     sockets := sockets w; timers := timers w; tape := tape w;
     ctorCalls := ctorCalls w; delivered := delivered w;
     notified := notified w |}.

Definition set_isConnecting (x : bool) (w : State) : State :=
  {| ws := ws w; reconnectAttempts := reconnectAttempts w;
     messageQueue := messageQueue w; isConnecting := x;
     messageHandlers := messageHandlers w;
     connectionStatusCallbacks := connectionStatusCallbacks w;
     sockets := sockets w; timers := timers w; tape := tape w;
     ctorCalls := ctorCalls w; delivered := delivered w;
     notified := notified w |}.

Definition set_messageHandlers (x : list Handler) (w : State) : State :=
  {| ws := ws w; reconnectAttempts := reconnectAttempts w;
     messageQueue := messageQueue w; isConnecting := isConnecting w;
     messageHandlers := x;
     connectionStatusCallbacks := connectionStatusCallbacks w;
     sockets := sockets w; timers := timers w; tape := tape w;
     ctorCalls := ctorCalls w; delivered := delivered w;
     notified := notified w |}.

Definition set_connectionStatusCallbacks (x : list Callback) (w : State)
  : State :=
  {| ws := ws w; reconnectAttempts := reconnectAttempts w;
     messageQueue := messageQueue w; isConnecting := isConnecting w;
     messageHandlers := messageHandlers w;
     connectionStatusCallbacks := x;
     sockets := sockets w; timers := timers w; tape := tape w;
     ctorCalls := ctorCalls w; delivered := delivered w;
     notified := notified w |}.

Definition set_sockets (x : list Socket) (w : State) : State :=
  {| ws := ws w; reconnectAttempts := reconnectAttempts w;
     messageQueue := messageQueue w; isConnecting := isConnecting w;
     messageHandlers := messageHandlers w;
     connectionStatusCallbacks := connectionStatusCallbacks w;
     sockets := x; timers := timers w; tape := tape w;
     ctorCalls := ctorCalls w; delivered := delivered w;
     notified := notified w |}.

Definition set_timers (x : nat) (w : State) : State :=
  {| ws := ws w; reconnectAttempts := reconnectAttempts w;
     messageQueue := messageQueue w; isConnecting := isConnecting w;
     messageHandlers := messageHandlers w;
     connectionStatusCallbacks := connectionStatusCallbacks w;
     sockets := sockets w; timers := x; tape := tape w;
     ctorCalls := ctorCalls w; delivered := delivered w;
     notified := notified w |}.

Definition set_ctor (t : list bool) (n : nat) (w : State) : State :=
  {| ws := ws w; reconnectAttempts := reconnectAttempts w;
     messageQueue := messageQueue w; isConnecting := isConnecting w;
     messageHandlers := messageHandlers w;
     connectionStatusCallbacks := connectionStatusCallbacks w;
     sockets := sockets w; timers := timers w; tape := t;
     ctorCalls := n; delivered := delivered w;
     notified := notified w |}.

Definition set_delivered (x : list (nat * value)) (w : State) : State :=
  {| ws := ws w; reconnectAttempts := reconnectAttempts w;
     messageQueue := messageQueue w; isConnecting := isConnecting w;
     messageHandlers := messageHandlers w;
     connectionStatusCallbacks := connectionStatusCallbacks w;
     sockets := sockets w; timers := timers w; tape := tape w;
     ctorCalls := ctorCalls w; delivered := x;
     notified := notified w |}.

Definition set_notified (x : list (nat * Status)) (w : State) : State :=
  {| ws := ws w; reconnectAttempts := reconnectAttempts w;
     messageQueue := messageQueue w; isConnecting := isConnecting w;
     messageHandlers := messageHandlers w;
     connectionStatusCallbacks := connectionStatusCallbacks w;
     sockets := sockets w; timers := timers w; tape := tape w;
     ctorCalls := ctorCalls w; delivered := delivered w;
     notified := x |}.

(** *** Methods run in a state monad with exceptions *)

Inductive res (A : Type) :=
| Ret (a : A)
| Exn.
Arguments Ret {A} a.
Arguments Exn {A}.

Definition M (A : Type) : Type := State -> res A * State.

Definition ret {A} (a : A) : M A := fun w => (Ret a, w).

Definition bind {A B} (m : M A) (f : A -> M B) : M B :=
  fun w =>
    match m w with
    | (Ret a, w') => f a w'
    | (Exn, w') => (Exn, w')
    end.

Definition modify (f : State -> State) : M unit := fun w => (Ret tt, f w).

(** [try { m } catch { h }] *)
Definition try_catch (m h : M unit) : M unit :=
  fun w =>
    match m w with
    | (Ret a, w') => (Ret a, w')
    | (Exn, w') => h w'
    end.

Notation "m1 ;; m2" := (bind m1 (fun _ => m2))
  (at level 100, m2 at level 200, right associativity).
Notation "x <- m1 ;; m2" := (bind m1 (fun x => m2))
  (at level 100, m1 at next level, m2 at level 200, right associativity).

(** *** What the browser does for the class *)

(** [this.ws?.readyState === WebSocket.OPEN] *)
Definition is_open (w : State) : bool :=
  match ws w with
  | Some i =>
      match sockets w !! i with
      | Some s => match readyState s with OPEN => true | _ => false end
      | None => false
      end
  | None => false
  end.

(** [socket.close()]: a socket that is connecting or open starts closing;
    its [close] event comes later. *)
Definition socket_close (s : Socket) : Socket :=
  match readyState s with
  | CONNECTING | OPEN => {| readyState := CLOSING; sent := sent s |}
  | CLOSING | CLOSED => s
  end.

Definition socket_send (data : string) (s : Socket) : Socket :=
  {| readyState := readyState s; sent := sent s ++ [data] |}.

Definition set_readyState (r : ReadyState) (s : Socket) : Socket :=
  {| readyState := r; sent := sent s |}.

(** [new WebSocket('ws://localhost:8765')]: throws, or returns a new
    socket in state CONNECTING. *)
Definition new_WebSocket : M nat :=
  fun w =>
    let w1 := set_ctor (tail (tape w)) (S (ctorCalls w)) w in
    match tape w with
    | true :: _ => (Exn, w1)
    | _ =>
        (Ret (length (sockets w)),
         set_sockets (sockets w ++ [{| readyState := CONNECTING; sent := [] |}]) w1)
    end.

(** [setTimeout(() => this.connect(), this.reconnectTimeout)] *)
Definition setTimeout_connect : M unit :=
  modify (fun w => set_timers (S (timers w)) w).

(** *** The methods *)

Definition call_callback (status : Status) (cb : Callback) : M unit :=
  fun w =>
    (if cthrows cb status then Exn else Ret tt,
     set_notified (notified w ++ [(cid cb, status)]) w).

Fixpoint forEach_callback (status : Status) (cbs : list Callback) : M unit :=
  match cbs with
  | [] => ret tt
  | cb :: rest => call_callback status cb ;; forEach_callback status rest
  end.

Definition notifyConnectionStatus (status : Status) : M unit :=
  fun w => forEach_callback status (connectionStatusCallbacks w) w.

Definition handleReconnect : M unit :=
  fun w =>
    if (reconnectAttempts w <? maxReconnectAttempts)%nat then
      (modify (fun w => set_reconnectAttempts (S (reconnectAttempts w)) w) ;;
       setTimeout_connect) w
    else ret tt w.

Definition close_existing : M unit :=
  fun w =>
    match ws w with
    | Some i => (Ret tt, set_ws None (set_sockets (alter socket_close i (sockets w)) w))
    | None => (Ret tt, w)
    end.

(** The part of the [try] block of [connect] that acts on the state: the
    old socket is closed and dropped, a new one is created and stored.  The
    four handler assignments that follow are the definitions [onopen],
    [onmessage], [onclose] and [onerror] below. *)
Definition connect_try : M unit :=
  close_existing ;;
  i <- new_WebSocket ;;
  modify (set_ws (Some i)).

Definition connect_catch : M unit :=
  modify (set_isConnecting false) ;;
  notifyConnectionStatus disconnected ;;
  handleReconnect.

Definition connect : M unit :=
  fun w =>
    if isConnecting w then (Ret tt, w)
    else
      (modify (set_isConnecting true) ;;
       try_catch connect_try connect_catch) w.

(** [this.ws.send(data)] on the current socket. *)
Definition transmit (data : string) : M unit :=
  fun w =>
    match ws w with
    | Some i => (Ret tt, set_sockets (alter (socket_send data) i (sockets w)) w)
    | None => (Ret tt, w)
    end.

(** [this.messageQueue.push(data)] *)
Definition enqueue (data : string) : M unit :=
  modify (fun w => set_messageQueue (messageQueue w ++ [data]) w).

Definition send (data : string) : M unit :=
  fun w =>
    if is_open w then transmit data w
    else
      (enqueue data ;;
       fun w => if isConnecting w then ret tt w else connect w) w.

(** The [while] loop of [processMessageQueue]; each turn shifts one message,
    so the length of the queue bounds the number of turns. *)
Fixpoint processMessageQueue_loop (turns : nat) : M unit :=
  fun w =>
    match turns with
    | O => (Ret tt, w)
    | S n =>
        match messageQueue w with
        | message :: rest =>
            if is_open w then
              (modify (set_messageQueue rest) ;;
               send message ;;
               processMessageQueue_loop n) w
            else (Ret tt, w)
        | [] => (Ret tt, w)
        end
    end.

Definition processMessageQueue : M unit :=
  fun w => processMessageQueue_loop (length (messageQueue w)) w.

(** The constructor: the field initialisers, then [this.connect()]. *)
Definition constructor (outcomes : list bool) : State :=
  snd (connect
    {| ws := None; reconnectAttempts := 0; messageQueue := [];
       isConnecting := false; messageHandlers := [];
       connectionStatusCallbacks := [];
       sockets := []; timers := 0; tape := outcomes; ctorCalls := 0;
       delivered := []; notified := [] |}).

(** *** Sending a chat message *)

Inductive Mode := Mode_PPT | Mode_LessonPlan | Mode_Textbook.

Record FileData := {
  name : string;
  type : string;
  size : Num;
  data : list Byte.byte;
}.

(** The argument [data] of [sendMessage]; an absent and a [null] file are
    both [None]. *)
Record MessageInput := {
  text : string;
  file : option FileData;
}.

Definition base64_alphabet : string :=
  "ABCDEFGHIJKLMNOPQRSTUVWXYZabcdefghijklmnopqrstuvwxyz0123456789+/".

Definition base64_char (n : nat) : ascii :=
  match String.get n base64_alphabet with
  | Some c => c
  | None => "="%char
  end.

Fixpoint base64 (bytes : list nat) : string :=
  match bytes with
  | [] => EmptyString
  | [a] =>
      String (base64_char (a / 4))
        (String (base64_char (a mod 4 * 16)) "==")
  | [a; b] =>
      String (base64_char (a / 4))
        (String (base64_char (a mod 4 * 16 + b / 16))
           (String (base64_char (b mod 16 * 4)) "="))
  | a :: b :: c :: rest =>
      String (base64_char (a / 4))
        (String (base64_char (a mod 4 * 16 + b / 16))
           (String (base64_char (b mod 16 * 4 + c / 64))
              (String (base64_char (c mod 64)) (base64 rest))))
  end.

(** [reader.readAsDataURL(new Blob([buffer]))], as [reader.result] holds it
    when [onload] runs: the blob has no type of its own. *)
Definition readAsDataURL (buffer : list Byte.byte) : string :=
  "data:application/octet-stream;base64," ++ base64 (map Byte.to_nat buffer).

(** The promise returned by [sendMessage]. *)
Inductive Promise := Pending | Resolved | Rejected.

(** [try { this.send(JSON.stringify(message)); resolve(); }
     catch (error) { reject(error); }] *)
Definition send_and_settle (message : value) : M Promise :=
  fun w =>
    match send (stringify message) w with
    | (Ret _, w') => (Ret Resolved, w')
    | (Exn, w') => (Ret Rejected, w')
    end.

(** The object literal [message] of the branch with a file, built in
    [reader.onload]. *)
Definition message_with_file (d : MessageInput) (f : FileData) : value :=
  let base64Data := readAsDataURL (data f) in
  VObj [("text", VStr (text d));
        ("fileData", VStr base64Data);
        ("filename", VStr (name f));
        ("fileType", VStr (type f));
        ("fileSize", VNum (size f))].

(** The object literal [message] of the branch without a file. *)
Definition message_without_file (d : MessageInput) : value :=
  VObj [("text", VStr (text d));
        ("fileData", VNull);
        ("filename", VNull);
        ("fileType", VNull);
        ("fileSize", VNull)].

(** [reader.onload] of a call with a file. *)
Definition reader_onload (mode : Mode) (d : MessageInput) (f : FileData)
  : M Promise :=
  send_and_settle (message_with_file d f).

(** [sendMessage(mode, data)] up to its return: with a file the reader is
    started and the promise is pending until [reader.onload] runs. *)
Definition sendMessage (mode : Mode) (d : MessageInput) : M Promise :=
  match file d with
  | Some f => ret Pending
  | None => send_and_settle (message_without_file d)
  end.

(** *** Listener registration *)

Definition has_handler (h : Handler) (l : list Handler) : bool :=
  existsb (fun x => (hid x =? hid h)%nat) l.

Definition has_callback (cb : Callback) (l : list Callback) : bool :=
  existsb (fun x => (cid x =? cid cb)%nat) l.

(** [this.messageHandlers.add(handler)] *)
Definition addMessageHandler (h : Handler) : M unit :=
  modify (fun w =>
    if has_handler h (messageHandlers w) then w
    else set_messageHandlers (messageHandlers w ++ [h]) w).

(** The function [addMessageHandler] returns:
    [this.messageHandlers.delete(handler)] *)
Definition removeMessageHandler (h : Handler) : M unit :=
  modify (fun w =>
    set_messageHandlers
      (List.filter (fun x => negb (hid x =? hid h)%nat) (messageHandlers w)) w).

Definition addConnectionStatusCallback (cb : Callback) : M unit :=
  modify (fun w =>
    if has_callback cb (connectionStatusCallbacks w) then w
    else set_connectionStatusCallbacks (connectionStatusCallbacks w ++ [cb]) w).

Definition removeConnectionStatusCallback (cb : Callback) : M unit :=
  modify (fun w =>
    set_connectionStatusCallbacks
      (List.filter (fun x => negb (cid x =? cid cb)%nat)
         (connectionStatusCallbacks w)) w).

Definition getConnectionStatus (w : State) : Status :=
  if is_open w then connected else disconnected.

Definition close : M unit :=
  fun w =>
    match ws w with
    | Some i => (Ret tt, set_ws None (set_sockets (alter socket_close i (sockets w)) w))
    | None => (Ret tt, w)
    end.

(** *** The socket's event handlers *)

Definition onopen : M unit :=
  modify (set_reconnectAttempts 0) ;;
  modify (set_isConnecting false) ;;
  processMessageQueue ;;
  notifyConnectionStatus connected.

Definition onclose : M unit :=
  modify (set_isConnecting false) ;;
  notifyConnectionStatus disconnected ;;
  handleReconnect.

Definition onerror : M unit :=
  modify (set_isConnecting false) ;;
  notifyConnectionStatus disconnected.

(** An inbound frame; [event.data] is a string for a text frame and a Blob
    for a binary one. *)
Inductive Frame := TextFrame (s : string) | BinaryFrame.

Definition event_data (f : Frame) : value :=
  match f with
  | TextFrame s => VStr s
  | BinaryFrame => VBlob
  end.

Definition call_handler (payload : value) (h : Handler) : M unit :=
  fun w =>
    (if hthrows h payload then Exn else Ret tt,
     set_delivered (delivered w ++ [(hid h, payload)]) w).

Fixpoint forEach_handler (payload : value) (hs : list Handler) : M unit :=
  match hs with
  | [] => ret tt
  | h :: rest => call_handler payload h ;; forEach_handler payload rest
  end.

(** [this.messageHandlers.forEach(handler => handler(payload))] *)
Definition deliver (payload : value) : M unit :=
  fun w => forEach_handler payload (messageHandlers w) w.

(** The listeners a [forEach] reaches: all of them up to and including the
    first that throws. *)
Fixpoint reached {L X : Type} (throws : L -> X -> bool) (x : X) (ls : list L)
  : list L :=
  match ls with
  | [] => []
  | l :: rest => l :: (if throws l x then [] else reached throws x rest)
  end.

Section Events.

(** [JSON.parse] on the text of its argument: the decoded value, or [None]
    for a SyntaxError. *)
Variable JSON_parse : string -> option value.

(** [JSON.parse(event.data)], which converts its argument to text first. *)
Definition decode (f : Frame) : option value :=
  s ← ToString (event_data f); JSON_parse s.

Definition parse_event (f : Frame) : M value :=
  fun w =>
    match decode f with
    | Some v => (Ret v, w)
    | None => (Exn, w)
    end.

Definition onmessage (f : Frame) : M unit :=
  try_catch
    (payload <- parse_event f ;; deliver payload)
    (deliver (event_data f)).

(** *** The event loop

    One callback runs at a time.  A socket event is possible in the states
    of the socket the browser fires it in; an exception leaving a callback
    is reported by the browser and the loop goes on.  The [onload] of a
    file reader comes some time after the [sendMessage] that started it. *)
Inductive Event :=
| SocketOpen (i : nat)
| SocketMessage (i : nat) (f : Frame)
| SocketClose (i : nat) (failed : bool)
| TimerFires
| CallSendMessage (mode : Mode) (d : MessageInput)
| ReaderLoad (mode : Mode) (d : MessageInput)
| CallAddMessageHandler (h : Handler)
| CallRemoveMessageHandler (h : Handler)
| CallAddConnectionStatusCallback (cb : Callback)
| CallRemoveConnectionStatusCallback (cb : Callback)
| CallClose.
(* [ReaderLoad mode d] is the [onload] of the reader a call
   [sendMessage(mode, d)] with a file started. *)

Definition update_socket (i : nat) (r : ReadyState) (w : State) : State :=
  set_sockets (alter (set_readyState r) i (sockets w)) w.

Definition step (w : State) (e : Event) : option State :=
  match e with
  | SocketOpen i =>
      s ← sockets w !! i;
      match readyState s with
      | CONNECTING => Some (snd (onopen (update_socket i OPEN w)))
      | _ => None
      end
  | SocketMessage i f =>
      s ← sockets w !! i;
      match readyState s with
      | OPEN | CLOSING => Some (snd (onmessage f w))
      | _ => None
      end
  | SocketClose i failed =>
      s ← sockets w !! i;
      match readyState s with
      | CLOSED => None
      | _ =>
          let w1 := update_socket i CLOSED w in
          let w2 := if failed then snd (onerror w1) else w1 in
          Some (snd (onclose w2))
      end
  | TimerFires =>
      match timers w with
      | S n => Some (snd (connect (set_timers n w)))
      | O => None
      end
  | CallSendMessage mode d => Some (snd (sendMessage mode d w))
  | ReaderLoad mode d =>
      f ← file d; Some (snd (reader_onload mode d f w))
  | CallAddMessageHandler h => Some (snd (addMessageHandler h w))
  | CallRemoveMessageHandler h => Some (snd (removeMessageHandler h w))
  | CallAddConnectionStatusCallback cb =>
      Some (snd (addConnectionStatusCallback cb w))
  | CallRemoveConnectionStatusCallback cb =>
      Some (snd (removeConnectionStatusCallback cb w))
  | CallClose => Some (snd (close w))
  end.

Fixpoint run (w : State) (evs : list Event) : option State :=
  match evs with
  | [] => Some w
  | e :: rest => w' ← step w e; run w' rest
  end.

(** The states a service can be in: those some sequence of events leads to
    from the state its constructor leaves. *)
Definition reachable (w : State) : Prop :=
  exists outcomes evs, run (constructor outcomes) evs = Some w.

(** *** useWebSocket

    The hook holds the service and the [status] state.  The callback its
    effect registers is [(newStatus) => setStatus(newStatus)]; [c] is the
    identity of that function. *)
Record Hook := {
  wsService : State;
  status : Status;
}.

Definition status_callback (c : nat) : Callback :=
  {| cid := c; cthrows := fun _ => false |}.

(** The first render: [useState('disconnected')] and
    [useState(() => new WebSocketService())]. *)
Definition useWebSocket_render (outcomes : list bool) : Hook :=
  {| wsService := constructor outcomes; status := disconnected |}.

(** The effect: the callback is registered, then
    [setStatus(wsService.getConnectionStatus())]. *)
Definition useWebSocket_effect (c : nat) (k : Hook) : Hook :=
  let w := snd (addConnectionStatusCallback (status_callback c) (wsService k)) in
  {| wsService := w; status := getConnectionStatus w |}.

(** The cleanup of the effect: [removeStatusCallback()]. *)
Definition useWebSocket_cleanup (c : nat) (k : Hook) : Hook :=
  {| wsService :=
       snd (removeConnectionStatusCallback (status_callback c) (wsService k));
     status := status k |}.

(** [status] after the calls of the callback among the notifications [ns]. *)
Definition setStatus_all (c : nat) (ns : list (nat * Status)) (s : Status)
  : Status :=
  foldl (fun acc n => if (fst n =? c)%nat then snd n else acc) s ns.

(** An event of the service, seen from the hook. *)
Definition hook_step (c : nat) (k : Hook) (e : Event) : option Hook :=
  w' ← step (wsService k) e;
  Some {| wsService := w';
          status :=
            setStatus_all c
              (drop (length (notified (wsService k))) (notified w'))
              (status k) |}.

End Events.

(** *** Vocabulary of the properties *)

(** A socket that can still open or carry frames. *)
Definition live (s : Socket) : bool :=
  match readyState s with
  | CONNECTING | OPEN => true
  | CLOSING | CLOSED => false
  end.

(** Every live socket is the one the service holds in [this.ws]. *)
Definition live_is_current (w : State) : Prop :=
  forall i s, sockets w !! i = Some s -> live s = true -> ws w = Some i.

(** Between [w] and [w'] every timer set was paid for by one increment of
    the failed-attempt counter, which did not decrease and stays within
    the maximum. *)
Definition paid (w w' : State) : Prop :=
  (reconnectAttempts w <= reconnectAttempts w')%nat /\
  (timers w' + reconnectAttempts w = timers w + reconnectAttempts w')%nat /\
  ((reconnectAttempts w <= maxReconnectAttempts)%nat ->
   (reconnectAttempts w' <= maxReconnectAttempts)%nat).

(** One [notifyConnectionStatus(status)] over the listeners [cbs]: the
    calls it makes. *)
Definition round (cbs : list Callback) (status : Status) : list (nat * Status) :=
  map (fun cb => (cid cb, status)) (reached cthrows status cbs).

(** Between [w] and [w'] the set of status listeners is unchanged and the
    calls of listeners are those of some notifications, one after the
    other. *)
Definition notifies_in_rounds (w w' : State) : Prop :=
  connectionStatusCallbacks w' = connectionStatusCallbacks w /\
  exists statuses,
    notified w' =
      (notified w ++ flat_map (round (connectionStatusCallbacks w)) statuses)%list.

(** [w] after its queue went out, in order, on the open socket [s] held at
    index [i]. *)
Definition drained (i : nat) (s : Socket) (w : State) : State :=
  set_messageQueue []
    (set_sockets
       (<[i := {| readyState := OPEN; sent := sent s ++ messageQueue w |}]>
          (sockets w)) w).

(** The property [P], if it holds in [w], holds in [w']. *)
Definition keeps (P : State -> Prop) (w w' : State) : Prop := P w -> P w'.

(** No socket is connecting or open. *)
Definition none_live (w : State) : Prop :=
  forall i s, sockets w !! i = Some s -> live s = false.

(** A chat message without a file, and the frame that carries it. *)
Definition text_message (t : string) : MessageInput :=
  {| text := t; file := None |}.

Definition text_frame (t : string) : string :=
  stringify (VObj [("text", VStr t); ("fileData", VNull); ("filename", VNull);
                   ("fileType", VNull); ("fileSize", VNull)]).

(** The envelope of a call [sendMessage(mode, d)]. *)
Definition envelope (d : MessageInput) : value :=
  match file d with
  | Some f => message_with_file d f
  | None => message_without_file d
  end.

(** How the promise of [sendMessage] settles when [send] is handed [frame]
    in state [w]. *)
Definition settles (frame : string) (w : State) : Promise :=
  match fst (send frame w) with
  | Ret _ => Resolved
  | Exn => Rejected
  end.

(** Some message listener throws on [payload]. *)
Definition handler_throws (payload : value) (w : State) : bool :=
  existsb (fun h => hthrows h payload) (messageHandlers w).

(** The listener of ChatInterface as the service sees it: it throws on the
    payloads [handleMessage] throws on (which do not depend on the clock or
    on the messages displayed so far). *)
Definition chat_handler (i : nat) : Handler :=
  {| hid := i;
     hthrows := fun payload =>
       match Chat.handleMessage 0 payload
               {| Chat.messages := []; Chat.isLoading := true |} with
       | Some _ => false
       | None => true
       end |}.

(** A listener that never throws, and one that always does. *)
Definition quiet_handler (i : nat) : Handler :=
  {| hid := i; hthrows := fun _ => false |}.

Definition failing_handler (i : nat) : Handler :=
  {| hid := i; hthrows := fun _ => true |}.

Definition failing_callback (i : nat) : Callback :=
  {| cid := i; cthrows := fun _ => true |}.

(** The sockets of [w] once [connect] has closed the current one. *)
Definition closed_sockets (w : State) : list Socket :=
  match ws w with
  | Some i => alter socket_close i (sockets w)
  | None => sockets w
  end.

(** The next [new WebSocket(...)] throws. *)
Definition constructor_throws (w : State) : bool := hd false (tape w).

(** Some connection-status listener throws when told [status]. *)
Definition listener_throws (status : Status) (w : State) : bool :=
  existsb (fun cb => cthrows cb status) (connectionStatusCallbacks w).

(** A method keeps the relation [R] between the state it starts in and the
    state it leaves, whether it returns or throws. *)
Definition preserves (R : State -> State -> Prop) {A} (m : M A) : Prop :=
  forall w, R w (snd (m w)).

Definition is_open_event (e : Event) : bool :=
  match e with
  | SocketOpen _ => true
  | _ => false
  end.

Definition is_timer_event (e : Event) : bool :=
  match e with
  | TimerFires => true
  | _ => false
  end.

(** [JSON.parse] on the frames of the scenarios below: the texts [null] and
    [{"status":"error","message":"bad input"}] decode, the text [not-json]
    and the text of a Blob do not. *)
Definition scenario_parse (s : string) : option value :=
  if String.eqb s "null" then Some VNull
  else if String.eqb s
            (stringify (VObj [("status", VStr "error");
                              ("message", VStr "bad input")]))
  then Some (VObj [("status", VStr "error"); ("message", VStr "bad input")])
  else None.

(** The events [evs] can happen, in this order, after the constructor. *)
Definition possible (outcomes : list bool) (evs : list Event) : bool :=
  match run scenario_parse (constructor outcomes) evs with
  | Some _ => true
  | None => false
  end.

(** The state a scenario ends in. *)
Definition after (outcomes : list bool) (evs : list Event) : State :=
  default (constructor outcomes)
    (run scenario_parse (constructor outcomes) evs).

(** The hook after the events [evs] of a scenario. *)
Definition hook_after (c : nat) (k : Hook) (evs : list Event) : Hook :=
  foldl (fun k e => default k (hook_step scenario_parse c k e)) k evs.

(** Six handshakes fail in a row: the one the constructor started and the
    five the reconnect timers started. *)
Definition failing_run : list Event :=
  [SocketClose 0 true; TimerFires; SocketClose 1 true; TimerFires;
   SocketClose 2 true; TimerFires; SocketClose 3 true; TimerFires;
   SocketClose 4 true; TimerFires; SocketClose 5 true].

(** No socket opens in the course of [evs]. *)
Definition no_open (evs : list Event) : bool :=
  forallb (fun e => negb (is_open_event e)) evs.

(** The counter and the pending timers are the same in [w] and [w']. *)
Definition same_counters (w w' : State) : Prop :=
  reconnectAttempts w' = reconnectAttempts w /\ timers w' = timers w.

(** The number of times a reconnect timer fired and called [connect]. *)
Definition timer_attempts (evs : list Event) : nat :=
  length (List.filter is_timer_event evs).

(** The number of handshakes or connections that failed. *)
Definition is_failure_event (e : Event) : bool :=
  match e with
  | SocketClose _ true => true
  | _ => false
  end.

Definition failures (evs : list Event) : nat :=
  length (List.filter is_failure_event evs).

(** The first handshake fails and leaves a reconnect timer pending; a chat
    message starts a second socket, which opens. *)
Definition reopened_run : list Event :=
  [SocketClose 0 true; CallSendMessage Mode_PPT (text_message "x");
   SocketOpen 1].

(** Then no socket opens any more: the pending timer fires, and five
    handshakes fail in a row, each followed by the timer it set. *)
Definition six_timers_run : list Event :=
  [TimerFires; SocketClose 2 true; TimerFires; SocketClose 3 true;
   TimerFires; SocketClose 4 true; TimerFires; SocketClose 5 true;
   TimerFires; SocketClose 6 true; TimerFires].

(** The events [evs] can happen, in this order, to the service of the
    hook [k]. *)
Fixpoint hook_possible (c : nat) (k : Hook) (evs : list Event) : bool :=
  match evs with
  | [] => true
  | e :: rest =>
      match hook_step scenario_parse c k e with
      | Some k' => hook_possible c k' rest
      | None => false
      end
  end.

End WS.

(** ** Further vocabulary for the service *)

Module WSMore.
Import JS WS.
Local Open Scope list_scope.

(** Every frame the service holds: those waiting in the queue and those
    handed to a socket. *)
Definition frames (w : State) : list string :=
  messageQueue w ++ concat (map sent (sockets w)).

(** The frames an event hands to [send]: the envelope of a [sendMessage]
    call without a file, or of the reader's [onload] of a call with one. *)
Definition frames_of (e : Event) : list string :=
  match e with
  | CallSendMessage _ d =>
      match file d with
      | None => [stringify (envelope d)]
      | Some _ => []
      end
  | ReaderLoad _ d =>
      match file d with
      | Some _ => [stringify (envelope d)]
      | None => []
      end
  | _ => []
  end.

(** A socket whose [open] or [close] event is still to come with the
    handshake, or the closing, under way. *)
Definition in_transition (s : Socket) : bool :=
  match readyState s with
  | CONNECTING | CLOSING => true
  | OPEN | CLOSED => false
  end.

(** The re-entrancy flag is set only while some socket is in transition:
    the [open] or [close] event of that socket will clear it. *)
Definition flag_backed (w : State) : Prop :=
  isConnecting w = true ->
  exists i s, sockets w !! i = Some s /\ in_transition s = true.

(** While the connection is open nothing waits in the queue. *)
Definition open_queue_empty (w : State) : Prop :=
  is_open w = true -> messageQueue w = [].

(** One [forEach] of the message listeners [hs] over [payload]: the calls
    it makes. *)
Definition handler_round (hs : list Handler) (payload : value)
  : list (nat * value) :=
  map (fun h => (hid h, payload)) (reached hthrows payload hs).

(** Between [w] and [w'] the set of message listeners is unchanged and no
    listener was called. *)
Definition no_delivery (w w' : State) : Prop :=
  messageHandlers w' = messageHandlers w /\ delivered w' = delivered w.

(** Between [w] and [w'] the current socket, the sockets and the queue are
    unchanged. *)
Definition same_link (w w' : State) : Prop :=
  ws w' = ws w /\ sockets w' = sockets w /\ messageQueue w' = messageQueue w.

(** The re-entrancy flag is the same in [w] and [w']. *)
Definition same_flag (w w' : State) : Prop :=
  isConnecting w' = isConnecting w.

(** The frames between [w] and [w'] are the same, up to their places. *)
Definition same_frames (w w' : State) : Prop :=
  frames w' ≡ₚ frames w.

(** The frames handed to the sockets so far: socket by socket in the
    order the sockets were created and, on each socket, in the order the
    frames went out. *)
Definition transmitted (w : State) : list string :=
  concat (map sent (sockets w)).

(** The current socket is the one created last. *)
Definition current_is_last (w : State) : Prop :=
  forall i, ws w = Some i -> S i = length (sockets w).

(** Between [w] and [w'] nothing was transmitted and the queue is
    unchanged. *)
Definition same_order (w w' : State) : Prop :=
  transmitted w' = transmitted w /\ messageQueue w' = messageQueue w.

End WSMore.

(** ** ChatInterface: the component around the service *)

Module View.
Import JS WS.

(** A [File] of the file input: its name, MIME type, size in bytes and
    content. *)
Record File := {
  fname : string;
  ftype : string;
  fsize : N;
  content : list Byte.byte;
}.

Record FilePreview := {
  name : string;
  type : string;
  size : N;
  preview : list Byte.byte;
}.

(** A size as a JS number: an integer below 10^21 prints as its decimal
    digits, in a template literal and in JSON alike. *)
Definition number_of_N (n : N) : Num :=
  let digits := NilZero.string_of_uint (N.to_uint n) in
  {| num_string := digits; num_json := digits; num_truthy := negb (n =? 0)%N |}.

Definition allowedTypes : list string :=
  ["application/vnd.openxmlformats-officedocument.wordprocessingml.document";
   "image/png";
   "text/plain";
   "application/msword";
   "application/pdf";
   "application/vnd.ms-powerpoint";
   "application/vnd.openxmlformats-officedocument.presentationml.presentation"].

(** [10 * 1024 * 1024] *)
Definition maxFileSize : N := 10 * 1024 * 1024.

Definition alert_type : string :=
  "不支持的文件类型！请上传 PNG、DOC、DOCX、PDF、PPT、PPTX 或 TXT 文件。".

Definition alert_size : string := "文件大小不能超过10MB！".

Definition send_failed : string := "发送消息失败，请重试".

(** The state of the component: its five pieces of React state (the
    message list and the loading flag are the [Chat.UI] the message handler
    writes), the hook, and what the browser holds for it: the file readers
    [handleFileSelect] started, the [sendMessage] calls with a file whose
    promise is pending (with the mode and data of the call), and the
    alerts shown. *)
Record ChatState := {
  ui : Chat.UI;
  inputText : string;
  mode : Mode;
  selectedFile : option FilePreview;
  hook : Hook;
  reading : list File;
  awaiting : list (Mode * MessageInput * FileData);
  alerts : list string;
}.

Definition set_ui (x : Chat.UI) (st : ChatState) : ChatState :=
  {| ui := x; inputText := inputText st; mode := mode st;
     selectedFile := selectedFile st; hook := hook st;
     reading := reading st; awaiting := awaiting st; alerts := alerts st |}.

Definition set_inputText (x : string) (st : ChatState) : ChatState :=
  {| ui := ui st; inputText := x; mode := mode st;
     selectedFile := selectedFile st; hook := hook st;
     reading := reading st; awaiting := awaiting st; alerts := alerts st |}.

Definition set_mode (x : Mode) (st : ChatState) : ChatState :=
  {| ui := ui st; inputText := inputText st; mode := x;
     selectedFile := selectedFile st; hook := hook st;
     reading := reading st; awaiting := awaiting st; alerts := alerts st |}.

Definition set_selectedFile (x : option FilePreview) (st : ChatState)
  : ChatState :=
  {| ui := ui st; inputText := inputText st; mode := mode st;
     selectedFile := x; hook := hook st;
     reading := reading st; awaiting := awaiting st; alerts := alerts st |}.

Definition set_hook (x : Hook) (st : ChatState) : ChatState :=
  {| ui := ui st; inputText := inputText st; mode := mode st;
     selectedFile := selectedFile st; hook := x;
     reading := reading st; awaiting := awaiting st; alerts := alerts st |}.

Definition set_reading (x : list File) (st : ChatState) : ChatState :=
  {| ui := ui st; inputText := inputText st; mode := mode st;
     selectedFile := selectedFile st; hook := hook st;
     reading := x; awaiting := awaiting st; alerts := alerts st |}.

Definition set_awaiting (x : list (Mode * MessageInput * FileData))
    (st : ChatState) : ChatState :=
  {| ui := ui st; inputText := inputText st; mode := mode st;
     selectedFile := selectedFile st; hook := hook st;
     reading := reading st; awaiting := x; alerts := alerts st |}.

(** [alert(msg)] *)
Definition alert (msg : string) (st : ChatState) : ChatState :=
  {| ui := ui st; inputText := inputText st; mode := mode st;
     selectedFile := selectedFile st; hook := hook st;
     reading := reading st; awaiting := awaiting st;
     alerts := (alerts st ++ [msg])%list |}.

(** [setIsLoading(b)] and [setMessages(prev => [...prev, m])] *)
Definition setIsLoading (b : bool) (st : ChatState) : ChatState :=
  set_ui {| Chat.messages := Chat.messages (ui st); Chat.isLoading := b |} st.

Definition addMessage (m : Chat.Message) (st : ChatState) : ChatState :=
  set_ui {| Chat.messages := (Chat.messages (ui st) ++ [m])%list;
            Chat.isLoading := Chat.isLoading (ui st) |} st.

(** The identities of the two functions the component registers with the
    service: the status callback of [useWebSocket] and [handleMessage]. *)
Definition setStatus_id : nat := 0.
Definition handleMessage_id : nat := 0.

(** *** File selection *)

(** [handleFileSelect]: only the first file counts; its type is checked,
    then its size, then a reader is started. *)
Definition handleFileSelect (files : list File) (st : ChatState) : ChatState :=
  match files with
  | [] => st
  | file :: _ =>
      if negb (existsb (String.eqb (ftype file)) allowedTypes) then
        alert alert_type st
      else if (maxFileSize <? fsize file)%N then
        alert alert_size st
      else set_reading (reading st ++ [file])%list st
  end.

(** [reader.onload] of the [k]-th reader still reading: the result of
    [readAsArrayBuffer] is an ArrayBuffer. *)
Definition fileReader_onload (k : nat) (st : ChatState) : option ChatState :=
  file ← reading st !! k;
  Some (set_selectedFile
          (Some {| name := fname file; type := ftype file;
                   size := fsize file; preview := content file |})
          (set_reading (delete k (reading st)) st)).

Definition handleRemoveFile (st : ChatState) : ChatState :=
  set_selectedFile None st.

Definition handleModeChange (newMode : Mode) (st : ChatState) : ChatState :=
  set_mode newMode st.

(** *** Sending *)

Definition is_space (n : nat) : bool :=
  ((n =? 9) || (n =? 10) || (n =? 11) || (n =? 12) || (n =? 13) || (n =? 32))%nat.

(** The three-byte white space and line terminators of ECMAScript, in
    UTF-8: U+1680, U+2000 to U+200A, U+2028, U+2029, U+202F, U+205F, U+3000
    and U+FEFF. *)
Definition is_space3 (a b c : nat) : bool :=
  (((a =? 225) && (b =? 154) && (c =? 128))
   || ((a =? 226) && (b =? 128) && (128 <=? c) && (c <=? 138))
   || ((a =? 226) && (b =? 128) && ((c =? 168) || (c =? 169) || (c =? 175)))
   || ((a =? 226) && (b =? 129) && (c =? 159))
   || ((a =? 227) && (b =? 128) && (c =? 128))
   || ((a =? 239) && (b =? 187) && (c =? 191)))%nat.

(** [!s.trim()]: the string is made of white space and line terminators
    only ([s.trim()] is then the empty string, which is falsy). *)
Fixpoint blank (s : string) : bool :=
  match s with
  | EmptyString => true
  | String c rest =>
      let a := nat_of_ascii c in
      if is_space a then blank rest
      else
        match rest with
        | String c2 rest2 =>
            let b := nat_of_ascii c2 in
            if ((a =? 194) && (b =? 160))%nat then blank rest2
            else
              match rest2 with
              | String c3 rest3 =>
                  if is_space3 a b (nat_of_ascii c3) then blank rest3 else false
              | EmptyString => false
              end
        | EmptyString => false
        end
  end.

(** The hook after the service moved to [w']: the status callback ran for
    each notification made on the way. *)
Definition hook_move (k : Hook) (w' : State) : Hook :=
  {| wsService := w';
     status :=
       setStatus_all setStatus_id
         (drop (length (notified (wsService k))) (notified w'))
         (status k) |}.

(** The [finally] block of [handleSend]. *)
Definition handleSend_finally (st : ChatState) : ChatState :=
  set_selectedFile None (set_inputText EmptyString st).

(** The [catch] block of [handleSend]. *)
Definition handleSend_catch (now : Z) (st : ChatState) : ChatState :=
  addMessage {| Chat.id := now; Chat.text := Some (VStr send_failed);
                Chat.isUser := false; Chat.file := None |}
    (setIsLoading false st).

(** What follows the [await] once the promise is settled. *)
Definition handleSend_settled (now : Z) (p : res Promise) (st : ChatState)
  : ChatState :=
  match p with
  | Ret Rejected | Exn => handleSend_finally (handleSend_catch now st)
  | Ret Resolved | Ret Pending => handleSend_finally st
  end.

(** [messageData] of [handleSend]. *)
Definition messageData (st : ChatState) : MessageInput :=
  {| text := inputText st;
     file :=
       match selectedFile st with
       | Some f =>
           Some {| WS.name := name f; WS.type := type f;
                   WS.size := number_of_N (size f); WS.data := preview f |}
       | None => None
       end |}.

Definition userMessage (now : Z) (st : ChatState) : Chat.Message :=
  {| Chat.id := now; Chat.text := Some (VStr (inputText st));
     Chat.isUser := true;
     Chat.file :=
       match selectedFile st with
       | Some f =>
           Some {| Chat.name := name f; Chat.type := type f;
                   Chat.size := number_of_N (size f) |}
       | None => None
       end |}.

(** [handleSend]; [now] is the reading of [Date.now()] for the user message
    and [later] the one for the failure message.  A promise settled within
    the call is awaited in the same turn of the event loop; with a file the
    promise is pending and the rest runs at the reader's [onload]. *)
Definition handleSend (now later : Z) (st : ChatState) : ChatState :=
  if blank (inputText st) && negb (bool_decide (is_Some (selectedFile st)))
  then st
  else
    let st1 := addMessage (userMessage now st) (setIsLoading true st) in
    let d := messageData st in
    let (p, w') := sendMessage (mode st) d (wsService (hook st)) in
    let st2 := set_hook (hook_move (hook st) w') st1 in
    match p, file d with
    | Ret Pending, Some f =>
        set_awaiting (awaiting st2 ++ [(mode st, d, f)])%list st2
    | _, _ => handleSend_settled later p st2
    end.

(** The reader of the [k]-th pending [sendMessage] call loads: the envelope
    goes to [send], the promise settles and [handleSend] resumes. *)
Definition send_onload (k : nat) (later : Z) (st : ChatState)
  : option ChatState :=
  '(m, d, f) ← awaiting st !! k;
  let (p, w') := reader_onload m d f (wsService (hook st)) in
  Some (handleSend_settled later p
          (set_hook (hook_move (hook st) w')
             (set_awaiting (delete k (awaiting st)) st))).

(** [handleKeyPress] *)
Definition handleKeyPress (key : string) (shiftKey : bool) (now later : Z)
    (st : ChatState) : ChatState :=
  if String.eqb key "Enter" && negb shiftKey then handleSend now later st
  else st.

(** *** Receiving *)

(** One call of [handleMessage] by the service.  When it throws on [null]
    nothing has run; any other exception comes from a template literal,
    after [setIsLoading(false)]. *)
Definition receive (now : Z) (payload : value) (x : Chat.UI) : Chat.UI :=
  match Chat.handleMessage now payload x with
  | Some x' => x'
  | None =>
      match payload with
      | VNull => x
      | _ => {| Chat.messages := Chat.messages x; Chat.isLoading := false |}
      end
  end.

Definition receive_all (now : Z) (ds : list (nat * value)) (x : Chat.UI)
  : Chat.UI :=
  foldl (fun acc n =>
           if (fst n =? handleMessage_id)%nat then receive now (snd n) acc
           else acc) x ds.

(** *** The status toast *)

(** [ConnectionStatusToast] *)
Definition ConnectionStatusToast (show : bool) (text : option string)
  : option string :=
  if show then
    Some match text with
         | Some t => if String.eqb t EmptyString then "未连接后端服务" else t
         | None => "未连接后端服务"
         end
  else None.

(** The toast as [ChatInterface] renders it. *)
Definition toast (st : ChatState) : option string :=
  ConnectionStatusToast
    (match status (hook st) with connected => false | disconnected => true end)
    (Some "未连接后端服务").

Section Loop.

Variable JSON_parse : string -> option value.

(** *** The component's event loop

    The socket and timer events of the service, and the user's actions.
    The textarea and the send button are disabled while [isLoading] is
    set. *)
Inductive Action :=
| Service (e : Event) (now : Z)
| InputChange (s : string)
| FileChosen (files : list File)
| FileLoaded (k : nat)
| RemoveFile
| SendClick (now later : Z)
| KeyPress (key : string) (shiftKey : bool) (now later : Z)
| SendLoaded (k : nat) (later : Z).

Definition is_service_event (e : Event) : bool :=
  match e with
  | SocketOpen _ | SocketMessage _ _ | SocketClose _ _ | TimerFires => true
  | _ => false
  end.

Definition view_step (st : ChatState) (a : Action) : option ChatState :=
  match a with
  | Service e now =>
      if is_service_event e then
        w' ← step JSON_parse (wsService (hook st)) e;
        Some (set_ui
                (receive_all now
                   (drop (length (delivered (wsService (hook st))))
                      (delivered w'))
                   (ui st))
                (set_hook (hook_move (hook st) w') st))
      else None
  | InputChange s =>
      if Chat.isLoading (ui st) then None else Some (set_inputText s st)
  | FileChosen files => Some (handleFileSelect files st)
  | FileLoaded k => fileReader_onload k st
  | RemoveFile => Some (handleRemoveFile st)
  | SendClick now later =>
      if Chat.isLoading (ui st) then None else Some (handleSend now later st)
  | KeyPress key shiftKey now later =>
      if Chat.isLoading (ui st) then None
      else Some (handleKeyPress key shiftKey now later st)
  | SendLoaded k later => send_onload k later st
  end.

Fixpoint view_run (st : ChatState) (acts : list Action) : option ChatState :=
  match acts with
  | [] => Some st
  | a :: rest => st' ← view_step st a; view_run st' rest
  end.

End Loop.

(** The component once mounted: the first render and its effects, the
    status callback of [useWebSocket] first, then [handleMessage]. *)
Definition mount (outcomes : list bool) : ChatState :=
  let k := useWebSocket_effect setStatus_id (useWebSocket_render outcomes) in
  {| ui := {| Chat.messages := []; Chat.isLoading := false |};
     inputText := EmptyString;
     mode := Mode_PPT;
     selectedFile := None;
     hook :=
       {| wsService :=
            snd (addMessageHandler (chat_handler handleMessage_id) (wsService k));
          status := status k |};
     reading := []; awaiting := []; alerts := [] |}.

(** The states the component can be in. *)
Definition view_reachable (JSON_parse : string -> option value)
    (st : ChatState) : Prop :=
  exists outcomes acts, view_run JSON_parse (mount outcomes) acts = Some st.

(** Scenarios. *)
Definition view_after (outcomes : list bool) (acts : list Action) : ChatState :=
  default (mount outcomes) (view_run scenario_parse (mount outcomes) acts).

Definition view_possible (outcomes : list bool) (acts : list Action) : bool :=
  match view_run scenario_parse (mount outcomes) acts with
  | Some _ => true
  | None => false
  end.

(** A text file of five bytes, as the file input hands it over, and as the
    component holds it once read. *)
Definition notes : File :=
  {| fname := "notes.txt"; ftype := "text/plain"; fsize := 5;
     content := [Byte.x68; Byte.x65; Byte.x6c; Byte.x6c; Byte.x6f] |}.

Definition notes_preview : FilePreview :=
  {| name := "notes.txt"; type := "text/plain"; size := 5;
     preview := [Byte.x68; Byte.x65; Byte.x6c; Byte.x6c; Byte.x6f] |}.

(** A program file, and a presentation of 11 MiB. *)
Definition setup_exe : File :=
  {| fname := "setup.exe"; ftype := "application/x-msdownload"; fsize := 5;
     content := [] |}.

Definition large_slides : File :=
  {| fname := "slides.ppt"; ftype := "application/vnd.ms-powerpoint";
     fsize := 11 * 1024 * 1024; content := [] |}.

(** A file [handleFileSelect] lets through. *)
Definition acceptable (ty : string) (sz : N) : Prop :=
  In ty allowedTypes /\ (sz <= maxFileSize)%N.

(** Every file the component holds is acceptable: the selected one, those
    being read and those attached to a pending send. *)
Definition files_acceptable (st : ChatState) : Prop :=
  (forall f, selectedFile st = Some f -> acceptable (type f) (size f)) /\
  (forall f, In f (reading st) -> acceptable (ftype f) (fsize f)) /\
  (forall m d f, In (m, d, f) (awaiting st) ->
     exists sz, WS.size f = number_of_N sz /\ acceptable (WS.type f) sz).

(** The service of the component has the two listeners of the component
    and no other. *)
Definition wired (st : ChatState) : Prop :=
  messageHandlers (wsService (hook st)) = [chat_handler handleMessage_id] /\
  connectionStatusCallbacks (wsService (hook st)) = [status_callback setStatus_id].

(** Between [w] and [w'] the two sets of listeners are unchanged. *)
Definition same_listeners (w w' : State) : Prop :=
  messageHandlers w' = messageHandlers w /\
  connectionStatusCallbacks w' = connectionStatusCallbacks w.

(** The calls of listeners made so far are the same in [w] and [w']. *)
Definition same_notified (w w' : State) : Prop :=
  notified w' = notified w.

(** What holds of the service of the component at all times. *)
Definition view_inv (st : ChatState) : Prop :=
  wired st /\ live_is_current (wsService (hook st)).

(** The text shown for a frame that does not decode, or whose decoded
    value the handler throws on: the raw payload, stringified. *)
Definition raw_text (f : Frame) : jsval :=
  Some (VStr (stringify (event_data f))).

(** What the component displays once the frame [f] has arrived: the
    rendering of the decoded value, or the raw payload when the frame does
    not decode or the handler throws on the decoded value. *)
Definition displayed (JSON_parse : string -> option value) (now : Z)
    (f : Frame) (x : Chat.UI) : Chat.UI :=
  match decode JSON_parse f with
  | Some v =>
      match Chat.handleMessage now v x with
      | Some x' => x'
      | None => Chat.show now (raw_text f) x
      end
  | None => Chat.show now (raw_text f) x
  end.

End View.

(** * Properties *)

(** ** The inbound-message handler *)

Module ChatFacts.
Import JS Chat.

Example stringify_array :
  stringify (VArr [VNull; VBool true; VArr []; VObj []]) = "[null,true,[],{}]".
Proof. vm_compute. reflexivity. Qed.

Example stringify_escapes :
  stringify (VStr (String (ascii_of_nat 10) "a" ++ dquote))
  = dquote ++ backslash ++ "na" ++ backslash ++ dquote ++ dquote.
Proof. vm_compute. reflexivity. Qed.

Example ToString_array :
  ToString (VArr [VNull; VStr "x"; VArr [VBool true; VNull]]) = Some ",x,true,".
Proof. vm_compute. reflexivity. Qed.

Example ToString_own_toString :
  ToString (VObj [("toString", VNull)]) = None.
Proof. vm_compute. reflexivity. Qed.

Example handleMessage_null :
  handleMessage 0 VNull {| messages := []; isLoading := true |} = None.
Proof. vm_compute. reflexivity. Qed.

Example handleMessage_upload :
  handleMessage 3
    (VObj [("status", VStr "success"); ("type", VStr "file");
           ("filename", VStr "notes.pdf")])
    {| messages := []; isLoading := true |}
  = Some {| messages :=
              [{| id := 3; text := Some (VStr "文件上传成功: notes.pdf");
                  isUser := false; file := None |}];
            isLoading := false |}.
Proof. vm_compute. reflexivity. Qed.

Lemma get_field (data : value) (k : string) :
  data <> VNull -> get data k = Some (field data k).
Proof.
  intros Hnull. unfold field, get.
  destruct data; try reflexivity. contradiction.
Qed.

Lemma applies_functional (data : value) (c c' : Case) :
  applies c data -> applies c' data -> c = c'.
Proof.
  unfold applies. destruct c, c'; simpl; intros H H'; try reflexivity;
    repeat match goal with
           | H : _ /\ _ |- _ => destruct H
           end; congruence.
Qed.

Lemma applies_total (data : value) : exists c, applies c data.
Proof.
  destruct (is_str (field data "type") "welcome") eqn:Hw.
  { exists Welcome. exact Hw. }
  destruct (is_str (field data "status") "error") eqn:He.
  { exists ErrorStatus. split; assumption. }
  destruct (is_str (field data "status") "success") eqn:Hs.
  { exists SuccessStatus. repeat split; assumption. }
  destruct (truthy (field data "message")) eqn:Hm.
  - exists PlainMessage. repeat split; assumption.
  - exists Fallback. repeat split; assumption.
Qed.

Lemma handleMessage_renders (now : Z) (data : value) (ui : UI) (c : Case) :
  data <> VNull -> applies c data ->
  handleMessage now data ui = (t ← rendering c data; Some (show now t ui)).
Proof.
  intros Hnull Hc. unfold handleMessage.
  rewrite !get_field by assumption. cbn [mbind option_bind].
  destruct c; cbn [applies] in Hc;
    repeat match goal with
           | H : _ /\ _ |- _ => destruct H
           end;
    repeat match goal with
           | H : _ = _ |- _ => rewrite H
           end; cbn [rendering mbind option_bind].
  - reflexivity.
  - destruct (template (field data "message")); reflexivity.
  - destruct (is_str (field data "type") "file"); [|reflexivity].
    destruct (template (field data "filename")); reflexivity.
  - reflexivity.
  - reflexivity.
Qed.

(** C5, counterexample.  The payload [{"message": ""}] has a message field
    and matches none of the first three cases, yet the handler does not
    display the message: it displays the whole payload, stringified. *)
Lemma handleMessage_empty_message_falls_back :
  let data := VObj [("message", VStr EmptyString)] in
  let ui := {| messages := []; isLoading := true |} in
  get data "message" = Some (Some (VStr EmptyString)) /\
  is_str (field data "type") "welcome" = false /\
  is_str (field data "status") "error" = false /\
  is_str (field data "status") "success" = false /\
  handleMessage 0 data ui = Some (show 0 (Some (VStr (stringify data))) ui) /\
  handleMessage 0 data ui <> Some (show 0 (field data "message") ui).
Proof.
  cbv zeta. repeat split; try reflexivity.
  vm_compute. discriminate.
Qed.

(** A template literal converts every value to text but an object or an
    array. *)
Lemma template_throws_on_object (x : jsval) :
  template x = None ->
  (exists items, x = Some (VArr items)) \/ (exists fields, x = Some (VObj fields)).
Proof.
  destruct x as [[| [|] | | | | |]|]; try discriminate; eauto.
Qed.

(** C5, as amended.  For every decoded payload other than [null], exactly
    one of the five cases applies, in the priority order welcome, error
    status, success status, truthy message, fallback.  The handler
    displays the text of that case (the content field; the error prefix
    followed by the message; the upload confirmation with the file name,
    or the message, under a success status; the message; the stringified
    payload) unless the case converts a field to text inside a template
    literal (the message of the error case, the file name of the upload
    confirmation) and that conversion throws, which it does only on an
    object or an array: the handler then throws and displays nothing. *)
Theorem handleMessage_wire_contract (now : Z) (data : value) (ui : UI) :
  data <> VNull ->
  exists c,
    applies c data /\
    (forall c', applies c' data -> c' = c) /\
    handleMessage now data ui = (t ← rendering c data; Some (show now t ui)) /\
    ((forall x, interpolated c data = Some x -> template x <> None) ->
     exists t,
       rendering c data = Some t /\
       handleMessage now data ui = Some (show now t ui)) /\
    (forall x,
       interpolated c data = Some x -> template x = None ->
       handleMessage now data ui = None /\
       ((exists items, x = Some (VArr items)) \/
        (exists fields, x = Some (VObj fields)))).
Proof.
  intros Hnull. destruct (applies_total data) as [c Hc].
  exists c. split; [exact Hc|]. split.
  { intros c' Hc'. exact (applies_functional data c' c Hc' Hc). }
  pose proof (handleMessage_renders now data ui c Hnull Hc) as Hrun.
  split; [exact Hrun|]. rewrite Hrun. clear Hrun Hc. split.
  - intros Hconv. destruct c; cbn [rendering interpolated] in *.
    + eexists. split; reflexivity.
    + destruct (template (field data "message")) as [t|] eqn:E.
      * eexists. split; reflexivity.
      * exfalso. exact (Hconv _ eq_refl E).
    + destruct (is_str (field data "type") "file").
      * destruct (template (field data "filename")) as [t|] eqn:E.
        -- eexists. split; reflexivity.
        -- exfalso. exact (Hconv _ eq_refl E).
      * eexists. split; reflexivity.
    + eexists. split; reflexivity.
    + eexists. split; reflexivity.
  - intros x Hx Hnone. split; [|exact (template_throws_on_object x Hnone)].
    destruct c; cbn [rendering interpolated] in *; try discriminate.
    + inversion Hx; subst x. rewrite Hnone. reflexivity.
    + destruct (is_str (field data "type") "file"); [|discriminate].
      inversion Hx; subst x. rewrite Hnone. reflexivity.
Qed.

(** The error scenario of the specification: the payload
    [{"status":"error","message":"bad input"}] is displayed with the error
    prefix.  The payload [{"status":"error","message":{"toString":null}}]
    is an error too, but its message cannot be converted to text: the
    handler throws. *)
Lemma handleMessage_wire_contract_witness :
  let data := VObj [("status", VStr "error"); ("message", VStr "bad input")] in
  let bad :=
    VObj [("status", VStr "error"); ("message", VObj [("toString", VNull)])] in
  let ui := {| messages := []; isLoading := true |} in
  applies ErrorStatus data /\
  handleMessage 7 data ui =
    Some (show 7 (Some (VStr "错误: bad input")) ui) /\
  applies ErrorStatus bad /\
  handleMessage 7 bad ui = None.
Proof.
  cbv zeta.
  destruct (handleMessage_wire_contract 7
              (VObj [("status", VStr "error"); ("message", VStr "bad input")])
              {| messages := []; isLoading := true |})
    as (c & Hc & Huniq & Hrun & _); [discriminate|].
  assert (Herr : applies ErrorStatus
            (VObj [("status", VStr "error"); ("message", VStr "bad input")]))
    by (split; reflexivity).
  split; [exact Herr|].
  split; [rewrite Hrun, <- (Huniq ErrorStatus Herr); reflexivity|].
  destruct (handleMessage_wire_contract 7
              (VObj [("status", VStr "error");
                     ("message", VObj [("toString", VNull)])])
              {| messages := []; isLoading := true |})
    as (c' & Hc' & Huniq' & _ & _ & Hthrows); [discriminate|].
  assert (Herr' : applies ErrorStatus
            (VObj [("status", VStr "error");
                   ("message", VObj [("toString", VNull)])]))
    by (split; reflexivity).
  split; [exact Herr'|].
  rewrite <- (Huniq' ErrorStatus Herr') in Hthrows.
  exact (proj1 (Hthrows _ eq_refl eq_refl)).
Defined.

End ChatFacts.

(** ** The connection and messaging client *)

Module WSFacts.
Import JS WS.
Local Open Scope list_scope.

Example readAsDataURL_hello :
  readAsDataURL [Byte.x68; Byte.x65; Byte.x6c; Byte.x6c; Byte.x6f]
  = "data:application/octet-stream;base64,aGVsbG8=".
Proof. vm_compute. reflexivity. Qed.

Example constructor_state :
  constructor [] =
    {| ws := Some 0; reconnectAttempts := 0; messageQueue := [];
       isConnecting := true; messageHandlers := [];
       connectionStatusCallbacks := [];
       sockets := [{| readyState := CONNECTING; sent := [] |}];
       timers := 0; tape := []; ctorCalls := 1;
       delivered := []; notified := [] |}.
Proof. vm_compute. reflexivity. Qed.

(** *** What a [forEach] over listeners does *)

Lemma forEach_callback_effect (status : Status) (cbs : list Callback) (w : State) :
  forEach_callback status cbs w =
    (if existsb (fun cb => cthrows cb status) cbs then Exn else Ret tt,
     set_notified
       (notified w ++ map (fun cb => (cid cb, status)) (reached cthrows status cbs))
       w).
Proof.
  revert w. induction cbs as [|cb rest IH]; intros w.
  - simpl. unfold ret. rewrite app_nil_r. destruct w; reflexivity.
  - cbn [forEach_callback]. unfold bind, call_callback.
    destruct (cthrows cb status) eqn:Hcb; cbn [existsb reached map]; rewrite Hcb.
    + reflexivity.
    + rewrite IH. cbn [orb notified set_notified map].
      rewrite <- app_assoc. reflexivity.
Qed.

Lemma forEach_handler_effect (payload : value) (hs : list Handler) (w : State) :
  forEach_handler payload hs w =
    (if existsb (fun h => hthrows h payload) hs then Exn else Ret tt,
     set_delivered
       (delivered w ++ map (fun h => (hid h, payload)) (reached hthrows payload hs))
       w).
Proof.
  revert w. induction hs as [|h rest IH]; intros w.
  - simpl. unfold ret. rewrite app_nil_r. destruct w; reflexivity.
  - cbn [forEach_handler]. unfold bind, call_handler.
    destruct (hthrows h payload) eqn:Hh; cbn [existsb reached map]; rewrite Hh.
    + reflexivity.
    + rewrite IH. cbn [orb delivered set_delivered map].
      rewrite <- app_assoc. reflexivity.
Qed.

Lemma reached_all {L X : Type} (throws : L -> X -> bool) (x : X) (ls : list L) :
  existsb (fun l => throws l x) ls = false -> reached throws x ls = ls.
Proof.
  induction ls as [|l rest IH]; simpl; [reflexivity|].
  intros H. apply orb_false_iff in H as [Hl Hrest].
  rewrite Hl, IH by assumption. reflexivity.
Qed.

Lemma reached_sublist {L X : Type} (throws : L -> X -> bool) (x : X) (ls : list L) :
  forall l, l ∈ reached throws x ls -> l ∈ ls.
Proof.
  induction ls as [|l0 rest IH]; simpl; intros l Hl; [exact Hl|].
  apply elem_of_cons in Hl as [->|Hl]; [left|].
  destruct (throws l0 x); [inversion Hl|]. right. apply IH, Hl.
Qed.

(** *** Relations every method keeps *)

Section Frame.

Variable R : State -> State -> Prop.
Hypothesis R_refl : forall w, R w w.
Hypothesis R_trans : forall a b c, R a b -> R b c -> R a c.

Lemma preserves_ret {A} (a : A) : preserves R (ret a).
Proof. intros w. apply R_refl. Qed.

Lemma preserves_bind {A B} (m : M A) (f : A -> M B) :
  preserves R m -> (forall a, preserves R (f a)) -> preserves R (bind m f).
Proof.
  intros Hm Hf w. unfold bind. specialize (Hm w).
  destruct (m w) as [[a|] w1]; simpl in *; [|exact Hm].
  eapply R_trans; [exact Hm|apply Hf].
Qed.

Lemma preserves_try_catch (m h : M unit) :
  preserves R m -> preserves R h -> preserves R (try_catch m h).
Proof.
  intros Hm Hh w. unfold try_catch. specialize (Hm w).
  destruct (m w) as [[a|] w1]; simpl in *; [exact Hm|].
  eapply R_trans; [exact Hm|apply Hh].
Qed.

Lemma preserves_modify (f : State -> State) :
  (forall w, R w (f w)) -> preserves R (modify f).
Proof. intros Hf w. apply Hf. Qed.

Hypothesis R_isConnecting : forall b w, R w (set_isConnecting b w).
Hypothesis R_queue : forall q w, R w (set_messageQueue q w).
Hypothesis R_connect_try : preserves R connect_try.
Hypothesis R_notify : forall status, preserves R (notifyConnectionStatus status).
Hypothesis R_deliver : forall payload, preserves R (deliver payload).
Hypothesis R_handleReconnect : preserves R handleReconnect.
Hypothesis R_transmit : forall data, preserves R (transmit data).

Lemma preserves_connect_catch : preserves R connect_catch.
Proof.
  unfold connect_catch.
  apply preserves_bind; [apply preserves_modify, R_isConnecting|intros _].
  apply preserves_bind; [apply R_notify|intros _]. apply R_handleReconnect.
Qed.

Lemma preserves_connect : preserves R connect.
Proof.
  intros w. unfold connect. destruct (isConnecting w); [apply R_refl|].
  apply preserves_bind; [apply preserves_modify, R_isConnecting|intros _].
  apply preserves_try_catch; [apply R_connect_try|apply preserves_connect_catch].
Qed.

Lemma preserves_send (data : string) : preserves R (send data).
Proof.
  intros w. unfold send. destruct (is_open w); [apply R_transmit|].
  apply preserves_bind; [apply preserves_modify; intros w0; apply R_queue|intros _].
  intros w0. destruct (isConnecting w0); [apply R_refl|apply preserves_connect].
Qed.

Lemma preserves_processMessageQueue_loop (turns : nat) :
  preserves R (processMessageQueue_loop turns).
Proof.
  induction turns as [|n IH]; intros w; simpl; [apply R_refl|].
  destruct (messageQueue w) as [|message rest]; [apply R_refl|].
  destruct (is_open w); [|apply R_refl].
  apply preserves_bind; [apply preserves_modify; intros w0; apply R_queue|intros _].
  apply preserves_bind; [apply preserves_send|intros _]. exact IH.
Qed.

Lemma preserves_processMessageQueue : preserves R processMessageQueue.
Proof. intros w. apply preserves_processMessageQueue_loop. Qed.

Lemma preserves_onclose : preserves R onclose.
Proof. exact preserves_connect_catch. Qed.

Lemma preserves_onerror : preserves R onerror.
Proof.
  unfold onerror.
  apply preserves_bind; [apply preserves_modify, R_isConnecting|intros _].
  apply R_notify.
Qed.

(** [onopen] after its first assignment, which resets the counter. *)
Lemma preserves_onopen_rest :
  preserves R (modify (set_isConnecting false) ;;
               processMessageQueue ;;
               notifyConnectionStatus connected).
Proof.
  apply preserves_bind; [apply preserves_modify, R_isConnecting|intros _].
  apply preserves_bind; [apply preserves_processMessageQueue|intros _].
  apply R_notify.
Qed.

Lemma preserves_onmessage (JSON_parse : string -> option value) (f : Frame) :
  preserves R (onmessage JSON_parse f).
Proof.
  unfold onmessage. apply preserves_try_catch; [|apply R_deliver].
  apply preserves_bind; [|intros payload; apply R_deliver].
  intros w. unfold parse_event.
  destruct (decode JSON_parse f); apply R_refl.
Qed.

Lemma preserves_send_and_settle (message : value) :
  preserves R (send_and_settle message).
Proof.
  intros w. unfold send_and_settle.
  pose proof (preserves_send (stringify message) w) as H.
  destruct (send (stringify message) w) as [[a|] w1]; exact H.
Qed.

Lemma preserves_sendMessage (mode : Mode) (d : MessageInput) :
  preserves R (sendMessage mode d).
Proof.
  unfold sendMessage. destruct (file d); [apply preserves_ret|].
  apply preserves_send_and_settle.
Qed.

Lemma preserves_reader_onload (mode : Mode) (d : MessageInput) (f : FileData) :
  preserves R (reader_onload mode d f).
Proof. apply preserves_send_and_settle. Qed.

End Frame.

(** *** The drain of the outbound queue *)

Lemma is_open_true (w : State) :
  is_open w = true <->
  exists i s, ws w = Some i /\ sockets w !! i = Some s /\ readyState s = OPEN.
Proof.
  unfold is_open. split.
  - destruct (ws w) as [i|]; [|discriminate].
    destruct (sockets w !! i) as [s|] eqn:Hs; [|discriminate].
    destruct (readyState s) eqn:Hr; try discriminate.
    intros _. exists i, s. auto.
  - intros (i & s & -> & -> & ->). reflexivity.
Qed.

Lemma list_insert_after_alter {A : Type} (f : A -> A) (l : list A) (i : nat) (x : A) :
  <[i := x]> (alter f i l) = <[i := x]> l.
Proof.
  revert i. induction l as [|a l IH]; intros [|i]; simpl; try reflexivity.
  f_equal. apply IH.
Qed.

Lemma processMessageQueue_loop_closed (turns : nat) (w : State) :
  is_open w = false -> processMessageQueue_loop turns w = (Ret tt, w).
Proof.
  intros Hclosed. destruct turns; simpl; [reflexivity|].
  destruct (messageQueue w); [reflexivity|]. rewrite Hclosed. reflexivity.
Qed.

Lemma processMessageQueue_loop_open (turns : nat) :
  forall (w : State) (i : nat) (s : Socket),
    ws w = Some i -> sockets w !! i = Some s -> readyState s = OPEN ->
    length (messageQueue w) <= turns ->
    processMessageQueue_loop turns w = (Ret tt, drained i s w).
Proof.
  assert (Hnil : forall (w : State) (i : nat) (s : Socket),
             sockets w !! i = Some s -> readyState s = OPEN ->
             messageQueue w = [] -> w = drained i s w).
  { intros w i s Hs Hr Hq. unfold drained. rewrite Hq, app_nil_r.
    replace {| readyState := OPEN; sent := sent s |} with s
      by (destruct s; simpl in *; congruence).
    rewrite list_insert_id by exact Hs.
    destruct w; simpl in *; subst; reflexivity. }
  induction turns as [|n IH]; intros w i s Hws Hs Hr Hlen.
  - simpl. f_equal. apply Hnil; [assumption..|].
    destruct (messageQueue w); [reflexivity|simpl in Hlen; lia].
  - simpl. destruct (messageQueue w) as [|message rest] eqn:Hq.
    { f_equal. apply Hnil; assumption. }
    assert (Hopen : is_open w = true) by (apply is_open_true; eauto).
    rewrite Hopen. unfold bind at 1. unfold modify at 1. unfold bind at 1.
    assert (Hsend : send message (set_messageQueue rest w) =
              (Ret tt, set_sockets (alter (socket_send message) i (sockets w))
                         (set_messageQueue rest w))).
    { unfold send.
      change (is_open (set_messageQueue rest w)) with (is_open w).
      rewrite Hopen. unfold transmit. cbn [ws set_messageQueue].
      rewrite Hws. reflexivity. }
    rewrite Hsend.
    rewrite (IH _ i (socket_send message s)).
    + f_equal. unfold drained. cbn [messageQueue sockets set_sockets set_messageQueue].
      rewrite Hq. cbn [socket_send sent].
      rewrite <- app_assoc. cbn [app].
      rewrite list_insert_after_alter. reflexivity.
    + exact Hws.
    + cbn [sockets set_sockets]. rewrite list_lookup_alter_eq, Hs. reflexivity.
    + exact Hr.
    + cbn [messageQueue set_sockets set_messageQueue]. simpl in Hlen. lia.
Qed.

(** The loop does not stop early: it returns with the queue empty or with
    the connection not open, which is the exit test of the [while]. *)
Lemma processMessageQueue_effect (w : State) :
  (is_open w = false /\ processMessageQueue w = (Ret tt, w)) \/
  (exists i s, ws w = Some i /\ sockets w !! i = Some s /\ readyState s = OPEN /\
     processMessageQueue w = (Ret tt, drained i s w)).
Proof.
  destruct (is_open w) eqn:Hopen.
  - right. apply is_open_true in Hopen as (i & s & Hws & Hs & Hr).
    exists i, s. repeat split; try assumption.
    unfold processMessageQueue.
    apply processMessageQueue_loop_open; [assumption..|lia].
  - left. split; [reflexivity|].
    apply processMessageQueue_loop_closed, Hopen.
Qed.

(** *** The failed-attempt counter and the reconnect timers *)

Lemma paid_refl (w : State) : paid w w.
Proof. unfold paid. lia. Qed.

Lemma paid_trans (a b c : State) : paid a b -> paid b c -> paid a c.
Proof. unfold paid. intros (? & ? & ?) (? & ? & ?). repeat split; lia. Qed.

Lemma paid_same (w w' : State) :
  reconnectAttempts w' = reconnectAttempts w -> timers w' = timers w ->
  paid w w'.
Proof. unfold paid. intros -> ->. lia. Qed.

Lemma paid_connect_try : preserves paid connect_try.
Proof.
  intros w. unfold connect_try, close_existing, new_WebSocket, bind, modify.
  destruct (ws w); cbn [tape set_ws set_sockets];
    destruct (tape w) as [|[|] ?]; apply paid_same; reflexivity.
Qed.

Lemma paid_notify (status : Status) :
  preserves paid (notifyConnectionStatus status).
Proof.
  intros w. unfold notifyConnectionStatus. rewrite forEach_callback_effect.
  apply paid_same; reflexivity.
Qed.

Lemma paid_deliver (payload : value) : preserves paid (deliver payload).
Proof.
  intros w. unfold deliver. rewrite forEach_handler_effect.
  apply paid_same; reflexivity.
Qed.

Lemma paid_handleReconnect : preserves paid handleReconnect.
Proof.
  intros w. unfold handleReconnect.
  destruct (reconnectAttempts w <? maxReconnectAttempts)%nat eqn:Hlt.
  - apply Nat.ltb_lt in Hlt. unfold paid; simpl. lia.
  - apply paid_refl.
Qed.

Lemma paid_transmit (data : string) : preserves paid (transmit data).
Proof.
  intros w. unfold transmit. destruct (ws w); apply paid_same; reflexivity.
Qed.

Ltac paid_facts :=
  first [ exact paid_refl | exact paid_trans | exact paid_connect_try
        | exact paid_notify | exact paid_deliver | exact paid_handleReconnect
        | exact paid_transmit
        | intros; apply paid_same; reflexivity ].

Lemma paid_connect : preserves paid connect.
Proof. apply preserves_connect; paid_facts. Qed.

Lemma paid_onclose : preserves paid onclose.
Proof. apply preserves_onclose; paid_facts. Qed.

Lemma paid_onerror : preserves paid onerror.
Proof. apply preserves_onerror; paid_facts. Qed.

Lemma paid_sendMessage (mode : Mode) (d : MessageInput) :
  preserves paid (sendMessage mode d).
Proof. apply preserves_sendMessage; paid_facts. Qed.

Lemma paid_reader_onload (mode : Mode) (d : MessageInput) (f : FileData) :
  preserves paid (reader_onload mode d f).
Proof. apply preserves_reader_onload; paid_facts. Qed.

Lemma paid_send (data : string) : preserves paid (send data).
Proof. apply preserves_send; paid_facts. Qed.

(** The drain changes neither the counter nor the timers: inside the loop
    [send] always finds the socket open. *)
Lemma processMessageQueue_counters (w : State) :
  reconnectAttempts (snd (processMessageQueue w)) = reconnectAttempts w /\
  timers (snd (processMessageQueue w)) = timers w.
Proof.
  destruct (processMessageQueue_effect w)
    as [[_ ->]|(i & s & _ & _ & _ & ->)]; split; reflexivity.
Qed.

Lemma same_counters_onopen_rest :
  preserves same_counters
    (modify (set_isConnecting false) ;;
     processMessageQueue ;;
     notifyConnectionStatus connected).
Proof.
  assert (Htrans : forall a b c,
             same_counters a b -> same_counters b c -> same_counters a c)
    by (unfold same_counters; intros a b c [? ?] [? ?]; split; congruence).
  apply preserves_bind; [exact Htrans| |intros _].
  { apply preserves_modify. intros w. split; reflexivity. }
  apply preserves_bind; [exact Htrans| |intros _].
  { intros w. apply processMessageQueue_counters. }
  intros w. unfold notifyConnectionStatus. rewrite forEach_callback_effect.
  split; reflexivity.
Qed.

Lemma onopen_counters (w : State) :
  reconnectAttempts (snd (onopen w)) = 0 /\ timers (snd (onopen w)) = timers w.
Proof.
  destruct (same_counters_onopen_rest (set_reconnectAttempts 0 w)) as [Ha Ht].
  split; [exact Ha|exact Ht].
Qed.

Section Counting.

Variable JSON_parse : string -> option value.

Lemma step_paid (w w' : State) (e : Event) :
  step JSON_parse w e = Some w' -> is_open_event e = false ->
  paid (match e with
        | TimerFires => set_timers (pred (timers w)) w
        | _ => w
        end) w'.
Proof.
  intros Hstep Hopen. destruct e; simpl in Hstep, Hopen; try discriminate.
  - destruct (sockets w !! i) as [s|]; [|discriminate]. simpl in Hstep.
    destruct (readyState s); inversion Hstep; subst;
      apply preserves_onmessage; paid_facts.
  - destruct (sockets w !! i) as [s|]; [|discriminate]. simpl in Hstep.
    assert (Hgo : paid w (snd (onclose
               (if failed then snd (onerror (update_socket i CLOSED w))
                else update_socket i CLOSED w)))).
    { eapply paid_trans; [|apply paid_onclose].
      destruct failed.
      - eapply paid_trans; [|apply paid_onerror]. apply paid_same; reflexivity.
      - apply paid_same; reflexivity. }
    destruct (readyState s); inversion Hstep; subst; exact Hgo.
  - destruct (timers w) as [|n] eqn:Ht; inversion Hstep; subst.
    apply paid_connect.
  - inversion Hstep; subst. apply paid_sendMessage.
  - destruct (file d) as [f|]; inversion Hstep; subst.
    apply paid_reader_onload.
  - inversion Hstep; subst. unfold addMessageHandler, modify; simpl.
    destruct (has_handler h (messageHandlers w)); apply paid_same; reflexivity.
  - inversion Hstep; subst. apply paid_same; reflexivity.
  - inversion Hstep; subst. unfold addConnectionStatusCallback, modify; simpl.
    destruct (has_callback cb (connectionStatusCallbacks w));
      apply paid_same; reflexivity.
  - inversion Hstep; subst. apply paid_same; reflexivity.
  - inversion Hstep; subst. unfold close.
    destruct (ws w); apply paid_same; reflexivity.
Qed.

Lemma step_open_resets (w w' : State) (i : nat) :
  step JSON_parse w (SocketOpen i) = Some w' ->
  reconnectAttempts w' = 0 /\ timers w' = timers w.
Proof.
  simpl. destruct (sockets w !! i) as [s|]; [|discriminate]. simpl.
  destruct (readyState s); intros H; inversion H; subst.
  apply (onopen_counters (update_socket i OPEN w)).
Qed.

Lemma run_without_open (evs : list Event) :
  forall w w',
    run JSON_parse w evs = Some w' -> no_open evs = true ->
    (reconnectAttempts w <= maxReconnectAttempts)%nat ->
    (reconnectAttempts w' <= maxReconnectAttempts)%nat /\
    (timers w' + timer_attempts evs + reconnectAttempts w
       = timers w + reconnectAttempts w')%nat.
Proof.
  induction evs as [|e rest IH]; intros w w' Hrun Hno Hmax.
  - inversion Hrun; subst. unfold timer_attempts; simpl. lia.
  - simpl in Hrun. destruct (step JSON_parse w e) as [w1|] eqn:Hstep;
      [|discriminate]. simpl in Hrun.
    unfold no_open in Hno. simpl in Hno. apply andb_true_iff in Hno as [He Hrest].
    apply negb_true_iff in He.
    pose proof (step_paid w w1 e Hstep He) as Hpaid.
    assert (H1 : (reconnectAttempts w1 <= maxReconnectAttempts)%nat /\
                 (timers w1 + (if is_timer_event e then 1 else 0)
                    + reconnectAttempts w
                  = timers w + reconnectAttempts w1)%nat).
    { destruct e; try (destruct Hpaid as (? & ? & ?); simpl; lia).
      simpl in Hstep. destruct (timers w) as [|n] eqn:Ht; [discriminate|].
      destruct Hpaid as (Ha & Hb & Hc). simpl in *. lia. }
    destruct H1 as [Hmax1 Heq1].
    destruct (IH w1 w' Hrun Hrest Hmax1) as [Hmax' Heq'].
    split; [exact Hmax'|].
    unfold timer_attempts in *. simpl.
    destruct (is_timer_event e); simpl; lia.
Qed.

Lemma constructor_counters (outcomes : list bool) :
  timers (constructor outcomes) = reconnectAttempts (constructor outcomes) /\
  (reconnectAttempts (constructor outcomes) <= maxReconnectAttempts)%nat.
Proof.
  unfold constructor.
  match goal with |- context [connect ?w0] =>
    destruct (paid_connect w0) as (Ha & Hb & Hc) end.
  simpl in *. unfold maxReconnectAttempts in *. lia.
Qed.

(** C1, as amended.  Once the failed-attempt counter is at its maximum of
    5, an event other than the opening of a socket leaves it there and sets
    no reconnect timer.  Pending timers are never cancelled: over a stretch
    of an execution in which no socket opens, the reconnect timers that
    fire are at most those pending at its start and one for each failed
    attempt the counter is short of 5 at its start.  So in an execution of
    the service in which no socket opens at all, reconnect timers fire at
    most 5 times: there is no sixth timer-driven connection attempt. *)
Theorem reconnect_attempts_cease :
  (forall w e w',
     reconnectAttempts w = 5 ->
     step JSON_parse w e = Some w' -> is_open_event e = false ->
     reconnectAttempts w' = 5 /\ (timers w' <= timers w)%nat) /\
  (forall w evs w',
     (reconnectAttempts w <= 5)%nat ->
     run JSON_parse w evs = Some w' -> no_open evs = true ->
     (timer_attempts evs + reconnectAttempts w <= timers w + 5)%nat) /\
  (forall outcomes evs w,
     run JSON_parse (constructor outcomes) evs = Some w ->
     no_open evs = true ->
     (timer_attempts evs <= 5)%nat).
Proof.
  split; [|split].
  - intros w e w' Hmax Hstep Hopen.
    pose proof (step_paid w w' e Hstep Hopen) as (Ha & Hb & Hc).
    unfold maxReconnectAttempts in Hc.
    destruct e; simpl in Ha, Hb, Hc; lia.
  - intros w evs w' Hmax Hrun Hno.
    destruct (run_without_open evs w w' Hrun Hno Hmax) as [Hmax' Hsum].
    unfold maxReconnectAttempts in *. lia.
  - intros outcomes evs w Hrun Hno.
    destruct (constructor_counters outcomes) as [Heq Hmax].
    destruct (run_without_open evs _ _ Hrun Hno Hmax) as [Hmax' Hsum].
    unfold maxReconnectAttempts in *. lia.
Qed.

(** C4.  At every event, the failed-attempt counter is zero after the
    event if the event is the opening of a socket, and is not smaller after
    the event than before it otherwise. *)
Theorem counter_resets_exactly_on_open (w w' : State) (e : Event) :
  step JSON_parse w e = Some w' ->
  (is_open_event e = true -> reconnectAttempts w' = 0) /\
  (is_open_event e = false ->
   (reconnectAttempts w <= reconnectAttempts w')%nat).
Proof.
  intros Hstep. split; intros Hopen.
  - destruct e; try discriminate.
    apply (step_open_resets w w' i Hstep).
  - pose proof (step_paid w w' e Hstep Hopen) as (Ha & _).
    destruct e; exact Ha.
Qed.

End Counting.

(** After the six failed handshakes of [failing_run] five timers have
    fired, the counter is at 5 and no timer is left to fire. *)
Lemma reconnect_attempts_cease_witness :
  (timer_attempts failing_run <= 5)%nat /\
  possible [] failing_run = true /\
  reconnectAttempts (after [] failing_run) = 5 /\
  step scenario_parse (after [] failing_run) TimerFires = None.
Proof.
  split; [|repeat split; vm_compute; reflexivity].
  apply (proj2 (proj2 (reconnect_attempts_cease scenario_parse)) []
           failing_run (after [] failing_run));
    vm_compute; reflexivity.
Defined.

(** C1, counterexample.  The first handshake fails and sets a timer; a
    message starts a second socket, which opens and resets the counter
    while the timer is still pending.  From there no socket opens: the
    pending timer fires, then five handshakes fail in a row, each followed
    by the timer it set.  After exactly five failures the counter is at 5,
    and the sixth timer fires all the same and creates a sixth socket. *)
Lemma sixth_timer_attempt_after_open :
  let w := after [] reopened_run in
  let w5 := after [] (reopened_run ++ take 10 six_timers_run) in
  let w' := after [] (reopened_run ++ six_timers_run) in
  possible [] (reopened_run ++ six_timers_run) = true /\
  reconnectAttempts w = 0 /\ timers w = 1 /\
  no_open six_timers_run = true /\
  failures six_timers_run = 5 /\
  timer_attempts (take 10 six_timers_run) = 5 /\
  reconnectAttempts w5 = 5 /\
  step scenario_parse w5 TimerFires = Some w' /\
  timer_attempts six_timers_run = 6 /\
  ctorCalls w' = ctorCalls w + 6.
Proof.
  cbv zeta.
  split; [vm_compute; reflexivity|]. split; [vm_compute; reflexivity|].
  split; [vm_compute; reflexivity|]. split; [vm_compute; reflexivity|].
  split; [vm_compute; reflexivity|]. split; [vm_compute; reflexivity|].
  split; [vm_compute; reflexivity|]. split; [vm_compute; reflexivity|].
  split; vm_compute; reflexivity.
Qed.

(** A first handshake fails, the timer starts a second one, which
    succeeds: the counter goes from 0 to 1 and back to 0. *)
Lemma counter_resets_exactly_on_open_witness :
  let w0 := constructor [] in
  let w1 := after [] [SocketClose 0 true] in
  let w2 := after [] [SocketClose 0 true; TimerFires] in
  let w3 := after [] [SocketClose 0 true; TimerFires; SocketOpen 1] in
  (reconnectAttempts w0 <= reconnectAttempts w1)%nat /\
  reconnectAttempts w2 = 1 /\
  reconnectAttempts w3 = 0.
Proof.
  cbv zeta. split; [|split; [vm_compute; reflexivity|]].
  - refine (proj2 (counter_resets_exactly_on_open scenario_parse
                     (constructor []) (after [] [SocketClose 0 true])
                     (SocketClose 0 true) _) _);
      vm_compute; reflexivity.
  - refine (proj1 (counter_resets_exactly_on_open scenario_parse
                     (after [] [SocketClose 0 true; TimerFires])
                     (after [] [SocketClose 0 true; TimerFires; SocketOpen 1])
                     (SocketOpen 1) _) _);
      vm_compute; reflexivity.
Defined.

(** *** Every live socket is the current one *)

Lemma keeps_refl (P : State -> Prop) (w : State) : keeps P w w.
Proof. intros H. exact H. Qed.

Lemma keeps_trans (P : State -> Prop) (a b c : State) :
  keeps P a b -> keeps P b c -> keeps P a c.
Proof. unfold keeps. auto. Qed.

Lemma live_is_current_same (w w' : State) :
  sockets w' = sockets w -> ws w' = ws w ->
  keeps live_is_current w w'.
Proof. unfold keeps, live_is_current. intros -> ->. auto. Qed.

Lemma live_is_current_alter (f : Socket -> Socket) (i : nat) (w : State) :
  (forall s, live (f s) = true -> live s = true) ->
  keeps live_is_current w (set_sockets (alter f i (sockets w)) w).
Proof.
  intros Hf Hw j s' Hj Hlive. cbn [sockets ws set_sockets] in *.
  destruct (decide (i = j)) as [->|Hne].
  - rewrite list_lookup_alter_eq in Hj.
    destruct (sockets w !! j) as [s|] eqn:Hs; [|discriminate].
    inversion Hj; subst. apply (Hw j s Hs), Hf, Hlive.
  - rewrite list_lookup_alter_ne in Hj by exact Hne. apply (Hw j s' Hj Hlive).
Qed.

Lemma socket_close_not_live (s : Socket) : live (socket_close s) = false.
Proof. unfold socket_close, live. destruct (readyState s) eqn:Hr; simpl; try rewrite Hr; reflexivity. Qed.

(** Closing the current socket leaves no live socket. *)
Lemma close_none_live (w : State) :
  live_is_current w ->
  none_live (snd (close w)) /\ ws (snd (close w)) = None.
Proof.
  intros Hw. unfold close. destruct (ws w) as [i|] eqn:Hws;
    cbn [snd sockets ws set_ws set_sockets].
  - split; [|reflexivity]. intros j s' Hj.
    cbn [snd sockets ws set_ws set_sockets] in Hj.
    destruct (decide (i = j)) as [->|Hne].
    + rewrite list_lookup_alter_eq in Hj.
      destruct (sockets w !! j) as [s|]; [|discriminate].
      inversion Hj; subst. apply socket_close_not_live.
    + rewrite list_lookup_alter_ne in Hj by exact Hne.
      destruct (live s') eqn:Hlive; [|reflexivity].
      specialize (Hw j s' Hj Hlive). congruence.
  - split; [|exact Hws]. intros j s' Hj.
    destruct (live s') eqn:Hlive; [|reflexivity].
    specialize (Hw j s' Hj Hlive). congruence.
Qed.

Lemma close_existing_is_close (w : State) : close_existing w = close w.
Proof. reflexivity. Qed.

Lemma live_is_current_connect_try :
  preserves (keeps live_is_current) connect_try.
Proof.
  intros w Hw. unfold connect_try, bind at 1.
  rewrite close_existing_is_close.
  destruct (close_none_live w Hw) as [Hnone Hws].
  destruct (close w) as [[[]|] w1] eqn:Hclose;
    [|unfold close in Hclose; destruct (ws w); discriminate].
  cbn [snd] in *. unfold bind, new_WebSocket, modify.
  destruct (tape w1) as [|[|] rest]; cbn [snd];
    intros j s Hj Hlive; cbn [sockets ws set_ws set_sockets set_ctor] in *;
    try (rewrite (Hnone j s Hj) in Hlive; discriminate).
  - apply lookup_snoc_Some in Hj as [[_ Hj]|[-> _]]; [|reflexivity].
    rewrite (Hnone j s Hj) in Hlive. discriminate.
  - apply lookup_snoc_Some in Hj as [[_ Hj]|[-> _]]; [|reflexivity].
    rewrite (Hnone j s Hj) in Hlive. discriminate.
Qed.

Lemma live_is_current_notify (status : Status) :
  preserves (keeps live_is_current) (notifyConnectionStatus status).
Proof.
  intros w. unfold notifyConnectionStatus. rewrite forEach_callback_effect.
  apply live_is_current_same; reflexivity.
Qed.

Lemma live_is_current_deliver (payload : value) :
  preserves (keeps live_is_current) (deliver payload).
Proof.
  intros w. unfold deliver. rewrite forEach_handler_effect.
  apply live_is_current_same; reflexivity.
Qed.

Lemma live_is_current_handleReconnect :
  preserves (keeps live_is_current) handleReconnect.
Proof.
  intros w. unfold handleReconnect.
  destruct (_ <? _)%nat; apply live_is_current_same; reflexivity.
Qed.

Lemma live_is_current_transmit (data : string) :
  preserves (keeps live_is_current) (transmit data).
Proof.
  intros w. unfold transmit. destruct (ws w); [|apply keeps_refl].
  apply live_is_current_alter. intros s H. exact H.
Qed.

Ltac live_facts :=
  first [ exact (keeps_refl live_is_current)
        | exact (keeps_trans live_is_current)
        | exact live_is_current_connect_try
        | exact live_is_current_notify | exact live_is_current_deliver
        | exact live_is_current_handleReconnect
        | exact live_is_current_transmit
        | intros; apply live_is_current_same; reflexivity ].

Section CurrentSocket.

Variable JSON_parse : string -> option value.

Lemma step_live_is_current (w w' : State) (e : Event) :
  step JSON_parse w e = Some w' -> live_is_current w -> live_is_current w'.
Proof.
  intros Hstep Hw. destruct e; simpl in Hstep.
  - destruct (sockets w !! i) as [s|] eqn:Hs; [|discriminate]. simpl in Hstep.
    destruct (readyState s) eqn:Hr; inversion Hstep; subst.
    assert (Hcur : ws w = Some i) by (apply (Hw i s Hs); unfold live; rewrite Hr; reflexivity).
    assert (H1 : live_is_current (update_socket i OPEN w)).
    { intros j s' Hj Hlive. cbn [update_socket sockets ws set_sockets] in *.
      destruct (decide (i = j)) as [->|Hne]; [exact Hcur|].
      rewrite list_lookup_alter_ne in Hj by exact Hne. apply (Hw j s' Hj Hlive). }
    revert H1.
    apply (preserves_bind (keeps live_is_current)); [live_facts| |intros _].
    { apply preserves_modify. live_facts. }
    apply (preserves_onopen_rest (keeps live_is_current)); live_facts.
  - destruct (sockets w !! i) as [s|]; [|discriminate]. simpl in Hstep.
    destruct (readyState s); inversion Hstep; subst; revert Hw;
      apply (preserves_onmessage (keeps live_is_current)); live_facts.
  - destruct (sockets w !! i) as [s|]; [|discriminate]. simpl in Hstep.
    assert (Hgo : live_is_current (snd (onclose
               (if failed then snd (onerror (update_socket i CLOSED w))
                else update_socket i CLOSED w)))).
    { assert (H1 : live_is_current (update_socket i CLOSED w))
        by (revert Hw; apply live_is_current_alter; intros s0 H0; discriminate).
      revert H1.
      apply (keeps_trans live_is_current _
               (if failed then snd (onerror (update_socket i CLOSED w))
                else update_socket i CLOSED w)).
      - destruct failed; [|apply keeps_refl].
        apply (preserves_onerror (keeps live_is_current)); live_facts.
      - apply (preserves_onclose (keeps live_is_current)); live_facts. }
    destruct (readyState s); inversion Hstep; subst; exact Hgo.
  - destruct (timers w) as [|n]; inversion Hstep; subst.
    assert (H1 : live_is_current (set_timers n w)) by exact Hw.
    revert H1. apply (preserves_connect (keeps live_is_current)); live_facts.
  - inversion Hstep; subst. revert Hw.
    apply (preserves_sendMessage (keeps live_is_current)); live_facts.
  - destruct (file d) as [f|]; inversion Hstep; subst. revert Hw.
    apply (preserves_reader_onload (keeps live_is_current)); live_facts.
  - inversion Hstep; subst. unfold addMessageHandler, modify; simpl.
    destruct (has_handler h (messageHandlers w)); exact Hw.
  - inversion Hstep; subst. exact Hw.
  - inversion Hstep; subst. unfold addConnectionStatusCallback, modify; simpl.
    destruct (has_callback cb (connectionStatusCallbacks w)); exact Hw.
  - inversion Hstep; subst. exact Hw.
  - inversion Hstep; subst. destruct (close_none_live w Hw) as [Hnone _].
    intros j s Hj Hlive. rewrite (Hnone j s Hj) in Hlive. discriminate.
Qed.

Lemma run_live_is_current (evs : list Event) :
  forall w w', run JSON_parse w evs = Some w' ->
    live_is_current w -> live_is_current w'.
Proof.
  induction evs as [|e rest IH]; intros w w' Hrun Hw; simpl in Hrun.
  - inversion Hrun; subst. exact Hw.
  - destruct (step JSON_parse w e) as [w1|] eqn:Hstep; [|discriminate].
    apply (IH w1 w' Hrun), (step_live_is_current w w1 e Hstep Hw).
Qed.

Lemma constructor_live_is_current (outcomes : list bool) :
  live_is_current (constructor outcomes).
Proof.
  unfold constructor.
  match goal with |- context [connect ?w0] =>
    apply (preserves_connect (keeps live_is_current)) with (w := w0) end;
    try live_facts.
  intros i s Hs. cbn [sockets] in Hs. rewrite lookup_nil in Hs. discriminate.
Qed.

Lemma reachable_live_is_current (w : State) :
  reachable JSON_parse w -> live_is_current w.
Proof.
  intros (outcomes & evs & Hrun).
  apply (run_live_is_current evs _ _ Hrun), constructor_live_is_current.
Qed.

End CurrentSocket.

(** *** [connect] and [send], case by case *)

Lemma connect_in_flight (w : State) :
  isConnecting w = true -> connect w = (Ret tt, w).
Proof. intros H. unfold connect. rewrite H. reflexivity. Qed.

(** An attempt whose socket is created. *)
Lemma connect_creates (w : State) :
  isConnecting w = false -> constructor_throws w = false ->
  connect w =
    (Ret tt,
     set_ws (Some (length (sockets w)))
       (set_sockets (closed_sockets w ++ [{| readyState := CONNECTING; sent := [] |}])
          (set_ctor (tail (tape w)) (S (ctorCalls w))
             (set_isConnecting true w)))).
Proof.
  intros Hc Ht. unfold connect. rewrite Hc.
  unfold constructor_throws in Ht. unfold closed_sockets.
  unfold bind, modify, try_catch, connect_try, bind, close_existing,
    new_WebSocket, modify.
  cbn [ws set_isConnecting].
  destruct (ws w) as [i|]; cbn [tape sockets set_ws set_sockets set_isConnecting];
    destruct (tape w) as [|[|] rest]; try discriminate;
    cbn [tail]; rewrite ?length_alter; reflexivity.
Qed.

(** An attempt whose socket cannot be created: the [catch] block runs. *)
Lemma connect_fails (w : State) :
  isConnecting w = false -> constructor_throws w = true ->
  let w1 :=
    set_notified
      (notified w ++
         map (fun cb => (cid cb, disconnected))
           (reached cthrows disconnected (connectionStatusCallbacks w)))
      (set_ws None
         (set_sockets (closed_sockets w)
            (set_ctor (tail (tape w)) (S (ctorCalls w)) w))) in
  connect w =
    if listener_throws disconnected w then (Exn, w1) else handleReconnect w1.
Proof.
  intros Hc Ht. unfold connect. rewrite Hc.
  unfold constructor_throws in Ht. unfold closed_sockets, listener_throws.
  unfold bind at 1. unfold modify at 1. unfold try_catch, connect_try.
  unfold bind at 1. unfold close_existing. cbn [ws set_isConnecting].
  assert (Hcatch : forall w0,
     connectionStatusCallbacks w0 = connectionStatusCallbacks w ->
     connect_catch w0 =
       if existsb (fun cb => cthrows cb disconnected) (connectionStatusCallbacks w)
       then (Exn, set_notified
                    (notified w0 ++
                       map (fun cb => (cid cb, disconnected))
                         (reached cthrows disconnected (connectionStatusCallbacks w)))
                    (set_isConnecting false w0))
       else handleReconnect
              (set_notified
                 (notified w0 ++
                    map (fun cb => (cid cb, disconnected))
                      (reached cthrows disconnected (connectionStatusCallbacks w)))
                 (set_isConnecting false w0))).
  { intros w0 Hcb. unfold connect_catch, bind at 1, modify at 1.
    unfold bind, notifyConnectionStatus. rewrite forEach_callback_effect.
    cbn [connectionStatusCallbacks set_isConnecting notified]. rewrite Hcb.
    destruct (existsb _ _); reflexivity. }
  destruct (ws w) as [i|] eqn:Hws; unfold bind, new_WebSocket;
    cbn [tape sockets set_ws set_sockets set_isConnecting];
    destruct (tape w) as [|[|] rest] eqn:Htape; try discriminate;
    rewrite Hcatch by reflexivity;
    destruct (existsb _ _); cbn [tail notified set_ctor set_sockets set_ws set_isConnecting];
    destruct w; cbn in *; subst; reflexivity.
Qed.

Lemma list_alter_at {A : Type} (f : A -> A) (l : list A) (i : nat) (x : A) :
  l !! i = Some x -> alter f i l = <[i := f x]> l.
Proof.
  revert i. induction l as [|a l IH]; intros [|i] H; simpl in *;
    try discriminate.
  - inversion H; subst. reflexivity.
  - f_equal. apply IH, H.
Qed.

Lemma is_open_same (w w' : State) :
  ws w' = ws w -> sockets w' = sockets w -> is_open w' = is_open w.
Proof. unfold is_open. intros -> ->. reflexivity. Qed.

Lemma send_open (data : string) (w : State) (i : nat) (s : Socket) :
  ws w = Some i -> sockets w !! i = Some s -> readyState s = OPEN ->
  send data w =
    (Ret tt,
     set_sockets
       (<[i := {| readyState := OPEN; sent := sent s ++ [data] |}]> (sockets w)) w).
Proof.
  intros Hws Hs Hr. unfold send.
  assert (Hopen : is_open w = true) by (apply is_open_true; eauto).
  rewrite Hopen. unfold transmit. rewrite Hws.
  rewrite (list_alter_at _ _ _ s Hs). unfold socket_send. rewrite Hr.
  reflexivity.
Qed.

Lemma send_closed (data : string) (w : State) :
  is_open w = false ->
  send data w =
    let w1 := set_messageQueue (messageQueue w ++ [data]) w in
    if isConnecting w then (Ret tt, w1) else connect w1.
Proof.
  intros Hclosed. unfold send. rewrite Hclosed.
  unfold bind, enqueue, modify. cbn [isConnecting set_messageQueue].
  destruct (isConnecting w); reflexivity.
Qed.

Lemma handleReconnect_frame (w : State) :
  let w' := snd (handleReconnect w) in
  fst (handleReconnect w) = Ret tt /\
  ws w' = ws w /\ sockets w' = sockets w /\ messageQueue w' = messageQueue w /\
  ctorCalls w' = ctorCalls w /\ isConnecting w' = isConnecting w.
Proof.
  unfold handleReconnect. destruct (_ <? _)%nat; simpl; repeat split.
Qed.

(** What an attempt leaves, whether the socket is created or not. *)
Lemma connect_idle (w : State) :
  isConnecting w = false ->
  let w' := snd (connect w) in
  messageQueue w' = messageQueue w /\
  ctorCalls w' = S (ctorCalls w) /\
  is_open w' = false /\
  (fst (connect w) = Exn <->
   constructor_throws w = true /\ listener_throws disconnected w = true).
Proof.
  intros Hc. destruct (constructor_throws w) eqn:Ht.
  - pose proof (connect_fails w Hc Ht) as H. cbv zeta in H. cbv zeta.
    rewrite H. destruct (listener_throws disconnected w).
    + repeat split; try reflexivity; intros; reflexivity.
    + match goal with |- context [handleReconnect ?w1] =>
        destruct (handleReconnect_frame w1) as (Hr & Hws & Hs & Hq & Hn & _) end.
      rewrite Hq, Hn, Hr. repeat split; try discriminate.
      * erewrite is_open_same; [|exact Hws|exact Hs]. reflexivity.
      * intros [_ ?]. discriminate.
  - rewrite (connect_creates w Hc Ht). cbv zeta. cbn [fst snd].
    repeat split; try discriminate.
    + unfold is_open. cbn [ws sockets set_ws set_sockets].
      rewrite list_lookup_middle; [reflexivity|].
      unfold closed_sockets. destruct (ws w); rewrite ?length_alter; reflexivity.
    + intros [? _]. discriminate.
Qed.

Lemma send_throws_iff (data : string) (w : State) :
  fst (send data w) = Exn <->
  is_open w = false /\ isConnecting w = false /\
  constructor_throws w = true /\ listener_throws disconnected w = true.
Proof.
  destruct (is_open w) eqn:Hopen.
  - apply is_open_true in Hopen as (i & s & Hws & Hs & Hr).
    rewrite (send_open data w i s Hws Hs Hr). cbn [fst].
    split; [discriminate|]. intros [? _]. discriminate.
  - rewrite (send_closed data w Hopen). cbv zeta.
    destruct (isConnecting w) eqn:Hc.
    + cbn [fst]. split; [discriminate|]. intros (_ & ? & _). discriminate.
    + destruct (connect_idle (set_messageQueue (messageQueue w ++ [data]) w) Hc)
        as (_ & _ & _ & Hexn).
      rewrite Hexn. unfold constructor_throws, listener_throws.
      cbn [tape connectionStatusCallbacks set_messageQueue]. tauto.
Qed.

(** C3, counterexample.  [new WebSocket] throws and a connection-status
    listener throws: the exception of the listener, raised in the [catch]
    block of [connect], leaves [send]; the message is in the queue. *)
Lemma send_throws_with_listener :
  let w := after [true; true]
             [CallAddConnectionStatusCallback (failing_callback 0)] in
  possible [true; true]
    [CallAddConnectionStatusCallback (failing_callback 0)] = true /\
  is_open w = false /\ isConnecting w = false /\
  fst (send "hello" w) = Exn /\
  messageQueue (snd (send "hello" w)) = ["hello"].
Proof. vm_compute. repeat split. Qed.

(** C3, as amended.  [send] transmits at once on an open connection;
    otherwise it appends the message to the queue, leaves the rest alone
    when an attempt is in flight, and starts an attempt (a call of
    [new WebSocket]) when none is.  It throws in one case only: it starts
    an attempt, the socket constructor throws and a connection-status
    listener throws on being told [disconnected]. *)
Theorem send_contract (data : string) (w : State) :
  (is_open w = true ->
   exists i s,
     ws w = Some i /\ sockets w !! i = Some s /\ readyState s = OPEN /\
     send data w =
       (Ret tt,
        set_sockets
          (<[i := {| readyState := OPEN; sent := sent s ++ [data] |}]>
             (sockets w)) w)) /\
  (is_open w = false ->
   messageQueue (snd (send data w)) = messageQueue w ++ [data] /\
   (isConnecting w = true ->
    send data w = (Ret tt, set_messageQueue (messageQueue w ++ [data]) w)) /\
   (isConnecting w = false ->
    ctorCalls (snd (send data w)) = S (ctorCalls w))) /\
  (fst (send data w) = Exn <->
   is_open w = false /\ isConnecting w = false /\
   constructor_throws w = true /\ listener_throws disconnected w = true).
Proof.
  split; [|split].
  - intros Hopen. apply is_open_true in Hopen as (i & s & Hws & Hs & Hr).
    exists i, s. repeat split; try assumption. apply send_open; assumption.
  - intros Hclosed. rewrite (send_closed data w Hclosed). cbv zeta.
    destruct (isConnecting w) eqn:Hc.
    + repeat split; try reflexivity. discriminate.
    + destruct (connect_idle (set_messageQueue (messageQueue w ++ [data]) w) Hc)
        as (Hq & Hn & _).
      split; [exact Hq|]. split; [discriminate|]. intros _. exact Hn.
  - apply send_throws_iff.
Qed.

(** While the first handshake is in flight a message is queued; once the
    socket is open a message goes out at once. *)
Lemma send_contract_witness :
  send "a" (constructor []) =
    (Ret tt, set_messageQueue ["a"] (constructor [])) /\
  sockets (snd (send "b" (after [] [SocketOpen 0]))) =
    [{| readyState := OPEN; sent := ["b"] |}].
Proof.
  split.
  - refine (proj1 (proj2 (proj1 (proj2 (send_contract "a" (constructor []))) _)) _);
      vm_compute; reflexivity.
  - destruct (proj1 (send_contract "b" (after [] [SocketOpen 0])))
      as (i & s & Hws & Hs & Hr & Hsend); [vm_compute; reflexivity|].
    rewrite Hsend. vm_compute in Hws. inversion Hws; subst i.
    vm_compute in Hs. inversion Hs; subst s. vm_compute. reflexivity.
Defined.

(** C10.  In a state where the counter is at its maximum of 5, the
    connection is not open and no attempt is in flight, [send] starts a
    connection attempt, which leaves the counter at 5 and sets no timer;
    when the socket constructor returns, the new socket is connecting and
    is the current one. *)
Theorem send_connects_after_exhaustion (data : string) (w : State) :
  reconnectAttempts w = 5 -> is_open w = false -> isConnecting w = false ->
  let w' := snd (send data w) in
  ctorCalls w' = S (ctorCalls w) /\
  reconnectAttempts w' = 5 /\
  timers w' = timers w /\
  (constructor_throws w = false ->
   fst (send data w) = Ret tt /\
   isConnecting w' = true /\
   ws w' = Some (length (sockets w)) /\
   sockets w' !! length (sockets w) =
     Some {| readyState := CONNECTING; sent := [] |}).
Proof.
  intros Hmax Hclosed Hc. cbv zeta.
  pose proof (paid_send data w) as (Ha & Hb & Hmax').
  unfold maxReconnectAttempts in Hmax'.
  assert (Hsend : send data w =
            connect (set_messageQueue (messageQueue w ++ [data]) w))
    by (rewrite (send_closed data w Hclosed); cbv zeta; rewrite Hc; reflexivity).
  split; [|split; [lia|split; [lia|]]].
  - rewrite Hsend.
    apply (connect_idle (set_messageQueue (messageQueue w ++ [data]) w) Hc).
  - intros Hctor. rewrite Hsend, connect_creates by assumption. cbn [fst snd].
    repeat split.
    cbn [sockets set_ws set_sockets]. apply list_lookup_middle.
    unfold closed_sockets. cbn [ws sockets set_messageQueue].
    destruct (ws w); rewrite ?length_alter; reflexivity.
Qed.

(** After the six failed handshakes of [failing_run] the reconnects are
    exhausted; a message sent then is queued and starts a seventh socket. *)
Lemma send_connects_after_exhaustion_witness :
  let w := after [] failing_run in
  let w' := snd (send "hello" w) in
  possible [] failing_run = true /\
  reconnectAttempts w = 5 /\ timers w = 0 /\
  ctorCalls w = 6 /\ ctorCalls w' = 7 /\
  reconnectAttempts w' = 5 /\ timers w' = 0.
Proof.
  cbv zeta.
  destruct (send_connects_after_exhaustion "hello" (after [] failing_run))
    as (Hn & Ha & Ht & _); try (vm_compute; reflexivity).
  rewrite Hn, Ha, Ht. vm_compute. repeat split.
Defined.

(** *** The drain when the connection opens *)

Lemma onopen_effect (w : State) (i : nat) (s : Socket) :
  ws w = Some i -> sockets w !! i = Some s -> readyState s = OPEN ->
  snd (onopen w) =
    set_notified
      (notified w ++
         map (fun cb => (cid cb, connected))
           (reached cthrows connected (connectionStatusCallbacks w)))
      (drained i s (set_isConnecting false (set_reconnectAttempts 0 w))).
Proof.
  intros Hws Hs Hr. unfold onopen.
  unfold bind at 1. unfold modify at 1. unfold bind at 1. unfold modify at 1.
  unfold bind, processMessageQueue.
  rewrite (processMessageQueue_loop_open _ _ i s) by (assumption || cbn; lia).
  unfold notifyConnectionStatus. rewrite forEach_callback_effect.
  reflexivity.
Qed.

Section Drain.

Variable JSON_parse : string -> option value.

Lemma step_open_drains (w w' : State) (i : nat) :
  live_is_current w ->
  step JSON_parse w (SocketOpen i) = Some w' ->
  exists s,
    sockets w !! i = Some s /\ readyState s = CONNECTING /\
    ws w' = Some i /\
    messageQueue w' = [] /\
    sockets w' =
      <[i := {| readyState := OPEN; sent := sent s ++ messageQueue w |}]>
        (sockets w).
Proof.
  intros Hw Hstep. simpl in Hstep.
  destruct (sockets w !! i) as [s|] eqn:Hs; [|discriminate]. simpl in Hstep.
  destruct (readyState s) eqn:Hr; inversion Hstep as [Hw']; clear Hstep.
  assert (Hcur : ws w = Some i)
    by (apply (Hw i s Hs); unfold live; rewrite Hr; reflexivity).
  exists s. split; [reflexivity|]. split; [exact Hr|].
  rewrite (onopen_effect (update_socket i OPEN w) i (set_readyState OPEN s)).
  - cbn [ws messageQueue sockets set_notified drained set_messageQueue
           set_sockets set_isConnecting set_reconnectAttempts update_socket
           set_readyState sent].
    repeat split; [exact Hcur|].
    apply list_insert_after_alter.
  - exact Hcur.
  - cbn [update_socket sockets set_sockets].
    rewrite list_lookup_alter_eq, Hs. reflexivity.
  - reflexivity.
Qed.

Lemma run_app (evs1 evs2 : list Event) (w : State) :
  run JSON_parse w (evs1 ++ evs2) =
    (w1 ← run JSON_parse w evs1; run JSON_parse w1 evs2).
Proof.
  revert w. induction evs1 as [|e rest IH]; intros w; simpl; [reflexivity|].
  destruct (step JSON_parse w e) as [w1|]; simpl; [apply IH|reflexivity].
Qed.

Lemma reachable_run (w w' : State) (evs : list Event) :
  reachable JSON_parse w -> run JSON_parse w evs = Some w' ->
  reachable JSON_parse w'.
Proof.
  intros (outcomes & evs0 & H0) Hrun. exists outcomes, (evs0 ++ evs).
  rewrite run_app, H0. exact Hrun.
Qed.

Lemma send_closed_stays (data : string) (w : State) :
  is_open w = false ->
  messageQueue (snd (send data w)) = messageQueue w ++ [data] /\
  is_open (snd (send data w)) = false.
Proof.
  intros Hclosed. rewrite (send_closed data w Hclosed). cbv zeta.
  destruct (isConnecting w) eqn:Hc.
  - split; [reflexivity|]. exact Hclosed.
  - destruct (connect_idle (set_messageQueue (messageQueue w ++ [data]) w) Hc)
      as (Hq & _ & Hopen & _).
    split; [exact Hq|exact Hopen].
Qed.

Lemma run_text_messages (mode : Mode) (ts : list string) :
  forall w w',
    is_open w = false ->
    run JSON_parse w (map (fun t => CallSendMessage mode (text_message t)) ts)
      = Some w' ->
    messageQueue w' = messageQueue w ++ map text_frame ts /\
    is_open w' = false.
Proof.
  induction ts as [|t rest IH]; intros w w' Hclosed Hrun; simpl in Hrun.
  - inversion Hrun; subst. rewrite app_nil_r. split; [reflexivity|exact Hclosed].
  - unfold sendMessage in Hrun. cbn [file text_message] in Hrun.
    unfold send_and_settle in Hrun.
    change (stringify (message_without_file (text_message t)))
      with (text_frame t) in Hrun.
    destruct (send_closed_stays (text_frame t) w Hclosed) as [Hq Hopen].
    destruct (send (text_frame t) w) as [[[]|] w1]; cbn [snd] in *;
      destruct (IH w1 w' Hopen Hrun) as [Hq' Hopen'];
      (split; [|exact Hopen']); rewrite Hq', Hq, <- app_assoc; reflexivity.
Qed.

(** When a socket of a running service opens, the queue goes out on that
    socket, message by message in queue order, each once, and is empty
    afterwards with the connection open; no other socket carries any of it.
    Chat messages handed to [sendMessage] while the connection is not open
    are appended to the end of the queue, so that at the next opening the
    socket carries what the queue held before them, then their frames in
    the order of the calls. *)
Lemma open_event_drains_queue :
  (forall w w' i,
     reachable JSON_parse w ->
     step JSON_parse w (SocketOpen i) = Some w' ->
     exists s,
       sockets w !! i = Some s /\ readyState s = CONNECTING /\
       messageQueue w' = [] /\
       is_open w' = true /\
       sockets w' =
         <[i := {| readyState := OPEN; sent := sent s ++ messageQueue w |}]>
           (sockets w)) /\
  (forall w w1 w' mode ts i,
     reachable JSON_parse w ->
     is_open w = false ->
     run JSON_parse w (map (fun t => CallSendMessage mode (text_message t)) ts)
       = Some w1 ->
     step JSON_parse w1 (SocketOpen i) = Some w' ->
     exists s,
       sockets w1 !! i = Some s /\
       messageQueue w' = [] /\
       sockets w' !! i =
         Some {| readyState := OPEN;
                 sent := sent s ++ messageQueue w ++ map text_frame ts |}).
Proof.
  split.
  - intros w w' i Hreach Hstep.
    destruct (step_open_drains w w' i
                (reachable_live_is_current JSON_parse w Hreach) Hstep)
      as (s & Hs & Hr & Hws & Hq & Hsockets).
    exists s. repeat split; try assumption.
    apply is_open_true. exists i, {| readyState := OPEN; sent := sent s ++ messageQueue w |}.
    repeat split; [exact Hws|].
    rewrite Hsockets. apply list_lookup_insert_eq.
    apply (lookup_lt_Some _ _ _ Hs).
  - intros w w1 w' mode ts i Hreach Hclosed Hrun Hstep.
    pose proof (reachable_run w w1 _ Hreach Hrun) as Hreach1.
    destruct (run_text_messages mode ts w w1 Hclosed Hrun) as [Hq1 _].
    destruct (step_open_drains w1 w' i
                (reachable_live_is_current JSON_parse w1 Hreach1) Hstep)
      as (s & Hs & Hr & Hws & Hq & Hsockets).
    exists s. repeat split; try assumption.
    rewrite Hsockets, Hq1. apply list_lookup_insert_eq.
    apply (lookup_lt_Some _ _ _ Hs).
Qed.

End Drain.

(** *** Inbound frames *)

Lemma deliver_effect (payload : value) (w : State) :
  deliver payload w =
    (if handler_throws payload w then Exn else Ret tt,
     set_delivered
       (delivered w ++
          map (fun h => (hid h, payload))
            (reached hthrows payload (messageHandlers w))) w).
Proof. unfold deliver. apply forEach_handler_effect. Qed.

Section Inbound.

Variable JSON_parse : string -> option value.

Lemma onmessage_undecoded (f : Frame) (w : State) :
  decode JSON_parse f = None ->
  onmessage JSON_parse f w = deliver (event_data f) w.
Proof.
  intros Hd. unfold onmessage, try_catch, bind, parse_event. rewrite Hd.
  reflexivity.
Qed.

Lemma onmessage_decoded (f : Frame) (w : State) (v : value) :
  decode JSON_parse f = Some v ->
  onmessage JSON_parse f w =
    if handler_throws v w then deliver (event_data f) (snd (deliver v w))
    else deliver v w.
Proof.
  intros Hd. unfold onmessage, try_catch, bind, parse_event. rewrite Hd.
  rewrite (deliver_effect v w). destruct (handler_throws v w); reflexivity.
Qed.

(** C6, counterexample.  First the listener of ChatInterface and a second
    listener are registered and the frame [null] arrives: it decodes, the
    first listener throws on the decoded value, and the second listener
    never receives the decoded value, only the raw text.  Then a listener
    that throws and a second listener are registered and the frame
    [not-json] arrives: decoding fails, the first listener throws on the raw
    text, the handler throws and the second listener receives nothing. *)
Lemma onmessage_listener_exception :
  let w := after [] [CallAddMessageHandler (chat_handler 0);
                     CallAddMessageHandler (quiet_handler 1); SocketOpen 0] in
  let w' := after [] [CallAddMessageHandler (failing_handler 0);
                      CallAddMessageHandler (quiet_handler 1); SocketOpen 0] in
  (possible []
     [CallAddMessageHandler (chat_handler 0);
      CallAddMessageHandler (quiet_handler 1); SocketOpen 0] = true /\
   decode scenario_parse (TextFrame "null") = Some VNull /\
   delivered (snd (onmessage scenario_parse (TextFrame "null") w)) =
     [(0, VNull); (0, VStr "null"); (1, VStr "null")]) /\
  (possible []
     [CallAddMessageHandler (failing_handler 0);
      CallAddMessageHandler (quiet_handler 1); SocketOpen 0] = true /\
   decode scenario_parse (TextFrame "not-json") = None /\
   fst (onmessage scenario_parse (TextFrame "not-json") w') = Exn /\
   delivered (snd (onmessage scenario_parse (TextFrame "not-json") w')) =
     [(0, VStr "not-json")]).
Proof. vm_compute. repeat split. Qed.

(** C6, as amended.  The handler first decodes the frame.  If decoding
    succeeds and no listener throws on the decoded value, every registered
    listener receives the decoded value, once, in registration order.  If
    decoding fails and no listener throws on the raw payload, every
    registered listener receives the raw payload unchanged, once, in
    registration order.  In both cases the handler returns; it throws only
    when a listener throws on the raw payload, never for the decoding
    failure itself. *)
Theorem onmessage_contract (f : Frame) (w : State) :
  (forall v,
     decode JSON_parse f = Some v -> handler_throws v w = false ->
     onmessage JSON_parse f w =
       (Ret tt,
        set_delivered
          (delivered w ++ map (fun h => (hid h, v)) (messageHandlers w)) w)) /\
  (decode JSON_parse f = None -> handler_throws (event_data f) w = false ->
   onmessage JSON_parse f w =
     (Ret tt,
      set_delivered
        (delivered w ++ map (fun h => (hid h, event_data f)) (messageHandlers w))
        w)) /\
  (fst (onmessage JSON_parse f w) = Exn ->
   handler_throws (event_data f) w = true).
Proof.
  split; [|split].
  - intros v Hd Hquiet. rewrite (onmessage_decoded f w v Hd), Hquiet.
    rewrite deliver_effect, Hquiet.
    rewrite reached_all by exact Hquiet. reflexivity.
  - intros Hd Hquiet. rewrite (onmessage_undecoded f w Hd).
    rewrite deliver_effect, Hquiet.
    rewrite reached_all by exact Hquiet. reflexivity.
  - destruct (decode JSON_parse f) as [v|] eqn:Hd.
    + rewrite (onmessage_decoded f w v Hd).
      destruct (handler_throws v w) eqn:Hv.
      * rewrite (deliver_effect (event_data f)). cbn [fst].
        unfold handler_throws. cbn [messageHandlers].
        rewrite (deliver_effect v w). cbn [snd messageHandlers set_delivered].
        destruct (existsb _ _); [reflexivity|discriminate].
      * rewrite deliver_effect, Hv. discriminate.
    + rewrite (onmessage_undecoded f w Hd), deliver_effect. cbn [fst].
      destruct (handler_throws (event_data f) w); [reflexivity|discriminate].
Qed.

End Inbound.

(** The scenarios of the specification: the frame [not-json] reaches the
    listener as the raw string, and the error payload reaches it decoded. *)
Lemma onmessage_contract_witness :
  let w := after [] [CallAddMessageHandler (chat_handler 0); SocketOpen 0] in
  delivered (snd (onmessage scenario_parse (TextFrame "not-json") w)) =
    [(0, VStr "not-json")] /\
  delivered
    (snd (onmessage scenario_parse
            (TextFrame (stringify (VObj [("status", VStr "error");
                                         ("message", VStr "bad input")]))) w)) =
    [(0, VObj [("status", VStr "error"); ("message", VStr "bad input")])].
Proof.
  cbv zeta. split.
  - rewrite (proj1 (proj2 (onmessage_contract scenario_parse
               (TextFrame "not-json")
               (after [] [CallAddMessageHandler (chat_handler 0); SocketOpen 0]))));
      vm_compute; reflexivity.
  - rewrite (proj1 (onmessage_contract scenario_parse
               (TextFrame (stringify (VObj [("status", VStr "error");
                                            ("message", VStr "bad input")])))
               (after [] [CallAddMessageHandler (chat_handler 0); SocketOpen 0]))
               (VObj [("status", VStr "error"); ("message", VStr "bad input")]));
      vm_compute; reflexivity.
Defined.

(** *** Outbound chat messages *)

Lemma send_and_settle_effect (message : value) (w : State) :
  send_and_settle message w =
    (Ret (settles (stringify message) w), snd (send (stringify message) w)).
Proof.
  unfold send_and_settle, settles.
  destruct (send (stringify message) w) as [[[]|] w1]; reflexivity.
Qed.

(** C7, counterexample.  The socket constructor throws and a
    connection-status listener throws: the envelope is handed to [send] and
    queued, and the promise is rejected. *)
Lemma sendMessage_rejects_after_queueing :
  let w := after [true; true]
             [CallAddConnectionStatusCallback (failing_callback 0)] in
  possible [true; true]
    [CallAddConnectionStatusCallback (failing_callback 0)] = true /\
  is_open w = false /\
  fst (sendMessage Mode_PPT (text_message "hello") w) = Ret Rejected /\
  messageQueue (snd (sendMessage Mode_PPT (text_message "hello") w)) =
    [text_frame "hello"].
Proof. vm_compute. repeat split. Qed.

(** C7, as amended.  Without a file the envelope handed to [send] is
    [{text, fileData: null, filename: null, fileType: null, fileSize: null}];
    with a file the call returns a pending promise and the reader's
    [onload] hands [send] an envelope whose [fileData] is the data URL of
    the file, a string; [fileData] is null exactly when there is no file.
    In both cases the promise settles when [send] has been handed the
    serialised envelope: resolved if [send] returns, queueing included, and
    rejected if [send] throws, which happens only when [send] starts a
    connection attempt, the socket constructor throws and a
    connection-status listener throws. *)
Theorem sendMessage_contract (mode : Mode) (d : MessageInput) (w : State) :
  (file d = None ->
   envelope d =
     VObj [("text", VStr (text d)); ("fileData", VNull); ("filename", VNull);
           ("fileType", VNull); ("fileSize", VNull)] /\
   sendMessage mode d w =
     (Ret (settles (stringify (envelope d)) w),
      snd (send (stringify (envelope d)) w))) /\
  (forall f, file d = Some f ->
   field (envelope d) "fileData" = Some (VStr (readAsDataURL (data f))) /\
   sendMessage mode d w = (Ret Pending, w) /\
   forall w1,
     reader_onload mode d f w1 =
       (Ret (settles (stringify (envelope d)) w1),
        snd (send (stringify (envelope d)) w1))) /\
  (field (envelope d) "fileData" = Some VNull <-> file d = None) /\
  (forall frame w1,
     (settles frame w1 = Resolved \/ settles frame w1 = Rejected) /\
     (settles frame w1 = Rejected <->
      is_open w1 = false /\ isConnecting w1 = false /\
      constructor_throws w1 = true /\ listener_throws disconnected w1 = true)).
Proof.
  split; [|split; [|split]].
  - intros Hf. unfold envelope, sendMessage. rewrite Hf.
    split; [reflexivity|]. apply send_and_settle_effect.
  - intros f Hf. unfold envelope, sendMessage, reader_onload. rewrite Hf.
    split; [reflexivity|]. split; [reflexivity|].
    intros w1. apply send_and_settle_effect.
  - unfold envelope. destruct (file d) as [f|]; split; intros H;
      try reflexivity; discriminate.
  - intros frame w1. unfold settles.
    pose proof (send_throws_iff frame w1) as Hexn.
    destruct (fst (send frame w1)) as [[]|] eqn:Hs.
    + split; [left; reflexivity|]. split; [discriminate|].
      intros H. apply Hexn in H. discriminate.
    + split; [right; reflexivity|]. split; [intros _; apply Hexn; reflexivity|reflexivity].
Qed.

(** The scenario of the specification: [{text: "hello", file: null}] is
    sent while the first handshake is in flight; the queue then holds the
    one envelope and the promise is resolved. *)
Lemma sendMessage_contract_witness :
  sendMessage Mode_PPT (text_message "hello") (constructor []) =
    (Ret Resolved, set_messageQueue [text_frame "hello"] (constructor [])).
Proof.
  rewrite (proj2 (proj1 (sendMessage_contract Mode_PPT (text_message "hello")
                           (constructor [])) eq_refl)).
  vm_compute. reflexivity.
Defined.

(** C8.  Two calls of [sendMessage] that differ in the mode only do the
    same: the same envelope goes to [send], at the call without a file and
    at the reader's [onload] with one. *)
Theorem sendMessage_ignores_mode (mode mode' : Mode) (d : MessageInput) (w : State) :
  sendMessage mode d w = sendMessage mode' d w /\
  (forall f, reader_onload mode d f w = reader_onload mode' d f w).
Proof. split; [reflexivity|]. intros f. reflexivity. Qed.

(** *** Connection-status notifications and the hook *)

Lemma rounds_refl (w : State) : notifies_in_rounds w w.
Proof. split; [reflexivity|]. exists []. simpl. rewrite app_nil_r. reflexivity. Qed.

Lemma rounds_trans (a b c : State) :
  notifies_in_rounds a b -> notifies_in_rounds b c -> notifies_in_rounds a c.
Proof.
  intros [Hcb1 [ss1 H1]] [Hcb2 [ss2 H2]]. split; [congruence|].
  exists (ss1 ++ ss2). rewrite H2, H1, Hcb1, flat_map_app, app_assoc. reflexivity.
Qed.

Lemma rounds_same (w w' : State) :
  connectionStatusCallbacks w' = connectionStatusCallbacks w ->
  notified w' = notified w -> notifies_in_rounds w w'.
Proof.
  intros Hcb Hn. split; [exact Hcb|]. exists []. simpl.
  rewrite app_nil_r. exact Hn.
Qed.

Lemma rounds_connect_try : preserves notifies_in_rounds connect_try.
Proof.
  intros w. unfold connect_try, close_existing, new_WebSocket, bind, modify.
  destruct (ws w); cbn [tape set_ws set_sockets];
    destruct (tape w) as [|[|] ?]; apply rounds_same; reflexivity.
Qed.

Lemma rounds_notify (status : Status) :
  preserves notifies_in_rounds (notifyConnectionStatus status).
Proof.
  intros w. unfold notifyConnectionStatus. rewrite forEach_callback_effect.
  split; [reflexivity|]. exists [status]. cbn [snd notified set_notified flat_map].
  rewrite app_nil_r. reflexivity.
Qed.

Lemma rounds_deliver (payload : value) :
  preserves notifies_in_rounds (deliver payload).
Proof.
  intros w. rewrite deliver_effect. apply rounds_same; reflexivity.
Qed.

Lemma rounds_handleReconnect : preserves notifies_in_rounds handleReconnect.
Proof.
  intros w. unfold handleReconnect.
  destruct (_ <? _)%nat; apply rounds_same; reflexivity.
Qed.

Lemma rounds_transmit (data : string) :
  preserves notifies_in_rounds (transmit data).
Proof.
  intros w. unfold transmit. destruct (ws w); apply rounds_same; reflexivity.
Qed.

Ltac rounds_facts :=
  first [ exact rounds_refl | exact rounds_trans | exact rounds_connect_try
        | exact rounds_notify | exact rounds_deliver
        | exact rounds_handleReconnect | exact rounds_transmit
        | intros; apply rounds_same; reflexivity ].

Lemma setStatus_round (c : nat) (status : Status) (l : list Callback) (st : Status) :
  setStatus_all c (map (fun cb => (cid cb, status)) l) st =
    if existsb (fun cb => (cid cb =? c)%nat) l then status else st.
Proof.
  unfold setStatus_all. revert st.
  induction l as [|cb rest IH]; intros st; [reflexivity|].
  cbn [map foldl existsb fst snd]. rewrite IH.
  destruct (cid cb =? c)%nat; cbn [orb]; [|reflexivity].
  destruct (existsb _ rest); reflexivity.
Qed.

Lemma setStatus_rounds_registered (c : nat) (cbs : list Callback) :
  existsb (fun cb => (cid cb =? c)%nat) cbs = true ->
  (forall status, existsb (fun cb => cthrows cb status) cbs = false) ->
  forall statuses st,
    setStatus_all c (flat_map (round cbs) statuses) st =
      default st (last statuses).
Proof.
  intros Hreg Hquiet statuses.
  induction statuses as [|status rest IH]; intros st; [reflexivity|].
  cbn [flat_map]. unfold setStatus_all in *. rewrite foldl_app.
  fold (setStatus_all c (round cbs status) st).
  unfold round at 1. rewrite reached_all by apply Hquiet.
  rewrite setStatus_round, Hreg, IH.
  destruct rest as [|status' rest]; [reflexivity|].
  change (last (status :: status' :: rest)) with (last (status' :: rest)).
  destruct (last (status' :: rest)) eqn:Hlast; [reflexivity|].
  apply last_None in Hlast. discriminate.
Qed.

Lemma setStatus_rounds_unregistered (c : nat) (cbs : list Callback) :
  existsb (fun cb => (cid cb =? c)%nat) cbs = false ->
  forall statuses st,
    setStatus_all c (flat_map (round cbs) statuses) st = st.
Proof.
  intros Hreg statuses.
  induction statuses as [|status rest IH]; intros st; [reflexivity|].
  cbn [flat_map]. unfold setStatus_all in *. rewrite foldl_app.
  fold (setStatus_all c (round cbs status) st).
  unfold round at 1. rewrite setStatus_round.
  replace (existsb (fun cb => (cid cb =? c)%nat)
             (reached cthrows status cbs)) with false; [apply IH|].
  symmetry. apply not_true_iff_false. intros Hex.
  apply existsb_exists in Hex as (cb & Hin & Hcb).
  apply list_elem_of_In, reached_sublist, list_elem_of_In in Hin.
  assert (Hall : existsb (fun cb => (cid cb =? c)%nat) cbs = true)
    by (apply existsb_exists; eauto).
  congruence.
Qed.

Section Hook.

Variable JSON_parse : string -> option value.

Lemma step_rounds (w w' : State) (e : Event) :
  step JSON_parse w e = Some w' ->
  exists statuses,
    notified w' =
      notified w ++ flat_map (round (connectionStatusCallbacks w)) statuses.
Proof.
  intros Hstep.
  assert (Hsame : notified w' = notified w -> exists statuses,
            notified w' =
              notified w ++ flat_map (round (connectionStatusCallbacks w)) statuses).
  { intros Hn. exists []. simpl. rewrite app_nil_r. exact Hn. }
  destruct e; simpl in Hstep.
  - destruct (sockets w !! i) as [s|]; [|discriminate]. simpl in Hstep.
    destruct (readyState s); inversion Hstep; subst.
    enough (H : notifies_in_rounds (update_socket i OPEN w)
                  (snd (onopen (update_socket i OPEN w)))) by exact (proj2 H).
    apply (preserves_bind notifies_in_rounds); [exact rounds_trans| |intros ?].
    { apply preserves_modify. rounds_facts. }
    apply (preserves_onopen_rest notifies_in_rounds); rounds_facts.
  - destruct (sockets w !! i) as [s|]; [|discriminate]. simpl in Hstep.
    enough (H : notifies_in_rounds w (snd (onmessage JSON_parse f w))).
    { destruct (readyState s); inversion Hstep; subst; exact (proj2 H). }
    apply (preserves_onmessage notifies_in_rounds); rounds_facts.
  - destruct (sockets w !! i) as [s|]; [|discriminate]. simpl in Hstep.
    assert (Hgo : notifies_in_rounds w (snd (onclose
               (if failed then snd (onerror (update_socket i CLOSED w))
                else update_socket i CLOSED w)))).
    { apply (rounds_trans _ (update_socket i CLOSED w));
        [apply rounds_same; reflexivity|].
      apply (rounds_trans _
               (if failed then snd (onerror (update_socket i CLOSED w))
                else update_socket i CLOSED w)).
      - destruct failed; [|apply rounds_refl].
        apply (preserves_onerror notifies_in_rounds); rounds_facts.
      - apply (preserves_onclose notifies_in_rounds); rounds_facts. }
    destruct (readyState s); inversion Hstep; subst; exact (proj2 Hgo).
  - destruct (timers w) as [|n]; inversion Hstep; subst.
    enough (H : notifies_in_rounds (set_timers n w)
                  (snd (connect (set_timers n w)))) by exact (proj2 H).
    apply (preserves_connect notifies_in_rounds); rounds_facts.
  - inversion Hstep; subst.
    enough (H : notifies_in_rounds w (snd (sendMessage mode d w)))
      by exact (proj2 H).
    apply (preserves_sendMessage notifies_in_rounds); rounds_facts.
  - destruct (file d) as [f|]; inversion Hstep; subst.
    enough (H : notifies_in_rounds w (snd (reader_onload mode d f w)))
      by exact (proj2 H).
    apply (preserves_reader_onload notifies_in_rounds); rounds_facts.
  - inversion Hstep; subst. apply Hsame.
    unfold addMessageHandler, modify; cbn [snd].
    destruct (has_handler h (messageHandlers w)); reflexivity.
  - inversion Hstep; subst. apply Hsame. reflexivity.
  - inversion Hstep; subst. apply Hsame.
    unfold addConnectionStatusCallback, modify; cbn [snd].
    destruct (has_callback cb (connectionStatusCallbacks w)); reflexivity.
  - inversion Hstep; subst. apply Hsame. reflexivity.
  - inversion Hstep; subst. apply Hsame. unfold close.
    destruct (ws w); reflexivity.
Qed.

Lemma constructor_not_open (outcomes : list bool) :
  is_open (constructor outcomes) = false.
Proof.
  unfold constructor.
  match goal with |- context [connect ?w0] =>
    destruct (connect_idle w0 eq_refl) as (_ & _ & H & _) end.
  exact H.
Qed.

(** C9, as amended.  [getConnectionStatus] answers [connected] exactly
    when the current socket is open.  The status the hook shows at its
    first render is the one [getConnectionStatus] gives for the service
    just created; the effect registers the hook's callback and sets the
    status from [getConnectionStatus] again.  From then on the status
    follows the notifications of the service, not its connection state:
    while the callback is registered and no status listener throws, after
    an event the status is that of the last notification made during the
    event, or unchanged if there was none.  The cleanup removes the
    callback, and once it is removed no event changes the status. *)
Theorem hook_status_follows_service (c : nat) :
  (forall w,
     getConnectionStatus w = connected <->
     exists i s, ws w = Some i /\ sockets w !! i = Some s /\ readyState s = OPEN) /\
  (forall outcomes,
     status (useWebSocket_render outcomes) =
       getConnectionStatus (wsService (useWebSocket_render outcomes))) /\
  (forall k,
     status (useWebSocket_effect c k) =
       getConnectionStatus (wsService (useWebSocket_effect c k)) /\
     has_callback (status_callback c)
       (connectionStatusCallbacks (wsService (useWebSocket_effect c k))) = true) /\
  (forall k e k',
     has_callback (status_callback c)
       (connectionStatusCallbacks (wsService k)) = true ->
     (forall st, listener_throws st (wsService k) = false) ->
     hook_step JSON_parse c k e = Some k' ->
     exists statuses,
       notified (wsService k') =
         notified (wsService k) ++
         flat_map (round (connectionStatusCallbacks (wsService k))) statuses /\
       status k' = default (status k) (last statuses)) /\
  (forall k,
     has_callback (status_callback c)
       (connectionStatusCallbacks (wsService (useWebSocket_cleanup c k))) = false) /\
  (forall k e k',
     has_callback (status_callback c)
       (connectionStatusCallbacks (wsService k)) = false ->
     hook_step JSON_parse c k e = Some k' ->
     status k' = status k).
Proof.
  repeat apply conj.
  - intros w. unfold getConnectionStatus. rewrite <- is_open_true.
    destruct (is_open w); split; congruence.
  - intros outcomes. unfold useWebSocket_render, getConnectionStatus.
    cbn [status wsService]. rewrite constructor_not_open. reflexivity.
  - intros k. split; [reflexivity|].
    unfold useWebSocket_effect, addConnectionStatusCallback, modify.
    cbn [wsService snd].
    destruct (has_callback (status_callback c)
                (connectionStatusCallbacks (wsService k))) eqn:Hreg;
      [exact Hreg|].
    cbn [connectionStatusCallbacks set_connectionStatusCallbacks].
    unfold has_callback. rewrite existsb_app. cbn [existsb cid status_callback].
    rewrite Nat.eqb_refl. apply orb_true_iff. right. reflexivity.
  - intros k e k' Hreg Hquiet Hstep. unfold hook_step in Hstep.
    destruct (step JSON_parse (wsService k) e) as [w'|] eqn:Hs; [|discriminate].
    cbn [mbind option_bind] in Hstep. inversion Hstep; subst k'. cbn [wsService status].
    destruct (step_rounds _ _ _ Hs) as [statuses Hn].
    exists statuses. split; [exact Hn|].
    rewrite Hn, drop_app_length.
    apply setStatus_rounds_registered; [exact Hreg|exact Hquiet].
  - intros k. unfold useWebSocket_cleanup, removeConnectionStatusCallback, modify.
    cbn [wsService snd connectionStatusCallbacks set_connectionStatusCallbacks].
    unfold has_callback. apply not_true_iff_false. intros Hex.
    apply existsb_exists in Hex as (cb & Hin & Hcb).
    apply filter_In in Hin as [_ Hne]. rewrite Hcb in Hne. discriminate.
  - intros k e k' Hreg Hstep. unfold hook_step in Hstep.
    destruct (step JSON_parse (wsService k) e) as [w'|] eqn:Hs; [|discriminate].
    cbn [mbind option_bind] in Hstep. inversion Hstep; subst k'. cbn [wsService status].
    destruct (step_rounds _ _ _ Hs) as [statuses Hn].
    rewrite Hn, drop_app_length.
    apply setStatus_rounds_unregistered. exact Hreg.
Qed.

End Hook.

(** The hook is rendered and its effect runs while the first handshake is
    in flight: the status is [disconnected]; the socket opens: the status
    is [connected]; the socket closes: [disconnected]; after the cleanup a
    new socket opens and the status stays as it was. *)
Lemma hook_status_follows_service_witness :
  let k0 := useWebSocket_effect 7 (useWebSocket_render []) in
  let k1 := hook_after 7 k0 [SocketOpen 0] in
  let k2 := hook_after 7 k1 [SocketClose 0 false] in
  let k3 := hook_after 7 (useWebSocket_cleanup 7 k2) [TimerFires] in
  status k0 = disconnected /\ status k1 = connected /\
  status k2 = disconnected /\ status k3 = disconnected.
Proof.
  cbv zeta.
  split; [vm_compute; reflexivity|].
  split; [vm_compute; reflexivity|].
  split; [vm_compute; reflexivity|].
  rewrite (proj2 (proj2 (proj2 (proj2 (proj2
             (hook_status_follows_service scenario_parse 7)))))
             (useWebSocket_cleanup 7
                (hook_after 7
                   (hook_after 7 (useWebSocket_effect 7 (useWebSocket_render []))
                      [SocketOpen 0])
                   [SocketClose 0 false]))
             TimerFires);
    vm_compute; reflexivity.
Defined.

(** C9, counterexample.  The hook's callback is registered and no listener
    throws.  The first handshake fails and leaves a timer, a message starts
    a second socket, which opens: the status is [connected].  The timer
    fires and [connect] closes the open socket without a notification: the
    status is still [connected] while [getConnectionStatus] answers
    [disconnected].  The third socket opens, then the close event of the
    second arrives and is notified: the status is [disconnected] while the
    connection is open and [getConnectionStatus] answers [connected]. *)
Lemma hook_status_out_of_sync :
  let k0 := useWebSocket_effect 7 (useWebSocket_render []) in
  let evs1 := reopened_run ++ [TimerFires] in
  let evs2 := evs1 ++ [SocketOpen 2; SocketClose 1 false] in
  let k1 := hook_after 7 k0 evs1 in
  let k2 := hook_after 7 k0 evs2 in
  hook_possible 7 k0 evs2 = true /\
  has_callback (status_callback 7)
    (connectionStatusCallbacks (wsService k2)) = true /\
  listener_throws connected (wsService k2) = false /\
  listener_throws disconnected (wsService k2) = false /\
  status k1 = connected /\
  getConnectionStatus (wsService k1) = disconnected /\
  status k2 = disconnected /\
  getConnectionStatus (wsService k2) = connected.
Proof.
  cbv zeta.
  split; [vm_compute; reflexivity|]. split; [vm_compute; reflexivity|].
  split; [vm_compute; reflexivity|]. split; [vm_compute; reflexivity|].
  split; [vm_compute; reflexivity|]. split; [vm_compute; reflexivity|].
  split; vm_compute; reflexivity.
Qed.

End WSFacts.

(** ** More on the connection and messaging client *)

Module WSMoreFacts.
Import JS WS WSMore WSFacts.
Local Open Scope list_scope.

(** *** Bounds and invariants of the reachable states *)

Section Reachable.

Variable JSON_parse : string -> option value.

Lemma step_attempts_bound (w w' : State) (e : Event) :
  step JSON_parse w e = Some w' ->
  (reconnectAttempts w <= maxReconnectAttempts)%nat ->
  (reconnectAttempts w' <= maxReconnectAttempts)%nat.
Proof.
  intros Hstep Hmax. destruct (is_open_event e) eqn:He.
  - destruct e; try discriminate.
    destruct (step_open_resets JSON_parse w w' i Hstep) as [-> _]. lia.
  - pose proof (step_paid JSON_parse w w' e Hstep He) as (_ & _ & Hc).
    destruct e; apply Hc; exact Hmax.
Qed.

(** X1.  In every state the service can reach, the failed-attempt counter
    is at most 5. *)
Theorem attempts_never_exceed_maximum (w : State) :
  reachable JSON_parse w -> (reconnectAttempts w <= 5)%nat.
Proof.
  intros (outcomes & evs & Hrun).
  assert (H0 : (reconnectAttempts (constructor outcomes) <= maxReconnectAttempts)%nat)
    by apply (constructor_counters outcomes).
  revert Hrun H0. generalize (constructor outcomes) as w0.
  induction evs as [|e rest IH]; intros w0 Hrun H0; simpl in Hrun.
  - inversion Hrun; subst. exact H0.
  - destruct (step JSON_parse w0 e) as [w1|] eqn:Hstep; [|discriminate].
    apply (IH w1 Hrun), (step_attempts_bound w0 w1 e Hstep H0).
Qed.

(** X2.  In every state the service can reach, at most one socket is
    connecting or open, and it is the one held in [this.ws]. *)
Theorem one_live_socket (w : State) (i j : nat) (si sj : Socket) :
  reachable JSON_parse w ->
  sockets w !! i = Some si -> live si = true ->
  sockets w !! j = Some sj -> live sj = true ->
  i = j /\ ws w = Some i.
Proof.
  intros Hreach Hi Hli Hj Hlj.
  pose proof (reachable_live_is_current JSON_parse w Hreach) as Hcur.
  pose proof (Hcur i si Hi Hli) as Hwi.
  pose proof (Hcur j sj Hj Hlj) as Hwj.
  split; [congruence|exact Hwi].
Qed.

End Reachable.

Lemma attempts_never_exceed_maximum_witness :
  reconnectAttempts (after [] (failing_run ++ [CallSendMessage Mode_PPT (text_message "x");
                                               SocketClose 6 true])) = 5.
Proof.
  apply Nat.le_antisymm; [|vm_compute; lia].
  apply (attempts_never_exceed_maximum scenario_parse).
  exists [], (failing_run ++ [CallSendMessage Mode_PPT (text_message "x");
                              SocketClose 6 true]).
  vm_compute. reflexivity.
Defined.

(** After a failed first handshake and a message that starts a second one,
    socket 1 is the only live socket. *)
Lemma one_live_socket_witness :
  let w := after [] [SocketClose 0 true;
                     CallSendMessage Mode_PPT (text_message "x")] in
  ws w = Some 1.
Proof.
  cbv zeta.
  refine (proj2 (one_live_socket scenario_parse
                   (after [] [SocketClose 0 true;
                              CallSendMessage Mode_PPT (text_message "x")]) 1 1
                   {| readyState := CONNECTING; sent := [] |}
                   {| readyState := CONNECTING; sent := [] |} _ _ _ _ _));
    [|vm_compute; reflexivity..].
  exists [], [SocketClose 0 true; CallSendMessage Mode_PPT (text_message "x")].
  vm_compute. reflexivity.
Defined.

(** *** Events that leave the link alone *)

Lemma same_link_refl (w : State) : same_link w w.
Proof. repeat split. Qed.

Lemma same_link_trans (a b c : State) :
  same_link a b -> same_link b c -> same_link a c.
Proof.
  unfold same_link. intros (? & ? & ?) (? & ? & ?). repeat split; congruence.
Qed.

Lemma same_link_notify (status : Status) :
  preserves same_link (notifyConnectionStatus status).
Proof.
  intros w. unfold notifyConnectionStatus. rewrite forEach_callback_effect.
  repeat split.
Qed.

Lemma same_link_deliver (payload : value) : preserves same_link (deliver payload).
Proof. intros w. rewrite deliver_effect. repeat split. Qed.

Lemma same_link_handleReconnect : preserves same_link handleReconnect.
Proof.
  intros w. unfold handleReconnect. destruct (_ <? _)%nat; repeat split.
Qed.

Ltac link_facts :=
  first [ exact same_link_refl | exact same_link_trans
        | exact same_link_notify | exact same_link_deliver
        | exact same_link_handleReconnect
        | intros; repeat split ].

Lemma is_open_closing (i : nat) (w : State) :
  is_open (update_socket i CLOSED w) = true -> is_open w = true.
Proof.
  unfold is_open, update_socket. cbn [ws sockets set_sockets].
  destruct (ws w) as [j|]; [|discriminate].
  destruct (decide (i = j)) as [->|Hne].
  - rewrite list_lookup_alter_eq. destruct (sockets w !! j); discriminate.
  - rewrite list_lookup_alter_ne by exact Hne. auto.
Qed.

Section QueueAndFrames.

Variable JSON_parse : string -> option value.

Lemma step_open_queue_empty (w w' : State) (e : Event) :
  step JSON_parse w e = Some w' ->
  live_is_current w -> open_queue_empty w -> open_queue_empty w'.
Proof.
  intros Hstep Hcur Hinv.
  assert (Hsend : forall frame, open_queue_empty (snd (send frame w))).
  { intros frame Hopen'. destruct (is_open w) eqn:Hopen.
    - apply is_open_true in Hopen as (i & s & Hws & Hs & Hr).
      rewrite (send_open frame w i s Hws Hs Hr). cbn [snd messageQueue set_sockets].
      apply Hinv. apply is_open_true. eauto.
    - destruct (send_closed_stays frame w Hopen) as [_ Hclosed]. congruence. }
  destruct e; simpl in Hstep.
  - destruct (step_open_drains JSON_parse w w' i Hcur) as (s & _ & _ & _ & Hq & _).
    { exact Hstep. }
    intros _. exact Hq.
  - destruct (sockets w !! i) as [s|]; [|discriminate]. simpl in Hstep.
    assert (H : same_link w (snd (onmessage JSON_parse f w)))
      by (apply (preserves_onmessage same_link); link_facts).
    destruct H as (Hws & Hs & Hq).
    destruct (readyState s); inversion Hstep; subst; intros Hopen;
      rewrite Hq; apply Hinv; rewrite <- Hopen; symmetry;
      apply is_open_same; assumption.
  - destruct (sockets w !! i) as [s|]; [|discriminate]. simpl in Hstep.
    assert (H : same_link (update_socket i CLOSED w) (snd (onclose
               (if failed then snd (onerror (update_socket i CLOSED w))
                else update_socket i CLOSED w)))).
    { apply (same_link_trans _
               (if failed then snd (onerror (update_socket i CLOSED w))
                else update_socket i CLOSED w)).
      - destruct failed; [|apply same_link_refl].
        apply (preserves_onerror same_link); link_facts.
      - apply (preserves_onclose same_link); link_facts. }
    destruct H as (Hws & Hs & Hq).
    assert (Hgo : open_queue_empty (snd (onclose
               (if failed then snd (onerror (update_socket i CLOSED w))
                else update_socket i CLOSED w)))).
    { intros Hopen. rewrite Hq. cbn [messageQueue update_socket set_sockets].
      apply Hinv, (is_open_closing i). rewrite <- Hopen. symmetry.
      apply is_open_same; assumption. }
    destruct (readyState s); inversion Hstep; subst; exact Hgo.
  - destruct (timers w) as [|n]; inversion Hstep; subst.
    destruct (isConnecting w) eqn:Hc.
    + rewrite connect_in_flight by exact Hc. exact Hinv.
    + intros Hopen.
      destruct (connect_idle (set_timers n w) Hc) as (_ & _ & Hclosed & _).
      congruence.
  - inversion Hstep; subst. unfold sendMessage.
    destruct (file d); [exact Hinv|].
    rewrite send_and_settle_effect. apply Hsend.
  - destruct (file d) as [f|]; inversion Hstep; subst.
    unfold reader_onload. rewrite send_and_settle_effect. apply Hsend.
  - inversion Hstep; subst. unfold addMessageHandler, modify; cbn [snd].
    destruct (has_handler h (messageHandlers w)); exact Hinv.
  - inversion Hstep; subst. exact Hinv.
  - inversion Hstep; subst. unfold addConnectionStatusCallback, modify; cbn [snd].
    destruct (has_callback cb (connectionStatusCallbacks w)); exact Hinv.
  - inversion Hstep; subst. exact Hinv.
  - inversion Hstep; subst. unfold close.
    destruct (ws w) as [j|] eqn:Hws; cbn [snd]; [|exact Hinv].
    intros Hopen. unfold is_open in Hopen. cbn [ws set_ws] in Hopen.
    discriminate.
Qed.

(** X3.  In every state the service can reach, the outbound queue is empty
    whenever the connection is open: a message waits in the queue only
    while the connection is not open. *)
Theorem queue_empty_while_open (w : State) :
  reachable JSON_parse w -> is_open w = true -> messageQueue w = [].
Proof.
  intros (outcomes & evs & Hrun).
  assert (H0 : open_queue_empty (constructor outcomes)).
  { intros Hopen. pose proof (constructor_not_open outcomes). congruence. }
  pose proof (constructor_live_is_current outcomes) as Hcur.
  revert Hrun H0 Hcur. generalize (constructor outcomes) as w0.
  induction evs as [|e rest IH]; intros w0 Hrun H0 Hcur; simpl in Hrun.
  - inversion Hrun; subst. exact H0.
  - destruct (step JSON_parse w0 e) as [w1|] eqn:Hstep; [|discriminate].
    apply (IH w1 Hrun).
    + apply (step_open_queue_empty w0 w1 e Hstep Hcur H0).
    + apply (step_live_is_current JSON_parse w0 w1 e Hstep Hcur).
Qed.

End QueueAndFrames.

(** Two messages are sent during the first handshake and the socket opens:
    the connection is open and the queue is empty. *)
Lemma queue_empty_while_open_witness :
  let w := after [] [CallSendMessage Mode_PPT (text_message "a");
                     CallSendMessage Mode_PPT (text_message "b");
                     SocketOpen 0] in
  is_open w = true /\ messageQueue w = [].
Proof.
  cbv zeta. split; [vm_compute; reflexivity|].
  apply (queue_empty_while_open scenario_parse); [|vm_compute; reflexivity].
  exists [], [CallSendMessage Mode_PPT (text_message "a");
              CallSendMessage Mode_PPT (text_message "b"); SocketOpen 0].
  vm_compute. reflexivity.
Defined.

(** *** No frame is lost or doubled *)

Lemma sent_alter_same (f : Socket -> Socket) (i : nat) (l : list Socket) :
  (forall s, sent (f s) = sent s) -> map sent (alter f i l) = map sent l.
Proof.
  intros Hf. revert i. induction l as [|a l IH]; intros [|i]; simpl;
    try reflexivity.
  - rewrite Hf. reflexivity.
  - f_equal. apply IH.
Qed.

Lemma sent_insert_extend (l : list Socket) (i : nat) (s : Socket)
    (r : ReadyState) (extra : list string) :
  l !! i = Some s ->
  concat (map sent (<[i := {| readyState := r; sent := sent s ++ extra |}]> l))
    ≡ₚ extra ++ concat (map sent l).
Proof.
  revert i. induction l as [|a l IH]; intros [|i] Hs; simpl in *;
    try discriminate.
  - inversion Hs; subst a. rewrite <- app_assoc.
    apply Permutation_app_swap_app.
  - etransitivity; [|apply Permutation_app_swap_app].
    apply Permutation_app_head, (IH i Hs).
Qed.

Lemma same_frames_refl (w : State) : same_frames w w.
Proof. unfold same_frames. reflexivity. Qed.

Lemma same_frames_trans (a b c : State) :
  same_frames a b -> same_frames b c -> same_frames a c.
Proof. unfold same_frames. intros H1 H2. rewrite H2. exact H1. Qed.

Lemma same_frames_eq (w w' : State) :
  messageQueue w' = messageQueue w ->
  concat (map sent (sockets w')) = concat (map sent (sockets w)) ->
  same_frames w w'.
Proof. unfold same_frames, frames. intros -> ->. reflexivity. Qed.

Lemma same_frames_connect_try : preserves same_frames connect_try.
Proof.
  intros w. unfold connect_try, close_existing, new_WebSocket, bind, modify.
  destruct (ws w); cbn [tape sockets set_ws set_sockets];
    destruct (tape w) as [|[|] ?]; apply same_frames_eq;
    cbn [snd messageQueue sockets set_ws set_sockets set_ctor];
    rewrite ?map_app, ?concat_app, ?sent_alter_same; cbn [map concat sent];
    rewrite ?app_nil_r; try reflexivity;
    try (intros s0; unfold socket_close; destruct (readyState s0); reflexivity).
Qed.

Lemma same_frames_notify (status : Status) :
  preserves same_frames (notifyConnectionStatus status).
Proof.
  intros w. unfold notifyConnectionStatus. rewrite forEach_callback_effect.
  apply same_frames_eq; reflexivity.
Qed.

Lemma same_frames_deliver (payload : value) :
  preserves same_frames (deliver payload).
Proof. intros w. rewrite deliver_effect. apply same_frames_eq; reflexivity. Qed.

Lemma same_frames_handleReconnect : preserves same_frames handleReconnect.
Proof.
  intros w. unfold handleReconnect.
  destruct (_ <? _)%nat; apply same_frames_eq; reflexivity.
Qed.

Ltac frames_facts :=
  first [ exact same_frames_refl | exact same_frames_trans
        | exact same_frames_connect_try | exact same_frames_notify
        | exact same_frames_deliver | exact same_frames_handleReconnect
        | intros; apply same_frames_eq; reflexivity ].

Lemma same_frames_connect : preserves same_frames connect.
Proof. apply preserves_connect; frames_facts. Qed.

Lemma send_frames (data : string) (w : State) :
  frames (snd (send data w)) ≡ₚ frames w ++ [data].
Proof.
  destruct (is_open w) eqn:Hopen.
  - apply is_open_true in Hopen as (i & s & Hws & Hs & Hr).
    rewrite (send_open data w i s Hws Hs Hr). unfold frames.
    cbn [snd messageQueue sockets set_sockets].
    rewrite (sent_insert_extend _ i s OPEN [data] Hs).
    rewrite <- app_assoc. apply Permutation_app_head, Permutation_app_comm.
  - rewrite (send_closed data w Hopen). cbv zeta.
    assert (H1 : frames (set_messageQueue (messageQueue w ++ [data]) w)
                 ≡ₚ frames w ++ [data]).
    { unfold frames. cbn [messageQueue sockets set_messageQueue].
      rewrite <- !app_assoc. apply Permutation_app_head, Permutation_app_comm. }
    destruct (isConnecting w); [exact H1|].
    rewrite <- H1. apply same_frames_connect.
Qed.

Lemma same_frames_processMessageQueue : preserves same_frames processMessageQueue.
Proof.
  intros w. destruct (processMessageQueue_effect w)
    as [[_ ->]|(i & s & _ & Hs & _ & ->)]; [apply same_frames_refl|].
  unfold same_frames, frames, drained.
  cbn [snd messageQueue sockets set_sockets set_messageQueue app].
  apply (sent_insert_extend _ i s OPEN (messageQueue w) Hs).
Qed.

Lemma same_frames_onopen (w : State) : same_frames w (snd (onopen w)).
Proof.
  apply (preserves_bind same_frames same_frames_trans); [|intros ?].
  { apply preserves_modify. frames_facts. }
  apply (preserves_bind same_frames same_frames_trans); [|intros ?].
  { apply preserves_modify. frames_facts. }
  apply (preserves_bind same_frames same_frames_trans); [|intros ?].
  { apply same_frames_processMessageQueue. }
  apply same_frames_notify.
Qed.

Section Conservation.

Variable JSON_parse : string -> option value.

Lemma update_socket_frames (i : nat) (r : ReadyState) (w : State) :
  same_frames w (update_socket i r w).
Proof.
  apply same_frames_eq; [reflexivity|]. unfold update_socket.
  cbn [sockets set_sockets]. rewrite sent_alter_same; reflexivity.
Qed.

Lemma step_frames (w w' : State) (e : Event) :
  step JSON_parse w e = Some w' -> frames w' ≡ₚ frames w ++ frames_of e.
Proof.
  intros Hstep.
  assert (Hsame : forall w1, same_frames w w1 -> frames w1 ≡ₚ frames w ++ [])
    by (intros w1; rewrite app_nil_r; auto).
  destruct e; simpl in Hstep; cbn [frames_of].
  - destruct (sockets w !! i) as [s|]; [|discriminate]. simpl in Hstep.
    destruct (readyState s); inversion Hstep; subst. apply Hsame.
    apply (same_frames_trans _ (update_socket i OPEN w));
      [apply update_socket_frames|apply same_frames_onopen].
  - destruct (sockets w !! i) as [s|]; [|discriminate]. simpl in Hstep.
    assert (H : same_frames w (snd (onmessage JSON_parse f w)))
      by (apply (preserves_onmessage same_frames); frames_facts).
    destruct (readyState s); inversion Hstep; subst; apply Hsame, H.
  - destruct (sockets w !! i) as [s|]; [|discriminate]. simpl in Hstep.
    assert (Hgo : same_frames w (snd (onclose
               (if failed then snd (onerror (update_socket i CLOSED w))
                else update_socket i CLOSED w)))).
    { apply (same_frames_trans _ (update_socket i CLOSED w));
        [apply update_socket_frames|].
      apply (same_frames_trans _
               (if failed then snd (onerror (update_socket i CLOSED w))
                else update_socket i CLOSED w)).
      - destruct failed; [|apply same_frames_refl].
        apply (preserves_onerror same_frames); frames_facts.
      - apply (preserves_onclose same_frames); frames_facts. }
    destruct (readyState s); inversion Hstep; subst; apply Hsame, Hgo.
  - destruct (timers w) as [|n]; inversion Hstep; subst. apply Hsame.
    apply (same_frames_trans _ (set_timers n w));
      [apply same_frames_eq; reflexivity|apply same_frames_connect].
  - inversion Hstep; subst. unfold sendMessage, envelope.
    destruct (file d); [apply Hsame, same_frames_refl|].
    rewrite send_and_settle_effect. apply send_frames.
  - unfold envelope. destruct (file d) as [f|]; inversion Hstep; subst.
    unfold reader_onload. rewrite send_and_settle_effect. apply send_frames.
  - inversion Hstep; subst. apply Hsame. unfold addMessageHandler, modify.
    cbn [snd]. destruct (has_handler h (messageHandlers w));
      apply same_frames_eq; reflexivity.
  - inversion Hstep; subst. apply Hsame, same_frames_eq; reflexivity.
  - inversion Hstep; subst. apply Hsame. unfold addConnectionStatusCallback, modify.
    cbn [snd]. destruct (has_callback cb (connectionStatusCallbacks w));
      apply same_frames_eq; reflexivity.
  - inversion Hstep; subst. apply Hsame, same_frames_eq; reflexivity.
  - inversion Hstep; subst. apply Hsame. unfold close.
    destruct (ws w); apply same_frames_eq; try reflexivity.
    cbn [snd sockets set_ws set_sockets]. rewrite sent_alter_same; [reflexivity|].
    intros s0. unfold socket_close. destruct (readyState s0); reflexivity.
Qed.

(** X4.  After any sequence of events, the frames waiting in the queue
    together with the frames handed to the sockets are exactly the
    envelopes the [sendMessage] calls and reader loads of the sequence
    handed to [send], each as many times as it was sent: the service
    neither loses nor doubles a message, whatever the reconnects in
    between. *)
Theorem frames_conserved (outcomes : list bool) (evs : list Event) (w : State) :
  run JSON_parse (constructor outcomes) evs = Some w ->
  frames w ≡ₚ flat_map frames_of evs.
Proof.
  intros Hrun.
  assert (H0 : frames (constructor outcomes) ≡ₚ []).
  { unfold constructor.
    match goal with |- context [connect ?w0] =>
      apply (same_frames_connect w0) end. }
  assert (Hgen : forall w0 l, frames w0 ≡ₚ l ->
            run JSON_parse w0 evs = Some w ->
            frames w ≡ₚ l ++ flat_map frames_of evs).
  { clear Hrun H0. induction evs as [|e rest IH]; intros w0 l H0 Hrun;
      simpl in Hrun.
    - inversion Hrun; subst. simpl. rewrite app_nil_r. exact H0.
    - destruct (step JSON_parse w0 e) as [w1|] eqn:Hstep; [|discriminate].
      cbn [flat_map]. rewrite app_assoc. apply (IH w1); [|exact Hrun].
      rewrite (step_frames w0 w1 e Hstep), H0. reflexivity. }
  apply (Hgen (constructor outcomes) [] H0 Hrun).
Qed.

End Conservation.

(** Two messages are sent while the first handshake fails; the timer
    starts a second socket, which opens, and a third message is sent: the
    second socket carries the three frames and the queue is empty. *)
Lemma frames_conserved_witness :
  let evs := [CallSendMessage Mode_PPT (text_message "a");
              SocketClose 0 true;
              CallSendMessage Mode_PPT (text_message "b");
              TimerFires; SocketOpen 1;
              CallSendMessage Mode_PPT (text_message "c")] in
  frames (after [] evs) ≡ₚ [text_frame "a"; text_frame "b"; text_frame "c"] /\
  messageQueue (after [] evs) = [] /\
  map sent (sockets (after [] evs)) =
    [[]; [text_frame "a"; text_frame "b"; text_frame "c"]].
Proof.
  cbv zeta. split; [|split; vm_compute; reflexivity].
  etransitivity.
  - apply (frames_conserved scenario_parse []
             [CallSendMessage Mode_PPT (text_message "a");
              SocketClose 0 true;
              CallSendMessage Mode_PPT (text_message "b");
              TimerFires; SocketOpen 1;
              CallSendMessage Mode_PPT (text_message "c")]).
    vm_compute. reflexivity.
  - vm_compute. reflexivity.
Defined.

(** *** The listener sets *)

Lemma filter_absent {A : Type} (p : A -> bool) (l : list A) :
  existsb (fun x => negb (p x)) l = false -> List.filter p l = l.
Proof.
  induction l as [|a l IH]; simpl; [reflexivity|].
  intros H. apply orb_false_iff in H as [Ha Hl].
  apply negb_false_iff in Ha. rewrite Ha, IH by exact Hl. reflexivity.
Qed.

Lemma filter_twice {A : Type} (p : A -> bool) (l : list A) :
  List.filter p (List.filter p l) = List.filter p l.
Proof.
  induction l as [|a l IH]; simpl; [reflexivity|].
  destruct (p a) eqn:Ha; simpl; rewrite ?Ha, IH; reflexivity.
Qed.

Lemma existsb_negb_negb {A : Type} (p : A -> bool) (l : list A) :
  existsb (fun x => negb (negb (p x))) l = existsb p l.
Proof.
  induction l as [|a l IH]; simpl; [reflexivity|].
  rewrite negb_involutive, IH. reflexivity.
Qed.

(** X5.  The message listeners form a set.  Registering a listener that is
    registered changes nothing, and calling the de-registration function a
    second time changes nothing; after a registration the listener is in
    the set and after a de-registration it is not, however often it was
    registered; registering a new listener and de-registering it gives
    back the service as it was.  The same holds of the connection-status
    listeners. *)
Theorem listener_sets (h : Handler) (cb : Callback) (w : State) :
  (snd (addMessageHandler h (snd (addMessageHandler h w)))
     = snd (addMessageHandler h w) /\
   snd (removeMessageHandler h (snd (removeMessageHandler h w)))
     = snd (removeMessageHandler h w) /\
   has_handler h (messageHandlers (snd (addMessageHandler h w))) = true /\
   has_handler h (messageHandlers (snd (removeMessageHandler h w))) = false /\
   (has_handler h (messageHandlers w) = false ->
    snd (removeMessageHandler h (snd (addMessageHandler h w))) = w)) /\
  (snd (addConnectionStatusCallback cb (snd (addConnectionStatusCallback cb w)))
     = snd (addConnectionStatusCallback cb w) /\
   snd (removeConnectionStatusCallback cb
          (snd (removeConnectionStatusCallback cb w)))
     = snd (removeConnectionStatusCallback cb w) /\
   has_callback cb
     (connectionStatusCallbacks (snd (addConnectionStatusCallback cb w))) = true /\
   has_callback cb
     (connectionStatusCallbacks (snd (removeConnectionStatusCallback cb w)))
     = false /\
   (has_callback cb (connectionStatusCallbacks w) = false ->
    snd (removeConnectionStatusCallback cb
           (snd (addConnectionStatusCallback cb w))) = w)).
Proof.
  assert (Hh : forall l : list Handler,
            has_handler h (l ++ [h]) = true).
  { intros l. unfold has_handler. rewrite existsb_app. cbn [existsb].
    rewrite Nat.eqb_refl. apply orb_true_iff. right. reflexivity. }
  assert (Hc : forall l : list Callback,
            has_callback cb (l ++ [cb]) = true).
  { intros l. unfold has_callback. rewrite existsb_app. cbn [existsb].
    rewrite Nat.eqb_refl. apply orb_true_iff. right. reflexivity. }
  split.
  - unfold addMessageHandler, removeMessageHandler, modify. cbn [snd].
    repeat apply conj.
    + destruct (has_handler h (messageHandlers w)) eqn:Hreg.
      * rewrite Hreg. reflexivity.
      * cbn [messageHandlers set_messageHandlers]. rewrite Hh. reflexivity.
    + cbn [messageHandlers set_messageHandlers]. rewrite filter_twice.
      reflexivity.
    + destruct (has_handler h (messageHandlers w)) eqn:Hreg; [exact Hreg|].
      cbn [messageHandlers set_messageHandlers]. apply Hh.
    + cbn [messageHandlers set_messageHandlers]. unfold has_handler.
      apply not_true_iff_false. intros Hex.
      apply existsb_exists in Hex as (x & Hin & Hx).
      apply filter_In in Hin as [_ Hne]. rewrite Hx in Hne. discriminate.
    + intros Hreg. rewrite Hreg. cbn [messageHandlers set_messageHandlers].
      rewrite List.filter_app. cbn [List.filter]. rewrite Nat.eqb_refl.
      cbn [negb]. rewrite app_nil_r, filter_absent.
      * destruct w; reflexivity.
      * rewrite existsb_negb_negb. exact Hreg.
  - unfold addConnectionStatusCallback, removeConnectionStatusCallback, modify.
    cbn [snd]. repeat apply conj.
    + destruct (has_callback cb (connectionStatusCallbacks w)) eqn:Hreg.
      * rewrite Hreg. reflexivity.
      * cbn [connectionStatusCallbacks set_connectionStatusCallbacks].
        rewrite Hc. reflexivity.
    + cbn [connectionStatusCallbacks set_connectionStatusCallbacks].
      rewrite filter_twice. reflexivity.
    + destruct (has_callback cb (connectionStatusCallbacks w)) eqn:Hreg;
        [exact Hreg|].
      cbn [connectionStatusCallbacks set_connectionStatusCallbacks]. apply Hc.
    + cbn [connectionStatusCallbacks set_connectionStatusCallbacks].
      unfold has_callback. apply not_true_iff_false. intros Hex.
      apply existsb_exists in Hex as (x & Hin & Hx).
      apply filter_In in Hin as [_ Hne]. rewrite Hx in Hne. discriminate.
    + intros Hreg. rewrite Hreg.
      cbn [connectionStatusCallbacks set_connectionStatusCallbacks].
      rewrite List.filter_app. cbn [List.filter]. rewrite Nat.eqb_refl.
      cbn [negb]. rewrite app_nil_r, filter_absent.
      * destruct w; reflexivity.
      * rewrite existsb_negb_negb. exact Hreg.
Qed.

(** A listener is registered twice and de-registered once: it is gone, and
    the service is as the constructor left it. *)
Lemma listener_sets_witness :
  after [] [CallAddMessageHandler (quiet_handler 3);
            CallAddMessageHandler (quiet_handler 3);
            CallRemoveMessageHandler (quiet_handler 3)] = constructor [].
Proof.
  change (snd (removeMessageHandler (quiet_handler 3)
            (snd (addMessageHandler (quiet_handler 3)
               (snd (addMessageHandler (quiet_handler 3) (constructor []))))))
          = constructor []).
  rewrite (proj1 (proj1 (listener_sets (quiet_handler 3) (status_callback 0)
                           (constructor [])))).
  apply (proj2 (proj2 (proj2 (proj2 (proj1
           (listener_sets (quiet_handler 3) (status_callback 0)
              (constructor []))))))).
  reflexivity.
Defined.

(** *** Who receives a payload *)

Lemma no_delivery_refl (w : State) : no_delivery w w.
Proof. split; reflexivity. Qed.

Lemma no_delivery_trans (a b c : State) :
  no_delivery a b -> no_delivery b c -> no_delivery a c.
Proof. unfold no_delivery. intros [? ?] [? ?]. split; congruence. Qed.

Lemma no_delivery_connect_try : preserves no_delivery connect_try.
Proof.
  intros w. unfold connect_try, close_existing, new_WebSocket, bind, modify.
  destruct (ws w); cbn [tape set_ws set_sockets];
    destruct (tape w) as [|[|] ?]; split; reflexivity.
Qed.

Lemma no_delivery_notify (status : Status) :
  preserves no_delivery (notifyConnectionStatus status).
Proof.
  intros w. unfold notifyConnectionStatus. rewrite forEach_callback_effect.
  split; reflexivity.
Qed.

Lemma no_delivery_handleReconnect : preserves no_delivery handleReconnect.
Proof.
  intros w. unfold handleReconnect. destruct (_ <? _)%nat; split; reflexivity.
Qed.

Lemma no_delivery_transmit (data : string) : preserves no_delivery (transmit data).
Proof. intros w. unfold transmit. destruct (ws w); split; reflexivity. Qed.

Ltac delivery_facts :=
  first [ exact no_delivery_refl | exact no_delivery_trans
        | exact no_delivery_connect_try | exact no_delivery_notify
        | exact no_delivery_handleReconnect | exact no_delivery_transmit
        | intros; split; reflexivity ].

Section Deliveries.

Variable JSON_parse : string -> option value.

Lemma handler_round_registered (hs : list Handler) (payload : value)
    (n : nat * value) :
  n ∈ handler_round hs payload ->
  existsb (fun h => (hid h =? fst n)%nat) hs = true /\ snd n = payload.
Proof.
  unfold handler_round. intros Hn.
  apply list_elem_of_fmap in Hn as (h & -> & Hh).
  apply reached_sublist in Hh. split; [|reflexivity].
  apply existsb_exists. exists h. split; [apply list_elem_of_In, Hh|].
  apply Nat.eqb_refl.
Qed.

Lemma onmessage_deliveries (f : Frame) (w : State) :
  exists l,
    delivered (snd (onmessage JSON_parse f w)) = delivered w ++ l /\
    forall n, n ∈ l ->
      existsb (fun h => (hid h =? fst n)%nat) (messageHandlers w) = true /\
      (snd n = event_data f \/ decode JSON_parse f = Some (snd n)).
Proof.
  destruct (decode JSON_parse f) as [v|] eqn:Hd.
  - rewrite (onmessage_decoded JSON_parse f w v Hd).
    destruct (handler_throws v w).
    + rewrite !deliver_effect.
      cbn [snd delivered messageHandlers set_delivered].
      exists (handler_round (messageHandlers w) v ++
              handler_round (messageHandlers w) (event_data f)).
      split; [rewrite app_assoc; reflexivity|].
      intros n Hn. apply elem_of_app in Hn as [Hn|Hn];
        apply handler_round_registered in Hn as [Hreg ->]; auto.
    + rewrite deliver_effect. cbn [snd delivered set_delivered].
      exists (handler_round (messageHandlers w) v). split; [reflexivity|].
      intros n Hn. apply handler_round_registered in Hn as [Hreg ->]; auto.
  - rewrite (onmessage_undecoded JSON_parse f w Hd), deliver_effect.
    cbn [snd delivered set_delivered].
    exists (handler_round (messageHandlers w) (event_data f)).
    split; [reflexivity|].
    intros n Hn. apply handler_round_registered in Hn as [Hreg ->]; auto.
Qed.

(** X6.  A message listener is called only during the arrival of a frame,
    only if it is registered when the frame arrives, and only with the
    decoded value of that frame or its raw payload: a listener registered
    after N frames receives none of them, a de-registered listener
    receives nothing more, and no other event calls a listener. *)
Theorem deliveries_only_to_registered (w w' : State) (e : Event) :
  step JSON_parse w e = Some w' ->
  exists l,
    delivered w' = delivered w ++ l /\
    forall n, n ∈ l ->
      existsb (fun h => (hid h =? fst n)%nat) (messageHandlers w) = true /\
      exists i f,
        e = SocketMessage i f /\
        (snd n = event_data f \/ decode JSON_parse f = Some (snd n)).
Proof.
  intros Hstep.
  assert (Hnone : forall w1, delivered w1 = delivered w ->
            exists l, delivered w1 = delivered w ++ l /\
              forall n, n ∈ l ->
                existsb (fun h => (hid h =? fst n)%nat) (messageHandlers w) = true /\
                exists i f,
                  e = SocketMessage i f /\
                  (snd n = event_data f \/ decode JSON_parse f = Some (snd n))).
  { intros w1 H1. exists []. rewrite app_nil_r. split; [exact H1|].
    intros n Hn. inversion Hn. }
  destruct e; simpl in Hstep.
  - destruct (sockets w !! i) as [s|]; [|discriminate]. simpl in Hstep.
    destruct (readyState s); inversion Hstep; subst. apply Hnone.
    enough (H : no_delivery (update_socket i OPEN w)
                  (snd (onopen (update_socket i OPEN w)))) by exact (proj2 H).
    apply (preserves_bind no_delivery); [exact no_delivery_trans| |intros ?].
    { apply preserves_modify. delivery_facts. }
    apply (preserves_onopen_rest no_delivery); delivery_facts.
  - destruct (sockets w !! i) as [s|]; [|discriminate]. simpl in Hstep.
    destruct (onmessage_deliveries f w) as (l & Hl & Hin).
    exists l.
    destruct (readyState s); inversion Hstep; subst; (split; [exact Hl|]);
      intros n Hn; destruct (Hin n Hn) as [Hreg Hp];
      (split; [exact Hreg|]); exists i, f; auto.
  - destruct (sockets w !! i) as [s|]; [|discriminate]. simpl in Hstep.
    assert (Hgo : no_delivery w (snd (onclose
               (if failed then snd (onerror (update_socket i CLOSED w))
                else update_socket i CLOSED w)))).
    { apply (no_delivery_trans _ (update_socket i CLOSED w));
        [split; reflexivity|].
      apply (no_delivery_trans _
               (if failed then snd (onerror (update_socket i CLOSED w))
                else update_socket i CLOSED w)).
      - destruct failed; [|apply no_delivery_refl].
        apply (preserves_onerror no_delivery); delivery_facts.
      - apply (preserves_onclose no_delivery); delivery_facts. }
    destruct (readyState s); inversion Hstep; subst; apply Hnone, (proj2 Hgo).
  - destruct (timers w) as [|n]; inversion Hstep; subst. apply Hnone.
    enough (H : no_delivery (set_timers n w) (snd (connect (set_timers n w))))
      by exact (proj2 H).
    apply (preserves_connect no_delivery); delivery_facts.
  - inversion Hstep; subst. apply Hnone.
    enough (H : no_delivery w (snd (sendMessage mode d w))) by exact (proj2 H).
    apply (preserves_sendMessage no_delivery); delivery_facts.
  - destruct (file d) as [f|]; inversion Hstep; subst. apply Hnone.
    enough (H : no_delivery w (snd (reader_onload mode d f w)))
      by exact (proj2 H).
    apply (preserves_reader_onload no_delivery); delivery_facts.
  - inversion Hstep; subst. apply Hnone. unfold addMessageHandler, modify.
    cbn [snd]. destruct (has_handler h (messageHandlers w)); reflexivity.
  - inversion Hstep; subst. apply Hnone. reflexivity.
  - inversion Hstep; subst. apply Hnone.
    unfold addConnectionStatusCallback, modify. cbn [snd].
    destruct (has_callback cb (connectionStatusCallbacks w)); reflexivity.
  - inversion Hstep; subst. apply Hnone. reflexivity.
  - inversion Hstep; subst. apply Hnone. unfold close.
    destruct (ws w); reflexivity.
Qed.

End Deliveries.

(** A frame arrives before listener 1 is registered and another after:
    listener 1 receives the second only. *)
Lemma deliveries_only_to_registered_witness :
  let w := after [] [CallAddMessageHandler (quiet_handler 0); SocketOpen 0;
                     SocketMessage 0 (TextFrame "first");
                     CallAddMessageHandler (quiet_handler 1)] in
  exists l,
    delivered (after [] [CallAddMessageHandler (quiet_handler 0); SocketOpen 0;
                         SocketMessage 0 (TextFrame "first");
                         CallAddMessageHandler (quiet_handler 1);
                         SocketMessage 0 (TextFrame "second")])
      = delivered w ++ l /\
    delivered w = [(0, VStr "first")] /\
    l = [(0, VStr "second"); (1, VStr "second")].
Proof.
  cbv zeta.
  destruct (deliveries_only_to_registered scenario_parse
              (after [] [CallAddMessageHandler (quiet_handler 0); SocketOpen 0;
                         SocketMessage 0 (TextFrame "first");
                         CallAddMessageHandler (quiet_handler 1)])
              (after [] [CallAddMessageHandler (quiet_handler 0); SocketOpen 0;
                         SocketMessage 0 (TextFrame "first");
                         CallAddMessageHandler (quiet_handler 1);
                         SocketMessage 0 (TextFrame "second")])
              (SocketMessage 0 (TextFrame "second")))
    as (l & Hl & _); [vm_compute; reflexivity|].
  exists l. split; [exact Hl|]. split; [vm_compute; reflexivity|].
  vm_compute in Hl. apply (app_inv_head [(0, VStr "first")]). symmetry. exact Hl.
Defined.

(** *** What a close event does *)

Lemma onerror_effect (w : State) :
  onerror w =
    (if listener_throws disconnected w then Exn else Ret tt,
     set_notified
       (notified w ++ round (connectionStatusCallbacks w) disconnected)
       (set_isConnecting false w)).
Proof.
  unfold onerror, bind, modify, notifyConnectionStatus.
  rewrite forEach_callback_effect. reflexivity.
Qed.

Lemma onclose_effect (w : State) :
  onclose w =
    let w1 :=
      set_notified
        (notified w ++ round (connectionStatusCallbacks w) disconnected)
        (set_isConnecting false w) in
    if listener_throws disconnected w then (Exn, w1) else handleReconnect w1.
Proof.
  unfold onclose, bind at 1, modify at 1. unfold bind, notifyConnectionStatus.
  rewrite forEach_callback_effect. unfold listener_throws.
  cbn [connectionStatusCallbacks set_isConnecting].
  destruct (existsb _ _); reflexivity.
Qed.

Lemma step_close_event (JSON_parse : string -> option value)
    (w w' : State) (i : nat) (failed : bool) :
  step JSON_parse w (SocketClose i failed) = Some w' ->
  w' = snd (onclose (if failed then snd (onerror (update_socket i CLOSED w))
                     else update_socket i CLOSED w)) /\
  exists s, sockets w !! i = Some s /\ readyState s <> CLOSED.
Proof.
  simpl. destruct (sockets w !! i) as [s|]; [|discriminate]. simpl.
  destruct (readyState s) eqn:Hr; intros H; inversion H; subst;
    (split; [reflexivity|]); exists s; (split; [reflexivity|]);
    rewrite Hr; discriminate.
Qed.

Lemma handleReconnect_counters (w : State) :
  let w' := snd (handleReconnect w) in
  notified w' = notified w /\
  ((reconnectAttempts w < 5)%nat ->
   reconnectAttempts w' = S (reconnectAttempts w) /\ timers w' = S (timers w)) /\
  (reconnectAttempts w = 5 ->
   reconnectAttempts w' = 5 /\ timers w' = timers w).
Proof.
  cbv zeta. unfold handleReconnect.
  destruct (reconnectAttempts w <? maxReconnectAttempts)%nat eqn:Hb;
    unfold maxReconnectAttempts in Hb.
  - apply Nat.ltb_lt in Hb. split; [reflexivity|].
    split; [intros _; split; reflexivity|intros Heq; lia].
  - apply Nat.ltb_ge in Hb. cbn [snd ret].
    split; [reflexivity|]. split; [intros Hlt; lia|].
    intros Heq. split; [exact Heq|reflexivity].
Qed.

(** A clean close event while no listener throws and the counter is below
    the maximum. *)
Lemma close_event_facts (w : State) (i : nat) :
  listener_throws disconnected w = false ->
  (reconnectAttempts w < 5)%nat ->
  let w' := snd (onclose (update_socket i CLOSED w)) in
  timers w' = S (timers w) /\ isConnecting w' = false /\
  ctorCalls w' = ctorCalls w.
Proof.
  intros Hquiet Hlt. cbv zeta. rewrite onclose_effect. cbv zeta.
  change (listener_throws disconnected (update_socket i CLOSED w))
    with (listener_throws disconnected w).
  rewrite Hquiet. unfold handleReconnect.
  cbn [reconnectAttempts set_notified set_isConnecting update_socket set_sockets].
  destruct (reconnectAttempts w <? maxReconnectAttempts)%nat eqn:Hb.
  - repeat split.
  - apply Nat.ltb_ge in Hb. unfold maxReconnectAttempts in Hb. lia.
Qed.

Section CloseEvents.

Variable JSON_parse : string -> option value.

(** X7.  When a connection-status listener throws on being told
    [disconnected], the close event of a socket sets no reconnect timer
    and leaves the failed-attempt counter: the exception of the listener
    leaves [onclose] before [handleReconnect] is reached. *)
Theorem throwing_listener_stops_reconnect (w w' : State) (i : nat) (failed : bool) :
  listener_throws disconnected w = true ->
  step JSON_parse w (SocketClose i failed) = Some w' ->
  timers w' = timers w /\
  reconnectAttempts w' = reconnectAttempts w /\
  isConnecting w' = false.
Proof.
  intros Hthrows Hstep.
  destruct (step_close_event JSON_parse w w' i failed Hstep) as [-> _].
  rewrite onclose_effect. cbv zeta.
  assert (Hsame : listener_throws disconnected
            (if failed then snd (onerror (update_socket i CLOSED w))
             else update_socket i CLOSED w) = true).
  { destruct failed; [rewrite onerror_effect|]; exact Hthrows. }
  rewrite Hsame. cbn [snd].
  destruct failed; [rewrite onerror_effect|]; repeat split.
Qed.

(** X8.  When no connection-status listener throws, the close event of a
    socket tells every listener [disconnected], in registration order:
    twice when the socket failed (once from [onerror], once from
    [onclose]), once otherwise.  It then raises the failed-attempt counter
    by one and sets one reconnect timer if the counter was below 5, and
    leaves both if the counter was at 5. *)
Theorem close_event_notifies_and_schedules (w w' : State) (i : nat) (failed : bool) :
  listener_throws disconnected w = false ->
  step JSON_parse w (SocketClose i failed) = Some w' ->
  let told := map (fun cb => (cid cb, disconnected)) (connectionStatusCallbacks w) in
  notified w' = notified w ++ (if failed then told ++ told else told) /\
  ((reconnectAttempts w < 5)%nat ->
   reconnectAttempts w' = S (reconnectAttempts w) /\ timers w' = S (timers w)) /\
  (reconnectAttempts w = 5 ->
   reconnectAttempts w' = 5 /\ timers w' = timers w).
Proof.
  intros Hquiet Hstep. cbv zeta.
  destruct (step_close_event JSON_parse w w' i failed Hstep) as [-> _].
  assert (Hround : round (connectionStatusCallbacks w) disconnected =
            map (fun cb => (cid cb, disconnected)) (connectionStatusCallbacks w)).
  { unfold round. rewrite reached_all by exact Hquiet. reflexivity. }
  set (told := map (fun cb => (cid cb, disconnected))
                 (connectionStatusCallbacks w)) in *.
  set (w1 := if failed then snd (onerror (update_socket i CLOSED w))
             else update_socket i CLOSED w).
  assert (H1 : reconnectAttempts w1 = reconnectAttempts w /\
               timers w1 = timers w /\
               connectionStatusCallbacks w1 = connectionStatusCallbacks w /\
               notified w1 = notified w ++ (if failed then told else [])).
  { unfold w1. destruct failed; [rewrite onerror_effect|];
      cbn [snd reconnectAttempts timers notified connectionStatusCallbacks
           set_notified set_isConnecting update_socket set_sockets];
      rewrite ?Hround, ?app_nil_r; repeat split. }
  destruct H1 as (Ha1 & Ht1 & Hcb1 & Hn1).
  rewrite onclose_effect. cbv zeta.
  replace (listener_throws disconnected w1) with false
    by (unfold listener_throws; rewrite Hcb1; symmetry; exact Hquiet).
  match goal with |- context [handleReconnect ?X] =>
    destruct (handleReconnect_counters X) as (Hn & Hlow & Hmax) end.
  cbn [reconnectAttempts timers notified set_notified set_isConnecting]
    in Hn, Hlow, Hmax.
  rewrite Hn, Hn1, Hcb1, Hround, Ha1, Ht1 in *.
  split; [|split].
  - destruct failed; rewrite <- ?app_assoc, ?app_nil_r; reflexivity.
  - exact Hlow.
  - exact Hmax.
Qed.

(** X9.  [close()] does not end the reconnecting.  When the current socket
    is connecting or open, no status listener throws and the counter is
    below 5, then after [close()] the status is [disconnected], the close
    event of the closed socket sets a reconnect timer, and the timer calls
    [new WebSocket]: unless that constructor throws, a new connecting
    socket is created and becomes the current one. *)
Theorem close_is_followed_by_reconnect (w : State) (i : nat) (s : Socket) :
  ws w = Some i -> sockets w !! i = Some s -> live s = true ->
  listener_throws disconnected w = false ->
  (reconnectAttempts w < 5)%nat ->
  exists w1 w2 w3,
    step JSON_parse w CallClose = Some w1 /\
    getConnectionStatus w1 = disconnected /\
    step JSON_parse w1 (SocketClose i false) = Some w2 /\
    timers w2 = S (timers w) /\
    step JSON_parse w2 TimerFires = Some w3 /\
    ctorCalls w3 = S (ctorCalls w) /\
    (constructor_throws w = false ->
     length (sockets w3) = S (length (sockets w)) /\
     ws w3 = Some (length (sockets w)) /\
     sockets w3 !! length (sockets w) =
       Some {| readyState := CONNECTING; sent := [] |}).
Proof.
  intros Hws Hs Hlive Hquiet Hlt.
  set (w1 := snd (close w)).
  assert (Hs1 : sockets w1 !! i = Some (socket_close s)).
  { unfold w1, close. rewrite Hws. cbn [snd sockets set_ws set_sockets].
    rewrite list_lookup_alter_eq, Hs. reflexivity. }
  assert (Hr1 : readyState (socket_close s) = CLOSING).
  { unfold socket_close, live in *. destruct (readyState s); try discriminate;
      reflexivity. }
  assert (Hstep2 : step JSON_parse w1 (SocketClose i false)
                   = Some (snd (onclose (update_socket i CLOSED w1)))).
  { simpl. rewrite Hs1. simpl. rewrite Hr1. reflexivity. }
  set (w2 := snd (onclose (update_socket i CLOSED w1))) in *.
  assert (Hw1 : reconnectAttempts w1 = reconnectAttempts w /\
                timers w1 = timers w /\ ctorCalls w1 = ctorCalls w /\
                connectionStatusCallbacks w1 = connectionStatusCallbacks w /\
                ws w1 = None /\ tape w1 = tape w /\
                length (sockets w1) = length (sockets w)).
  { unfold w1, close. rewrite Hws. cbn [snd sockets set_ws set_sockets].
    rewrite length_alter. repeat split. }
  destruct Hw1 as (Ha1 & Ht1 & Hn1 & Hcb1 & Hws1 & Htape1 & Hlen1).
  assert (Hquiet1 : listener_throws disconnected w1 = false)
    by (unfold listener_throws; rewrite Hcb1; exact Hquiet).
  assert (Hlt1 : (reconnectAttempts w1 < 5)%nat) by lia.
  destruct (close_event_facts w1 i Hquiet1 Hlt1) as (Ht2 & Hc2 & Hn2).
  fold w2 in Ht2, Hc2, Hn2.
  assert (Hw2 : tape w2 = tape w /\ length (sockets w2) = length (sockets w) /\
                ws w2 = None).
  { unfold w2. rewrite onclose_effect. cbv zeta.
    change (listener_throws disconnected (update_socket i CLOSED w1))
      with (listener_throws disconnected w1).
    rewrite Hquiet1. unfold handleReconnect.
    destruct (_ <? _)%nat; cbv [bind modify setTimeout_connect ret];
      cbn [snd ret tape sockets ws set_timers set_reconnectAttempts
             set_notified set_isConnecting update_socket set_sockets];
      rewrite length_alter; auto. }
  destruct Hw2 as (Htape2 & Hlen2 & Hws2).
  exists w1, w2, (snd (connect (set_timers (timers w1) w2))).
  split; [reflexivity|].
  split; [unfold getConnectionStatus, is_open; rewrite Hws1; reflexivity|].
  split; [exact Hstep2|]. split; [lia|].
  split; [simpl; rewrite Ht2; reflexivity|]. split.
  - destruct (connect_idle (set_timers (timers w1) w2) Hc2) as (_ & Hn & _).
    rewrite Hn. cbn [ctorCalls set_timers]. lia.
  - intros Hctor.
    rewrite (connect_creates (set_timers (timers w1) w2));
      [|exact Hc2
       |unfold constructor_throws in *; cbn [tape set_timers];
        rewrite Htape2; exact Hctor].
    cbn [snd sockets ws set_ws set_sockets set_ctor set_isConnecting set_timers].
    assert (Hclosed : closed_sockets (set_timers (timers w1) w2) = sockets w2).
    { unfold closed_sockets. cbn [ws sockets set_timers]. rewrite Hws2.
      reflexivity. }
    rewrite Hclosed, length_app, Hlen2. cbn [length].
    split; [lia|]. split; [reflexivity|].
    apply list_lookup_middle. symmetry. exact Hlen2.
Qed.

(** X10.  A reconnect timer that fires while the connection is open and no
    attempt is in flight closes the open socket, and the connection is no
    longer open.  When [new WebSocket] does not throw, the socket is
    replaced with a new connecting one; when it throws, no socket is
    created and none is current. *)
Theorem timer_closes_open_socket (w : State) (i n : nat) (s : Socket) :
  ws w = Some i -> sockets w !! i = Some s -> readyState s = OPEN ->
  isConnecting w = false -> timers w = S n ->
  exists w',
    step JSON_parse w TimerFires = Some w' /\
    sockets w' !! i = Some {| readyState := CLOSING; sent := sent s |} /\
    is_open w' = false /\
    (constructor_throws w = false ->
     ws w' = Some (length (sockets w)) /\
     sockets w' !! length (sockets w) =
       Some {| readyState := CONNECTING; sent := [] |} /\
     isConnecting w' = true) /\
    (constructor_throws w = true ->
     ws w' = None /\ length (sockets w') = length (sockets w)).
Proof.
  intros Hws Hs Hr Hc Ht.
  exists (snd (connect (set_timers n w))).
  split; [simpl; rewrite Ht; reflexivity|].
  assert (Hlen : length (closed_sockets (set_timers n w)) = length (sockets w)).
  { unfold closed_sockets. cbn [ws sockets set_timers]. rewrite Hws.
    apply length_alter. }
  assert (Hi : closed_sockets (set_timers n w) !! i =
               Some {| readyState := CLOSING; sent := sent s |}).
  { unfold closed_sockets. cbn [ws sockets set_timers]. rewrite Hws.
    rewrite list_lookup_alter_eq, Hs. cbn [fmap option_fmap option_map].
    unfold socket_close. rewrite Hr. reflexivity. }
  destruct (connect_idle (set_timers n w) Hc) as (_ & _ & Hopen & _).
  destruct (constructor_throws w) eqn:Hctor.
  - assert (Hfail : ws (snd (connect (set_timers n w))) = None /\
                    sockets (snd (connect (set_timers n w))) =
                      closed_sockets (set_timers n w)).
    { rewrite (connect_fails (set_timers n w) Hc Hctor). cbv zeta.
      destruct (listener_throws disconnected (set_timers n w)).
      - split; reflexivity.
      - match goal with |- context [handleReconnect ?X] =>
          destruct (handleReconnect_frame X) as (_ & Hw & Hso & _) end.
        rewrite Hw, Hso. split; reflexivity. }
    destruct Hfail as [Hws' Hso']. rewrite Hso'.
    split; [exact Hi|]. split; [exact Hopen|].
    split; [discriminate|]. intros _. split; [exact Hws'|exact Hlen].
  - rewrite (connect_creates (set_timers n w) Hc Hctor) in *. cbn [snd] in *.
    cbn [sockets ws isConnecting set_ws set_sockets set_ctor set_isConnecting].
    split.
    { rewrite lookup_app_l by (rewrite Hlen; apply (lookup_lt_Some _ _ _ Hs)).
      exact Hi. }
    split; [exact Hopen|]. split; [|discriminate].
    intros _. split; [reflexivity|]. split; [|reflexivity].
    apply list_lookup_middle. symmetry. exact Hlen.
Qed.

End CloseEvents.

(** The first handshake fails while a throwing status listener is
    registered: no timer is set and the counter stays at 0. *)
Lemma throwing_listener_stops_reconnect_witness :
  let w := after [] [CallAddConnectionStatusCallback (failing_callback 0)] in
  let w' := after [] [CallAddConnectionStatusCallback (failing_callback 0);
                      SocketClose 0 true] in
  timers w' = 0 /\ reconnectAttempts w' = 0 /\ isConnecting w' = false.
Proof.
  cbv zeta.
  destruct (throwing_listener_stops_reconnect scenario_parse
              (after [] [CallAddConnectionStatusCallback (failing_callback 0)])
              (after [] [CallAddConnectionStatusCallback (failing_callback 0);
                         SocketClose 0 true]) 0 true)
    as (Ht & Ha & Hc); try (vm_compute; reflexivity).
  rewrite Ht, Ha, Hc. vm_compute. repeat split.
Defined.

(** The first handshake fails while the hook's callback is registered: the
    callback is told [disconnected] twice, the counter is 1 and one timer
    is set. *)
Lemma close_event_notifies_and_schedules_witness :
  let w' := after [] [CallAddConnectionStatusCallback (status_callback 7);
                      SocketClose 0 true] in
  notified w' = [(7, disconnected); (7, disconnected)] /\
  reconnectAttempts w' = 1 /\ timers w' = 1.
Proof.
  cbv zeta.
  destruct (close_event_notifies_and_schedules scenario_parse
              (after [] [CallAddConnectionStatusCallback (status_callback 7)])
              (after [] [CallAddConnectionStatusCallback (status_callback 7);
                         SocketClose 0 true]) 0 true)
    as (Hn & Hlow & _); try (vm_compute; reflexivity).
  destruct Hlow as [Ha Ht]; [vm_compute; lia|].
  rewrite Hn, Ha, Ht. vm_compute. repeat split.
Defined.

(** The first socket opens and [close()] is called: the close event sets
    a timer, and the timer creates a second socket, which is connecting. *)
Lemma close_is_followed_by_reconnect_witness :
  exists w1 w2 w3,
    step scenario_parse (after [] [SocketOpen 0]) CallClose = Some w1 /\
    getConnectionStatus w1 = disconnected /\
    step scenario_parse w1 (SocketClose 0 false) = Some w2 /\
    timers w2 = S (timers (after [] [SocketOpen 0])) /\
    step scenario_parse w2 TimerFires = Some w3 /\
    ctorCalls w3 = S (ctorCalls (after [] [SocketOpen 0])) /\
    (constructor_throws (after [] [SocketOpen 0]) = false ->
     length (sockets w3) = S (length (sockets (after [] [SocketOpen 0]))) /\
     ws w3 = Some (length (sockets (after [] [SocketOpen 0]))) /\
     sockets w3 !! length (sockets (after [] [SocketOpen 0])) =
       Some {| readyState := CONNECTING; sent := [] |}).
Proof.
  apply (close_is_followed_by_reconnect scenario_parse
           (after [] [SocketOpen 0]) 0 {| readyState := OPEN; sent := [] |});
    try (vm_compute; reflexivity).
  vm_compute. lia.
Defined.

(** A first handshake fails and sets a timer; a message starts a second
    socket, which opens; the timer then fires and closes it. *)
Lemma timer_closes_open_socket_witness :
  let w := after [] reopened_run in
  possible [] reopened_run = true /\
  is_open w = true /\
  exists w',
    step scenario_parse w TimerFires = Some w' /\
    map readyState (sockets w') = [CLOSED; CLOSING; CONNECTING] /\
    is_open w' = false.
Proof.
  cbv zeta. split; [vm_compute; reflexivity|]. split; [vm_compute; reflexivity|].
  destruct (timer_closes_open_socket scenario_parse
              (after [] reopened_run) 1 0
              {| readyState := OPEN; sent := [text_frame "x"] |})
    as (w' & Hstep & _ & Hopen & _); try (vm_compute; reflexivity).
  exists w'. split; [exact Hstep|]. split; [|exact Hopen].
  vm_compute in Hstep. inversion Hstep; subst w'. vm_compute. reflexivity.
Defined.

(** *** The re-entrancy flag *)

Lemma same_flag_refl (w : State) : same_flag w w.
Proof. reflexivity. Qed.

Lemma same_flag_trans (a b c : State) :
  same_flag a b -> same_flag b c -> same_flag a c.
Proof. unfold same_flag. congruence. Qed.

Lemma same_flag_notify (status : Status) :
  preserves same_flag (notifyConnectionStatus status).
Proof.
  intros w. unfold notifyConnectionStatus. rewrite forEach_callback_effect.
  reflexivity.
Qed.

Lemma same_flag_handleReconnect : preserves same_flag handleReconnect.
Proof.
  intros w. unfold handleReconnect. destruct (_ <? _)%nat; reflexivity.
Qed.

Lemma same_flag_processMessageQueue : preserves same_flag processMessageQueue.
Proof.
  intros w. destruct (processMessageQueue_effect w)
    as [[_ ->]|(i & s & _ & _ & _ & ->)]; reflexivity.
Qed.

Lemma onopen_flag (w : State) : isConnecting (snd (onopen w)) = false.
Proof.
  unfold onopen, bind at 1 2, modify at 1 2.
  assert (H : same_flag (set_isConnecting false (set_reconnectAttempts 0 w))
                (snd ((processMessageQueue ;; notifyConnectionStatus connected)
                        (set_isConnecting false (set_reconnectAttempts 0 w))))).
  { apply (preserves_bind same_flag same_flag_trans); [|intros ?].
    - apply same_flag_processMessageQueue.
    - apply same_flag_notify. }
  exact H.
Qed.

Lemma onclose_flag (w : State) : isConnecting (snd (onclose w)) = false.
Proof.
  rewrite onclose_effect. cbv zeta.
  destruct (listener_throws disconnected w); [reflexivity|].
  match goal with |- context [handleReconnect ?X] =>
    rewrite (same_flag_handleReconnect X) end.
  reflexivity.
Qed.

Lemma flag_backed_sockets (w w' : State) :
  isConnecting w' = isConnecting w ->
  (forall j s, sockets w !! j = Some s -> in_transition s = true ->
     exists s', sockets w' !! j = Some s' /\ in_transition s' = true) ->
  flag_backed w -> flag_backed w'.
Proof.
  intros Hflag Hsock Hw Hc. rewrite Hflag in Hc.
  destruct (Hw Hc) as (j & s & Hs & Ht).
  destruct (Hsock j s Hs Ht) as (s' & Hs' & Ht'). eauto.
Qed.

Lemma flag_backed_connect (w : State) :
  flag_backed w -> flag_backed (snd (connect w)).
Proof.
  intros Hw. destruct (isConnecting w) eqn:Hc.
  - rewrite connect_in_flight by exact Hc. exact Hw.
  - destruct (constructor_throws w) eqn:Hctor.
    + intros Hflag. exfalso.
      rewrite (connect_fails w Hc Hctor) in Hflag. cbv zeta in Hflag.
      destruct (listener_throws disconnected w).
      * cbn [snd isConnecting set_notified set_ws set_sockets set_ctor] in Hflag.
        congruence.
      * match type of Hflag with context [handleReconnect ?X] =>
          rewrite (same_flag_handleReconnect X) in Hflag end.
        cbn [isConnecting set_notified set_ws set_sockets set_ctor] in Hflag.
        congruence.
    + intros _. rewrite (connect_creates w Hc Hctor). cbn [snd sockets set_ws set_sockets].
      exists (length (closed_sockets w)), {| readyState := CONNECTING; sent := [] |}.
      split; [apply list_lookup_middle; reflexivity|reflexivity].
Qed.

Lemma flag_backed_send (data : string) (w : State) :
  flag_backed w -> flag_backed (snd (send data w)).
Proof.
  intros Hw. destruct (is_open w) eqn:Hopen.
  - apply is_open_true in Hopen as (i & s & Hws & Hs & Hr).
    rewrite (send_open data w i s Hws Hs Hr). cbn [snd].
    revert Hw. apply flag_backed_sockets; [reflexivity|].
    intros j s0 Hj Ht. cbn [sockets set_sockets].
    destruct (decide (i = j)) as [->|Hne].
    + rewrite Hs in Hj. inversion Hj; subst s0.
      unfold in_transition in Ht. rewrite Hr in Ht. discriminate.
    + exists s0. rewrite list_lookup_insert_ne by exact Hne. auto.
  - rewrite (send_closed data w Hopen). cbv zeta.
    destruct (isConnecting w) eqn:Hc.
    + revert Hw. apply flag_backed_sockets; [reflexivity|]. eauto.
    + apply flag_backed_connect. intros Hflag.
      cbn [isConnecting set_messageQueue] in Hflag. congruence.
Qed.

Section Flag.

Variable JSON_parse : string -> option value.

Lemma step_flag_backed (w w' : State) (e : Event) :
  step JSON_parse w e = Some w' -> flag_backed w -> flag_backed w'.
Proof.
  intros Hstep Hw. destruct e.
  - simpl in Hstep. destruct (sockets w !! i) as [s|]; [|discriminate].
    simpl in Hstep. destruct (readyState s); inversion Hstep; subst.
    intros Hflag. rewrite onopen_flag in Hflag. discriminate.
  - simpl in Hstep. destruct (sockets w !! i) as [s|]; [|discriminate].
    simpl in Hstep.
    assert (H : same_link w (snd (onmessage JSON_parse f w)) /\
                same_flag w (snd (onmessage JSON_parse f w))).
    { split.
      - apply (preserves_onmessage same_link); link_facts.
      - apply (preserves_onmessage same_flag);
          first [exact same_flag_refl | exact same_flag_trans
                | intros p w0; rewrite deliver_effect; reflexivity]. }
    destruct H as [(_ & Hs & _) Hf].
    destruct (readyState s); inversion Hstep; subst; revert Hw;
      apply flag_backed_sockets; try exact Hf; rewrite Hs; eauto.
  - destruct (step_close_event JSON_parse w w' i failed Hstep) as [-> _].
    intros Hflag. rewrite onclose_flag in Hflag. discriminate.
  - simpl in Hstep. destruct (timers w) as [|n]; inversion Hstep; subst.
    apply flag_backed_connect. exact Hw.
  - simpl in Hstep. inversion Hstep; subst. unfold sendMessage.
    destruct (file d); [exact Hw|].
    rewrite send_and_settle_effect. apply flag_backed_send, Hw.
  - simpl in Hstep. destruct (file d) as [f|]; inversion Hstep; subst.
    unfold reader_onload. rewrite send_and_settle_effect.
    apply flag_backed_send, Hw.
  - simpl in Hstep. inversion Hstep; subst. unfold addMessageHandler, modify.
    cbn [snd]. destruct (has_handler h (messageHandlers w)); exact Hw.
  - simpl in Hstep. inversion Hstep; subst. exact Hw.
  - simpl in Hstep. inversion Hstep; subst.
    unfold addConnectionStatusCallback, modify. cbn [snd].
    destruct (has_callback cb (connectionStatusCallbacks w)); exact Hw.
  - simpl in Hstep. inversion Hstep; subst. exact Hw.
  - simpl in Hstep. inversion Hstep; subst. unfold close.
    destruct (ws w) as [i|]; cbn [snd]; [|exact Hw].
    revert Hw. apply flag_backed_sockets; [reflexivity|].
    intros j s Hj Ht. cbn [sockets set_ws set_sockets].
    destruct (decide (i = j)) as [->|Hne].
    + exists (socket_close s). rewrite list_lookup_alter_eq, Hj.
      split; [reflexivity|]. unfold socket_close, in_transition in *.
      destruct (readyState s) eqn:Hr; try discriminate;
        cbn [readyState]; rewrite ?Hr; reflexivity.
    + exists s. rewrite list_lookup_alter_ne by exact Hne. auto.
Qed.

(** X11.  In every state the service can reach, the re-entrancy flag is set
    only while some socket is connecting or closing.  The [open] or
    [close] event of that socket clears the flag, so the flag never stays
    set with nothing left to clear it, and [send] is never kept from
    starting a connection attempt for good. *)
Theorem flag_never_stuck (w : State) :
  reachable JSON_parse w -> isConnecting w = true ->
  exists i s,
    sockets w !! i = Some s /\
    (readyState s = CONNECTING \/ readyState s = CLOSING) /\
    forall w' failed,
      step JSON_parse w (SocketClose i failed) = Some w' ->
      isConnecting w' = false.
Proof.
  intros (outcomes & evs & Hrun) Hflag.
  assert (H0 : flag_backed (constructor outcomes)).
  { unfold constructor. apply flag_backed_connect. intros H. discriminate. }
  assert (Hw : flag_backed w).
  { revert Hrun H0. generalize (constructor outcomes) as w0.
    induction evs as [|e rest IH]; intros w0 Hrun H0; simpl in Hrun.
    - inversion Hrun; subst. exact H0.
    - destruct (step JSON_parse w0 e) as [w1|] eqn:Hstep; [|discriminate].
      apply (IH w1 Hrun), (step_flag_backed w0 w1 e Hstep H0). }
  destruct (Hw Hflag) as (i & s & Hs & Ht).
  exists i, s. split; [exact Hs|]. split.
  - unfold in_transition in Ht. destruct (readyState s); try discriminate; auto.
  - intros w' failed Hstep.
    destruct (step_close_event JSON_parse w w' i failed Hstep) as [-> _].
    apply onclose_flag.
Qed.

End Flag.

(** [close()] is called during the first handshake: [this.ws] is null and
    the flag is still set, backed by the closing socket 0. *)
Lemma flag_never_stuck_witness :
  let w := after [] [CallClose] in
  ws w = None /\ isConnecting w = true /\
  exists i s,
    sockets w !! i = Some s /\
    (readyState s = CONNECTING \/ readyState s = CLOSING).
Proof.
  cbv zeta. split; [vm_compute; reflexivity|]. split; [vm_compute; reflexivity|].
  destruct (flag_never_stuck scenario_parse (after [] [CallClose]))
    as (i & s & Hs & Hr & _).
  - exists [], [CallClose]. vm_compute. reflexivity.
  - vm_compute. reflexivity.
  - exists i, s. split; assumption.
Defined.

End WSMoreFacts.

(** ** The order of the outbound frames *)

Module WSOrderFacts.
Import JS WS WSMore WSFacts WSMoreFacts.
Local Open Scope list_scope.

Lemma transmitted_alter (f : Socket -> Socket) (i : nat) (w : State) :
  (forall s, sent (f s) = sent s) ->
  transmitted (set_sockets (alter f i (sockets w)) w) = transmitted w.
Proof.
  intros Hf. unfold transmitted. cbn [sockets set_sockets].
  rewrite sent_alter_same by exact Hf. reflexivity.
Qed.

(** A frame handed to the socket created last comes last. *)
Lemma transmitted_insert_last (l : list Socket) (i : nat) (s : Socket)
    (r : ReadyState) (extra : list string) :
  l !! i = Some s -> S i = length l ->
  concat (map sent (<[i := {| readyState := r; sent := sent s ++ extra |}]> l))
    = concat (map sent l) ++ extra.
Proof.
  revert i. induction l as [|a l IH]; intros [|i] Hs Hlen; simpl in *;
    try discriminate.
  - inversion Hs; subst a. destruct l; [|discriminate]. simpl.
    rewrite !app_nil_r. reflexivity.
  - rewrite (IH i Hs) by lia. apply app_assoc.
Qed.

(** *** Events that transmit nothing and leave the queue *)

Lemma same_order_refl (w : State) : same_order w w.
Proof. split; reflexivity. Qed.

Lemma same_order_trans (a b c : State) :
  same_order a b -> same_order b c -> same_order a c.
Proof. unfold same_order. intros [? ?] [? ?]. split; congruence. Qed.

Lemma same_order_eq (w w' : State) :
  map sent (sockets w') = map sent (sockets w) ->
  messageQueue w' = messageQueue w -> same_order w w'.
Proof. unfold same_order, transmitted. intros -> ->. split; reflexivity. Qed.

Lemma same_order_connect_try : preserves same_order connect_try.
Proof.
  intros w. unfold connect_try, close_existing, new_WebSocket, bind, modify.
  destruct (ws w); cbn [tape sockets set_ws set_sockets];
    destruct (tape w) as [|[|] ?]; split;
    unfold transmitted;
    cbn [snd messageQueue sockets set_ws set_sockets set_ctor];
    rewrite ?map_app, ?concat_app, ?sent_alter_same; cbn [map concat sent];
    rewrite ?app_nil_r; try reflexivity;
    try (intros s0; unfold socket_close; destruct (readyState s0); reflexivity).
Qed.

Lemma same_order_notify (status : Status) :
  preserves same_order (notifyConnectionStatus status).
Proof.
  intros w. unfold notifyConnectionStatus. rewrite forEach_callback_effect.
  split; reflexivity.
Qed.

Lemma same_order_deliver (payload : value) : preserves same_order (deliver payload).
Proof. intros w. rewrite deliver_effect. split; reflexivity. Qed.

Lemma same_order_handleReconnect : preserves same_order handleReconnect.
Proof.
  intros w. unfold handleReconnect. destruct (_ <? _)%nat; split; reflexivity.
Qed.

Ltac order_facts :=
  first [ exact same_order_refl | exact same_order_trans
        | exact same_order_connect_try | exact same_order_notify
        | exact same_order_deliver | exact same_order_handleReconnect
        | intros; split; reflexivity ].

Lemma same_order_connect : preserves same_order connect.
Proof. apply (preserves_connect same_order); order_facts. Qed.

(** *** The current socket is the last one *)

Lemma current_is_last_same (w w' : State) :
  length (sockets w') = length (sockets w) -> ws w' = ws w ->
  keeps current_is_last w w'.
Proof. unfold keeps, current_is_last. intros -> ->. auto. Qed.

Lemma current_is_last_connect_try :
  preserves (keeps current_is_last) connect_try.
Proof.
  intros w _. unfold connect_try, close_existing, new_WebSocket, bind, modify.
  destruct (ws w) eqn:Hws; cbn [tape sockets set_ws set_sockets];
    destruct (tape w) as [|[|] ?]; intros j;
    cbn [snd ws sockets set_ws set_sockets set_ctor]; intros Hj;
    try discriminate Hj; try congruence; inversion Hj; subst;
    rewrite ?length_app, ?length_alter; cbn [length]; lia.
Qed.

Lemma current_is_last_notify (status : Status) :
  preserves (keeps current_is_last) (notifyConnectionStatus status).
Proof.
  intros w. unfold notifyConnectionStatus. rewrite forEach_callback_effect.
  apply current_is_last_same; reflexivity.
Qed.

Lemma current_is_last_deliver (payload : value) :
  preserves (keeps current_is_last) (deliver payload).
Proof.
  intros w. rewrite deliver_effect. apply current_is_last_same; reflexivity.
Qed.

Lemma current_is_last_handleReconnect :
  preserves (keeps current_is_last) handleReconnect.
Proof.
  intros w. unfold handleReconnect.
  destruct (_ <? _)%nat; apply current_is_last_same; reflexivity.
Qed.

Lemma current_is_last_transmit (data : string) :
  preserves (keeps current_is_last) (transmit data).
Proof.
  intros w. unfold transmit. destruct (ws w) as [i|];
    apply current_is_last_same; cbn [snd sockets ws set_sockets];
    rewrite ?length_alter; reflexivity.
Qed.

Ltac last_facts :=
  first [ exact (keeps_refl current_is_last)
        | exact (keeps_trans current_is_last)
        | exact current_is_last_connect_try
        | exact current_is_last_notify | exact current_is_last_deliver
        | exact current_is_last_handleReconnect
        | exact current_is_last_transmit
        | intros; apply current_is_last_same; reflexivity ].

Section Order.

Variable JSON_parse : string -> option value.

Lemma step_current_is_last (w w' : State) (e : Event) :
  step JSON_parse w e = Some w' -> current_is_last w -> current_is_last w'.
Proof.
  intros Hstep Hw.
  assert (Hup : forall i r, current_is_last (update_socket i r w)).
  { intros i r. revert Hw. apply current_is_last_same;
      cbn [update_socket sockets ws set_sockets]; rewrite ?length_alter;
      reflexivity. }
  destruct e; simpl in Hstep.
  - destruct (sockets w !! i) as [s|]; [|discriminate]. simpl in Hstep.
    destruct (readyState s); inversion Hstep; subst.
    generalize (Hup i OPEN).
    apply (preserves_bind (keeps current_is_last)); [last_facts| |intros _].
    { apply preserves_modify. last_facts. }
    apply (preserves_onopen_rest (keeps current_is_last)); last_facts.
  - destruct (sockets w !! i) as [s|]; [|discriminate]. simpl in Hstep.
    destruct (readyState s); inversion Hstep; subst; revert Hw;
      apply (preserves_onmessage (keeps current_is_last)); last_facts.
  - destruct (sockets w !! i) as [s|]; [|discriminate]. simpl in Hstep.
    assert (Hgo : current_is_last (snd (onclose
               (if failed then snd (onerror (update_socket i CLOSED w))
                else update_socket i CLOSED w)))).
    { generalize (Hup i CLOSED).
      apply (keeps_trans current_is_last _
               (if failed then snd (onerror (update_socket i CLOSED w))
                else update_socket i CLOSED w)).
      - destruct failed; [|apply keeps_refl].
        apply (preserves_onerror (keeps current_is_last)); last_facts.
      - apply (preserves_onclose (keeps current_is_last)); last_facts. }
    destruct (readyState s); inversion Hstep; subst; exact Hgo.
  - destruct (timers w) as [|n]; inversion Hstep; subst.
    assert (H1 : current_is_last (set_timers n w)) by exact Hw.
    revert H1. apply (preserves_connect (keeps current_is_last)); last_facts.
  - inversion Hstep; subst. revert Hw.
    apply (preserves_sendMessage (keeps current_is_last)); last_facts.
  - destruct (file d) as [f|]; inversion Hstep; subst. revert Hw.
    apply (preserves_reader_onload (keeps current_is_last)); last_facts.
  - inversion Hstep; subst. unfold addMessageHandler, modify; simpl.
    destruct (has_handler h (messageHandlers w)); exact Hw.
  - inversion Hstep; subst. exact Hw.
  - inversion Hstep; subst. unfold addConnectionStatusCallback, modify; simpl.
    destruct (has_callback cb (connectionStatusCallbacks w)); exact Hw.
  - inversion Hstep; subst. exact Hw.
  - inversion Hstep; subst. unfold close.
    destruct (ws w); [|exact Hw]. intros j Hj. discriminate Hj.
Qed.

(** What holds of every state the service can reach. *)
Lemma reachable_invariants (w : State) :
  reachable JSON_parse w ->
  live_is_current w /\ open_queue_empty w /\ current_is_last w.
Proof.
  intros (outcomes & evs & Hrun).
  assert (H0 : live_is_current (constructor outcomes) /\
               open_queue_empty (constructor outcomes) /\
               current_is_last (constructor outcomes)).
  { split; [apply constructor_live_is_current|]. split.
    - intros Hopen. pose proof (constructor_not_open outcomes). congruence.
    - unfold constructor.
      match goal with
      | |- current_is_last (snd (connect ?w0)) =>
          assert (H0 : current_is_last w0) by (intros j Hj; discriminate Hj);
          revert H0
      end.
      apply (preserves_connect (keeps current_is_last)); last_facts. }
  revert Hrun H0. generalize (constructor outcomes) as w0.
  induction evs as [|e rest IH]; intros w0 Hrun H0; simpl in Hrun.
  - inversion Hrun; subst. exact H0.
  - destruct (step JSON_parse w0 e) as [w1|] eqn:Hstep; [|discriminate].
    destruct H0 as (Hl & Hq & Hc). apply (IH w1 Hrun).
    split; [apply (step_live_is_current JSON_parse w0 w1 e Hstep Hl)|].
    split; [apply (step_open_queue_empty JSON_parse w0 w1 e Hstep Hl Hq)|].
    apply (step_current_is_last w0 w1 e Hstep Hc).
Qed.

(** A frame handed to [send] goes out last when the connection is open,
    and goes to the end of the queue otherwise. *)
Lemma send_order (data : string) (w : State) :
  current_is_last w ->
  if is_open w then
    transmitted (snd (send data w)) = transmitted w ++ [data] /\
    messageQueue (snd (send data w)) = messageQueue w
  else
    transmitted (snd (send data w)) = transmitted w /\
    messageQueue (snd (send data w)) = messageQueue w ++ [data].
Proof.
  intros Hlast. destruct (is_open w) eqn:Hopen.
  - apply is_open_true in Hopen as (i & s & Hws & Hs & Hr).
    rewrite (send_open data w i s Hws Hs Hr). unfold transmitted.
    cbn [snd messageQueue sockets set_sockets].
    rewrite (transmitted_insert_last _ i s OPEN [data] Hs (Hlast i Hws)).
    split; reflexivity.
  - rewrite (send_closed data w Hopen). cbv zeta.
    destruct (isConnecting w); [split; reflexivity|].
    destruct (same_order_connect (set_messageQueue (messageQueue w ++ [data]) w))
      as [Ht Hq].
    rewrite Ht, Hq. split; reflexivity.
Qed.

(** One event: where the frames it hands to [send] go. *)
Lemma step_order (w w' : State) (e : Event) :
  live_is_current w -> current_is_last w ->
  step JSON_parse w e = Some w' ->
  if is_open_event e then
    transmitted w' = transmitted w ++ messageQueue w /\ messageQueue w' = [] /\
    is_open w' = true
  else if is_open w then
    transmitted w' = transmitted w ++ frames_of e /\
    messageQueue w' = messageQueue w
  else
    transmitted w' = transmitted w /\
    messageQueue w' = messageQueue w ++ frames_of e.
Proof.
  intros Hlive Hlast Hstep.
  assert (Hsame : forall w1, same_order w w1 ->
            if is_open w then
              transmitted w1 = transmitted w ++ [] /\
              messageQueue w1 = messageQueue w
            else
              transmitted w1 = transmitted w /\
              messageQueue w1 = messageQueue w ++ []).
  { intros w1 [Ht Hq]. rewrite !app_nil_r. destruct (is_open w); auto. }
  assert (Hup : forall i r, same_order w (update_socket i r w)).
  { intros i r. apply same_order_eq; [|reflexivity].
    cbn [update_socket sockets set_sockets]. apply sent_alter_same.
    reflexivity. }
  destruct e; cbn [is_open_event frames_of].
  - destruct (step_open_drains JSON_parse w w' i Hlive Hstep)
      as (s & Hs & Hr & Hws & Hq & Hsockets).
    assert (Hcur : ws w = Some i)
      by (apply (Hlive i s Hs); unfold live; rewrite Hr; reflexivity).
    split; [|split; [exact Hq|]].
    + unfold transmitted. rewrite Hsockets.
      apply (transmitted_insert_last _ i s OPEN _ Hs (Hlast i Hcur)).
    + apply is_open_true.
      exists i, {| readyState := OPEN; sent := sent s ++ messageQueue w |}.
      split; [exact Hws|]. split; [|reflexivity].
      rewrite Hsockets. apply list_lookup_insert_eq.
      apply (lookup_lt_Some _ _ _ Hs).
  - simpl in Hstep. destruct (sockets w !! i) as [s|]; [|discriminate].
    simpl in Hstep. apply Hsame.
    assert (H : same_order w (snd (onmessage JSON_parse f w)))
      by (apply (preserves_onmessage same_order); order_facts).
    destruct (readyState s); inversion Hstep; subst; exact H.
  - simpl in Hstep. destruct (sockets w !! i) as [s|]; [|discriminate].
    simpl in Hstep. apply Hsame.
    assert (H : same_order w (snd (onclose
               (if failed then snd (onerror (update_socket i CLOSED w))
                else update_socket i CLOSED w)))).
    { apply (same_order_trans _ (update_socket i CLOSED w)); [apply Hup|].
      apply (same_order_trans _
               (if failed then snd (onerror (update_socket i CLOSED w))
                else update_socket i CLOSED w)).
      - destruct failed; [|apply same_order_refl].
        apply (preserves_onerror same_order); order_facts.
      - apply (preserves_onclose same_order); order_facts. }
    destruct (readyState s); inversion Hstep; subst; exact H.
  - simpl in Hstep. destruct (timers w) as [|n]; inversion Hstep; subst.
    apply Hsame.
    apply (same_order_trans _ (set_timers n w)); [split; reflexivity|].
    apply same_order_connect.
  - simpl in Hstep. inversion Hstep; subst. unfold sendMessage.
    destruct (file d) as [f|] eqn:Hf; [apply Hsame, same_order_refl|].
    rewrite send_and_settle_effect. cbn [snd]. unfold envelope. rewrite Hf.
    apply (send_order _ w Hlast).
  - simpl in Hstep. destruct (file d) as [f|] eqn:Hf; inversion Hstep; subst.
    unfold reader_onload. rewrite send_and_settle_effect. cbn [snd].
    unfold envelope. rewrite Hf. apply (send_order _ w Hlast).
  - simpl in Hstep. inversion Hstep; subst. apply Hsame.
    unfold addMessageHandler, modify; cbn [snd].
    destruct (has_handler h (messageHandlers w)); split; reflexivity.
  - simpl in Hstep. inversion Hstep; subst. apply Hsame. split; reflexivity.
  - simpl in Hstep. inversion Hstep; subst. apply Hsame.
    unfold addConnectionStatusCallback, modify; cbn [snd].
    destruct (has_callback cb (connectionStatusCallbacks w)); split; reflexivity.
  - simpl in Hstep. inversion Hstep; subst. apply Hsame. split; reflexivity.
  - simpl in Hstep. inversion Hstep; subst. apply Hsame. unfold close.
    destruct (ws w) as [j|]; [|apply same_order_refl].
    apply same_order_eq; [|reflexivity].
    cbn [snd sockets set_ws set_sockets]. apply sent_alter_same.
    intros s0. unfold socket_close. destruct (readyState s0); reflexivity.
Qed.

Lemma run_order (evs : list Event) :
  forall w w',
    live_is_current w -> open_queue_empty w -> current_is_last w ->
    run JSON_parse w evs = Some w' ->
    transmitted w' ++ messageQueue w' =
      (transmitted w ++ messageQueue w) ++ flat_map frames_of evs.
Proof.
  induction evs as [|e rest IH]; intros w w' Hl Hq Hc Hrun; simpl in Hrun.
  - inversion Hrun; subst. cbn [flat_map]. rewrite app_nil_r. reflexivity.
  - destruct (step JSON_parse w e) as [w1|] eqn:Hstep; [|discriminate].
    rewrite (IH w1 w'
               (step_live_is_current JSON_parse w w1 e Hstep Hl)
               (step_open_queue_empty JSON_parse w w1 e Hstep Hl Hq)
               (step_current_is_last w w1 e Hstep Hc) Hrun).
    cbn [flat_map]. rewrite app_assoc. f_equal.
    pose proof (step_order w w1 e Hl Hc Hstep) as Ho.
    destruct (is_open_event e) eqn:He.
    + destruct Ho as (Ht & Hq1 & _). rewrite Ht, Hq1, app_nil_r.
      destruct e; try discriminate He. cbn [frames_of].
      rewrite app_nil_r. reflexivity.
    + destruct (is_open w) eqn:Hopen.
      * destruct Ho as [Ht Hq1]. rewrite Ht, Hq1, (Hq Hopen), !app_nil_r.
        reflexivity.
      * destruct Ho as [Ht Hq1]. rewrite Ht, Hq1. apply app_assoc.
Qed.

(** C2.  The service hands the frames to its sockets in the order they
    were handed to [send], each once.  At every event of a running
    service: when a socket opens, the whole queue goes out on it, after
    everything transmitted before and in queue order, and the queue is
    empty with the connection open; at any other event, the frames the
    event hands to [send] go out at once, after everything transmitted
    before, if the connection is open, and go to the end of the queue
    otherwise, and nothing else is transmitted, queued, removed or
    reordered (a close, an error, a timer or a failed attempt leaves the
    queue as it is).  So after any sequence of events, the frames
    transmitted so far followed by the queue are exactly the frames handed
    to [send], in that order.  The socket that opens is the only one to
    carry the queue, and the queue is empty whenever the connection is
    open. *)
Theorem queue_drained_in_order :
  (forall w e w',
     reachable JSON_parse w -> step JSON_parse w e = Some w' ->
     if is_open_event e then
       transmitted w' = transmitted w ++ messageQueue w /\
       messageQueue w' = [] /\ is_open w' = true
     else if is_open w then
       transmitted w' = transmitted w ++ frames_of e /\
       messageQueue w' = messageQueue w
     else
       transmitted w' = transmitted w /\
       messageQueue w' = messageQueue w ++ frames_of e) /\
  (forall outcomes evs w,
     run JSON_parse (constructor outcomes) evs = Some w ->
     transmitted w ++ messageQueue w = flat_map frames_of evs) /\
  (forall w w' i,
     reachable JSON_parse w ->
     step JSON_parse w (SocketOpen i) = Some w' ->
     exists s,
       sockets w !! i = Some s /\ readyState s = CONNECTING /\
       sockets w' =
         <[i := {| readyState := OPEN; sent := sent s ++ messageQueue w |}]>
           (sockets w)) /\
  (forall w,
     reachable JSON_parse w -> is_open w = true -> messageQueue w = []).
Proof.
  split; [|split; [|split]].
  - intros w e w' Hreach Hstep.
    destruct (reachable_invariants w Hreach) as (Hl & _ & Hc).
    exact (step_order w w' e Hl Hc Hstep).
  - intros outcomes evs w Hrun.
    assert (Hreach : reachable JSON_parse (constructor outcomes))
      by (exists outcomes, []; reflexivity).
    destruct (reachable_invariants _ Hreach) as (Hl & Hq & Hc).
    rewrite (run_order evs _ w Hl Hq Hc Hrun).
    assert (H0 : transmitted (constructor outcomes) ++
                 messageQueue (constructor outcomes) = []).
    { unfold constructor.
      match goal with
      | |- context [connect ?w0] =>
          destruct (same_order_connect w0) as [Ht Hm]
      end.
      rewrite Ht, Hm. reflexivity. }
    rewrite H0. reflexivity.
  - intros w w' i Hreach Hstep.
    destruct (reachable_invariants w Hreach) as (Hl & _ & _).
    destruct (step_open_drains JSON_parse w w' i Hl Hstep)
      as (s & Hs & Hr & _ & _ & Hsockets).
    exists s. auto.
  - intros w Hreach. destruct (reachable_invariants w Hreach) as (_ & Hq & _).
    exact Hq.
Qed.

End Order.

(** Two messages are sent during the first handshake, which then fails;
    the reconnect timer starts a second socket; a third message is sent,
    and the second socket opens: it carries the three frames in the order
    of the sends, and the queue is empty. *)
Lemma queue_drained_in_order_witness :
  let evs :=
    [CallSendMessage Mode_PPT (text_message "hello");
     CallSendMessage Mode_PPT (text_message "again");
     SocketClose 0 true; TimerFires;
     CallSendMessage Mode_PPT (text_message "third")] in
  let w := after [] evs in
  let w' := after [] (evs ++ [SocketOpen 1]) in
  messageQueue w = [text_frame "hello"; text_frame "again"; text_frame "third"] /\
  transmitted w = [] /\
  transmitted w' = [text_frame "hello"; text_frame "again"; text_frame "third"] /\
  messageQueue w' = [] /\ is_open w' = true.
Proof.
  intros evs w w'.
  assert (Hw : transmitted w ++ messageQueue w = flat_map frames_of evs).
  { apply (proj1 (proj2 (queue_drained_in_order scenario_parse)) []).
    vm_compute. reflexivity. }
  assert (Ht : transmitted w = []) by (vm_compute; reflexivity).
  rewrite Ht in Hw. cbn [app] in Hw.
  destruct (proj1 (queue_drained_in_order scenario_parse) w (SocketOpen 1) w')
    as (Ht' & Hq' & Hopen').
  - exists [], evs. vm_compute. reflexivity.
  - vm_compute. reflexivity.
  - rewrite Ht', Ht, Hw. repeat split; try assumption; vm_compute; reflexivity.
Defined.

End WSOrderFacts.

(** ** The component *)

Module ViewFacts.
Import JS WS WSMore View WSFacts WSMoreFacts.
Local Open Scope list_scope.

(** *** The message handler *)

Lemma handleMessage_shows (now : Z) (data : value) (x x' : Chat.UI) :
  Chat.handleMessage now data x = Some x' -> exists t, x' = Chat.show now t x.
Proof.
  unfold Chat.handleMessage. intros H.
  repeat match type of H with
         | context [get ?d ?k] =>
             destruct (get d k); cbn [mbind option_bind] in H; try discriminate
         | context [template ?m] =>
             destruct (template m); cbn [mbind option_bind] in H; try discriminate
         | context [is_str ?a ?b] => destruct (is_str a b)
         | context [truthy ?a] => destruct (truthy a)
         end;
    inversion H; eauto.
Qed.

Lemma handleMessage_throws (i : nat) (now : Z) (data : value) (x : Chat.UI) :
  hthrows (chat_handler i) data =
    match Chat.handleMessage now data x with Some _ => false | None => true end.
Proof.
  cbn [hthrows chat_handler]. unfold Chat.handleMessage.
  repeat match goal with
         | |- context [get ?d ?k] =>
             destruct (get d k); cbn [mbind option_bind]; try reflexivity
         | |- context [template ?m] =>
             destruct (template m); cbn [mbind option_bind]; try reflexivity
         | |- context [is_str ?a ?b] => destruct (is_str a b)
         | |- context [truthy ?a] => destruct (truthy a)
         end; reflexivity.
Qed.

Lemma handleMessage_raw (now : Z) (f : Frame) (x : Chat.UI) :
  Chat.handleMessage now (event_data f) x = Some (Chat.show now (raw_text f) x).
Proof. destruct f; reflexivity. Qed.

Lemma receive_returns (now : Z) (v : value) (x : Chat.UI) :
  hthrows (chat_handler handleMessage_id) v = false ->
  exists x', Chat.handleMessage now v x = Some x' /\ receive now v x = x'.
Proof.
  intros H. rewrite (handleMessage_throws _ now v x) in H. unfold receive.
  destruct (Chat.handleMessage now v x) as [x'|]; [eauto|discriminate].
Qed.

Lemma receive_throws (now : Z) (v : value) (x : Chat.UI) :
  hthrows (chat_handler handleMessage_id) v = true ->
  Chat.handleMessage now v x = None /\
  Chat.messages (receive now v x) = Chat.messages x.
Proof.
  rewrite (handleMessage_throws _ now v x). unfold receive.
  destruct (Chat.handleMessage now v x); [discriminate|].
  intros _. split; [reflexivity|]. destruct v; reflexivity.
Qed.

Lemma receive_raw (now : Z) (f : Frame) (x : Chat.UI) :
  receive now (event_data f) x = Chat.show now (raw_text f) x.
Proof. unfold receive. rewrite handleMessage_raw. reflexivity. Qed.

Lemma receive_appends (now : Z) (v : value) (x : Chat.UI) :
  Chat.messages x `prefix_of` Chat.messages (receive now v x).
Proof.
  unfold receive. destruct (Chat.handleMessage now v x) as [x'|] eqn:E.
  - apply handleMessage_shows in E as [t ->]. eexists. reflexivity.
  - exists []. rewrite app_nil_r. destruct v; reflexivity.
Qed.

Lemma receive_all_appends (now : Z) (ds : list (nat * value)) (x : Chat.UI) :
  Chat.messages x `prefix_of` Chat.messages (receive_all now ds x).
Proof.
  unfold receive_all. revert x.
  induction ds as [|n rest IH]; intros x; [reflexivity|].
  cbn [foldl]. etransitivity; [|apply IH].
  destruct (fst n =? handleMessage_id)%nat; [apply receive_appends|reflexivity].
Qed.

(** *** The listeners of the service stay as they are *)

Lemma same_listeners_refl (w : State) : same_listeners w w.
Proof. split; reflexivity. Qed.

Lemma same_listeners_trans (a b c : State) :
  same_listeners a b -> same_listeners b c -> same_listeners a c.
Proof. unfold same_listeners. intros [? ?] [? ?]. split; congruence. Qed.

Lemma same_listeners_connect_try : preserves same_listeners connect_try.
Proof.
  intros w. unfold connect_try, close_existing, new_WebSocket, bind, modify.
  destruct (ws w); cbn [tape set_ws set_sockets];
    destruct (tape w) as [|[|] ?]; split; reflexivity.
Qed.

Lemma same_listeners_notify (status : Status) :
  preserves same_listeners (notifyConnectionStatus status).
Proof.
  intros w. unfold notifyConnectionStatus. rewrite forEach_callback_effect.
  split; reflexivity.
Qed.

Lemma same_listeners_deliver (payload : value) :
  preserves same_listeners (deliver payload).
Proof. intros w. rewrite deliver_effect. split; reflexivity. Qed.

Lemma same_listeners_handleReconnect : preserves same_listeners handleReconnect.
Proof.
  intros w. unfold handleReconnect. destruct (_ <? _)%nat; split; reflexivity.
Qed.

Lemma same_listeners_transmit (data : string) :
  preserves same_listeners (transmit data).
Proof. intros w. unfold transmit. destruct (ws w); split; reflexivity. Qed.

Ltac listeners_facts :=
  first [ exact same_listeners_refl | exact same_listeners_trans
        | exact same_listeners_connect_try | exact same_listeners_notify
        | exact same_listeners_deliver
        | exact same_listeners_handleReconnect | exact same_listeners_transmit
        | intros; split; reflexivity ].

Lemma same_notified_refl (w : State) : same_notified w w.
Proof. reflexivity. Qed.

Lemma same_notified_trans (a b c : State) :
  same_notified a b -> same_notified b c -> same_notified a c.
Proof. unfold same_notified. congruence. Qed.

Lemma same_notified_onmessage (JSON_parse : string -> option value)
    (f : Frame) (w : State) :
  same_notified w (snd (onmessage JSON_parse f w)).
Proof.
  unfold onmessage.
  apply (preserves_try_catch same_notified); [exact same_notified_trans| |].
  - apply (preserves_bind same_notified);
      [exact same_notified_trans| |].
    + intros w0. unfold parse_event. destruct (decode JSON_parse f); reflexivity.
    + intros payload w0. rewrite deliver_effect. reflexivity.
  - intros w0. rewrite deliver_effect. reflexivity.
Qed.

Lemma constructor_listeners (outcomes : list bool) :
  messageHandlers (constructor outcomes) = [] /\
  connectionStatusCallbacks (constructor outcomes) = [].
Proof.
  unfold constructor.
  match goal with
  | |- context [connect ?w0] =>
      assert (H : same_listeners w0 (snd (connect w0)))
        by (apply (preserves_connect same_listeners); listeners_facts)
  end.
  destruct H as [H1 H2]. rewrite H1, H2. split; reflexivity.
Qed.

Section Service.

Variable JSON_parse : string -> option value.

(** The socket and timer events keep the listeners; all but the arrival of
    a frame call no message listener. *)
Lemma service_event_listeners (w w' : State) (e : Event) :
  is_service_event e = true ->
  step JSON_parse w e = Some w' ->
  same_listeners w w' /\
  (match e with SocketMessage _ _ => True | _ => delivered w' = delivered w end).
Proof.
  intros He Hstep. destruct e; try discriminate He; simpl in Hstep.
  - destruct (sockets w !! i) as [s|]; [|discriminate]. simpl in Hstep.
    destruct (readyState s); inversion Hstep; subst. split.
    + apply (same_listeners_trans _ (update_socket i OPEN w));
        [split; reflexivity|].
      apply (preserves_bind same_listeners); [exact same_listeners_trans| |intros ?].
      { apply preserves_modify. listeners_facts. }
      apply (preserves_onopen_rest same_listeners); listeners_facts.
    + enough (H : no_delivery (update_socket i OPEN w)
                    (snd (onopen (update_socket i OPEN w)))) by exact (proj2 H).
      apply (preserves_bind no_delivery); [exact no_delivery_trans| |intros ?].
      { apply preserves_modify. delivery_facts. }
      apply (preserves_onopen_rest no_delivery); delivery_facts.
  - destruct (sockets w !! i) as [s|]; [|discriminate]. simpl in Hstep.
    assert (H : same_listeners w (snd (onmessage JSON_parse f w)))
      by (apply (preserves_onmessage same_listeners); listeners_facts).
    destruct (readyState s); inversion Hstep; subst; split; auto.
  - destruct (sockets w !! i) as [s|]; [|discriminate]. simpl in Hstep.
    assert (Hl : same_listeners w (snd (onclose
               (if failed then snd (onerror (update_socket i CLOSED w))
                else update_socket i CLOSED w)))).
    { apply (same_listeners_trans _ (update_socket i CLOSED w));
        [split; reflexivity|].
      apply (same_listeners_trans _
               (if failed then snd (onerror (update_socket i CLOSED w))
                else update_socket i CLOSED w)).
      - destruct failed; [|apply same_listeners_refl].
        apply (preserves_onerror same_listeners); listeners_facts.
      - apply (preserves_onclose same_listeners); listeners_facts. }
    assert (Hd : no_delivery w (snd (onclose
               (if failed then snd (onerror (update_socket i CLOSED w))
                else update_socket i CLOSED w)))).
    { apply (no_delivery_trans _ (update_socket i CLOSED w));
        [split; reflexivity|].
      apply (no_delivery_trans _
               (if failed then snd (onerror (update_socket i CLOSED w))
                else update_socket i CLOSED w)).
      - destruct failed; [|apply no_delivery_refl].
        apply (preserves_onerror no_delivery); delivery_facts.
      - apply (preserves_onclose no_delivery); delivery_facts. }
    destruct (readyState s); inversion Hstep; subst;
      (split; [exact Hl|exact (proj2 Hd)]).
  - destruct (timers w) as [|n]; inversion Hstep; subst. split.
    + apply (same_listeners_trans _ (set_timers n w)); [split; reflexivity|].
      apply (preserves_connect same_listeners); listeners_facts.
    + enough (H : no_delivery (set_timers n w) (snd (connect (set_timers n w))))
        by exact (proj2 H).
      apply (preserves_connect no_delivery); delivery_facts.
Qed.

(** With the handler of the component as only listener, the calls the
    arrival of a frame makes. *)
Lemma onmessage_wired (f : Frame) (w : State) :
  messageHandlers w = [chat_handler handleMessage_id] ->
  delivered (snd (onmessage JSON_parse f w)) =
    delivered w ++
      match decode JSON_parse f with
      | Some v =>
          if hthrows (chat_handler handleMessage_id) v
          then [(handleMessage_id, v); (handleMessage_id, event_data f)]
          else [(handleMessage_id, v)]
      | None => [(handleMessage_id, event_data f)]
      end.
Proof.
  intros Hh.
  assert (Hone : forall p,
            map (fun h => (hid h, p))
              (reached hthrows p [chat_handler handleMessage_id]) =
            [(handleMessage_id, p)]).
  { intros p. cbn [reached map].
    destruct (hthrows (chat_handler handleMessage_id) p); reflexivity. }
  destruct (decode JSON_parse f) as [v|] eqn:Hd.
  - rewrite (onmessage_decoded JSON_parse f w v Hd). unfold handler_throws.
    rewrite Hh. cbn [existsb]. rewrite orb_false_r.
    destruct (hthrows (chat_handler handleMessage_id) v) eqn:Ht.
    + rewrite !deliver_effect.
      cbn [snd delivered messageHandlers set_delivered].
      rewrite Hh, !Hone, <- app_assoc. reflexivity.
    + rewrite deliver_effect. cbn [snd delivered set_delivered].
      rewrite Hh, Hone. reflexivity.
  - rewrite (onmessage_undecoded JSON_parse f w Hd), deliver_effect.
    cbn [snd delivered set_delivered]. rewrite Hh, Hone. reflexivity.
Qed.

Lemma receive_all_displayed (now : Z) (f : Frame) (x : Chat.UI) :
  receive_all now
    match decode JSON_parse f with
    | Some v =>
        if hthrows (chat_handler handleMessage_id) v
        then [(handleMessage_id, v); (handleMessage_id, event_data f)]
        else [(handleMessage_id, v)]
    | None => [(handleMessage_id, event_data f)]
    end x =
  displayed JSON_parse now f x.
Proof.
  unfold displayed, receive_all.
  destruct (decode JSON_parse f) as [v|].
  - destruct (hthrows (chat_handler handleMessage_id) v) eqn:Ht;
      cbn [foldl fst snd]; rewrite ?Nat.eqb_refl.
    + destruct (receive_throws now v x Ht) as [Hnone Hm].
      rewrite Hnone, receive_raw. unfold Chat.show. rewrite Hm. reflexivity.
    + destruct (receive_returns now v x Ht) as (x' & Hsome & Hr).
      rewrite Hsome, Hr. reflexivity.
  - cbn [foldl fst snd]. rewrite Nat.eqb_refl. apply receive_raw.
Qed.

End Service.

(** *** The component's invariant *)

Lemma wired_quiet (st : ChatState) (status : Status) :
  wired st -> listener_throws status (wsService (hook st)) = false.
Proof. intros [_ Hc]. unfold listener_throws. rewrite Hc. reflexivity. Qed.

Lemma mount_service (outcomes : list bool) :
  messageHandlers (wsService (hook (mount outcomes))) =
    [chat_handler handleMessage_id] /\
  connectionStatusCallbacks (wsService (hook (mount outcomes))) =
    [status_callback setStatus_id] /\
  is_open (wsService (hook (mount outcomes))) = is_open (constructor outcomes) /\
  status (hook (mount outcomes)) = disconnected.
Proof.
  destruct (constructor_listeners outcomes) as [Hh Hc].
  pose proof (constructor_not_open outcomes) as Hopen.
  unfold mount, useWebSocket_effect, useWebSocket_render,
    addMessageHandler, addConnectionStatusCallback, modify, getConnectionStatus.
  cbn [hook wsService snd status].
  rewrite Hc. cbn [has_callback existsb app].
  cbn [messageHandlers set_connectionStatusCallbacks].
  rewrite Hh. cbn [has_handler existsb app].
  cbn [messageHandlers connectionStatusCallbacks set_messageHandlers
         set_connectionStatusCallbacks].
  repeat split.
  change (is_open (set_connectionStatusCallbacks [status_callback setStatus_id]
                     (constructor outcomes)))
    with (is_open (constructor outcomes)).
  rewrite Hopen. reflexivity.
Qed.

Lemma mount_inv (outcomes : list bool) : view_inv (mount outcomes).
Proof.
  destruct (mount_service outcomes) as (Hh & Hc & _ & _).
  split; [split; assumption|].
  pose proof (constructor_live_is_current outcomes) as H0.
  unfold mount, useWebSocket_effect, useWebSocket_render. cbn [hook wsService].
  unfold addMessageHandler, addConnectionStatusCallback, modify. cbn [snd].
  repeat match goal with
         | |- context [if ?b then _ else _] => destruct b
         end; exact H0.
Qed.

Lemma handleSend_unfold (now later : Z) (st : ChatState) :
  blank (inputText st) && negb (bool_decide (is_Some (selectedFile st))) = false ->
  let r := sendMessage (mode st) (messageData st) (wsService (hook st)) in
  let st2 :=
    set_hook (hook_move (hook st) (snd r))
      (addMessage (userMessage now st) (setIsLoading true st)) in
  handleSend now later st =
    match fst r, file (messageData st) with
    | Ret Pending, Some f =>
        set_awaiting (awaiting st ++ [(mode st, messageData st, f)]) st2
    | p, _ => handleSend_settled later p st2
    end.
Proof.
  intros Hg. cbv zeta. unfold handleSend. rewrite Hg.
  destruct (sendMessage (mode st) (messageData st) (wsService (hook st)))
    as [p w'].
  destruct p as [[| |]|]; destruct (file (messageData st)); reflexivity.
Qed.

Lemma handleSend_hook (now later : Z) (st : ChatState) :
  hook (handleSend now later st) = hook st \/
  hook (handleSend now later st) =
    hook_move (hook st)
      (snd (sendMessage (mode st) (messageData st) (wsService (hook st)))).
Proof.
  destruct (blank (inputText st) &&
            negb (bool_decide (is_Some (selectedFile st)))) eqn:Hg.
  - left. unfold handleSend. rewrite Hg. reflexivity.
  - right. rewrite (handleSend_unfold now later st Hg).
    destruct (fst _) as [[| |]|]; destruct (file (messageData st));
      reflexivity.
Qed.

Lemma send_onload_unfold (k : nat) (later : Z) (st : ChatState)
    (m : Mode) (d : MessageInput) (f : FileData) :
  awaiting st !! k = Some (m, d, f) ->
  send_onload k later st =
    Some (handleSend_settled later
            (fst (reader_onload m d f (wsService (hook st))))
            (set_hook
               (hook_move (hook st)
                  (snd (reader_onload m d f (wsService (hook st)))))
               (set_awaiting (delete k (awaiting st)) st))).
Proof.
  intros Hk. unfold send_onload. rewrite Hk. cbn [mbind option_bind].
  destruct (reader_onload m d f (wsService (hook st))) as [p w'].
  reflexivity.
Qed.

Lemma handleSend_settled_hook (later : Z) (p : res Promise) (st : ChatState) :
  hook (handleSend_settled later p st) = hook st.
Proof. destruct p as [[| |]|]; reflexivity. Qed.

Lemma handleFileSelect_hook (files : list File) (st : ChatState) :
  hook (handleFileSelect files st) = hook st /\
  ui (handleFileSelect files st) = ui st.
Proof.
  unfold handleFileSelect. destruct files as [|file rest]; [auto|].
  destruct (negb _); [auto|]. destruct (_ <? _)%N; auto.
Qed.

Section Component.

Variable JSON_parse : string -> option value.

Lemma service_inv (st st' : ChatState) :
  wired st ->
  same_listeners (wsService (hook st)) (wsService (hook st')) ->
  live_is_current (wsService (hook st')) ->
  view_inv st'.
Proof.
  intros [Wh Wc] [Hh Hc] Hlive. split; [|exact Hlive]. split; congruence.
Qed.

Lemma handleSend_inv (now later : Z) (st : ChatState) :
  view_inv st -> view_inv (handleSend now later st).
Proof.
  intros [Hw Hl]. destruct (handleSend_hook now later st) as [Hh|Hh].
  - unfold view_inv, wired. rewrite Hh. split; assumption.
  - apply (service_inv st); [exact Hw| |]; rewrite Hh; cbn [hook_move wsService].
    + apply (preserves_sendMessage same_listeners); listeners_facts.
    + revert Hl. apply (preserves_sendMessage (keeps live_is_current)); live_facts.
Qed.

Lemma view_step_inv (st st' : ChatState) (a : Action) :
  view_step JSON_parse st a = Some st' -> view_inv st -> view_inv st'.
Proof.
  intros Hstep [Hw Hl]. destruct a; simpl in Hstep.
  - destruct (is_service_event e) eqn:He; [|discriminate].
    destruct (step JSON_parse (wsService (hook st)) e) as [w'|] eqn:Hs;
      [|discriminate].
    inversion Hstep; subst.
    apply (service_inv st); [exact Hw| |].
    + apply (service_event_listeners JSON_parse _ _ e He Hs).
    + apply (step_live_is_current JSON_parse _ _ e Hs Hl).
  - destruct (Chat.isLoading (ui st)); inversion Hstep; subst.
    split; assumption.
  - inversion Hstep; subst.
    destruct (handleFileSelect_hook files st) as [Hh _].
    unfold view_inv, wired. rewrite Hh. split; assumption.
  - unfold fileReader_onload in Hstep.
    destruct (reading st !! k); inversion Hstep; subst. split; assumption.
  - inversion Hstep; subst. split; assumption.
  - destruct (Chat.isLoading (ui st)); inversion Hstep; subst.
    apply handleSend_inv. split; assumption.
  - destruct (Chat.isLoading (ui st)); inversion Hstep; subst.
    unfold handleKeyPress. destruct (_ && _); [|split; assumption].
    apply handleSend_inv. split; assumption.
  - destruct (awaiting st !! k) as [[[m d] f]|] eqn:Hk;
      [|unfold send_onload in Hstep; rewrite Hk in Hstep; discriminate].
    rewrite (send_onload_unfold k later st m d f Hk) in Hstep.
    inversion Hstep; subst.
    apply (service_inv st); [exact Hw| |];
      rewrite handleSend_settled_hook; cbn [hook set_hook hook_move wsService].
    + apply (preserves_reader_onload same_listeners); listeners_facts.
    + revert Hl. apply (preserves_reader_onload (keeps live_is_current)); live_facts.
Qed.

Lemma view_run_inv (acts : list Action) :
  forall st st', view_run JSON_parse st acts = Some st' ->
    view_inv st -> view_inv st'.
Proof.
  induction acts as [|a rest IH]; intros st st' Hrun Hinv; simpl in Hrun.
  - inversion Hrun; subst. exact Hinv.
  - destruct (view_step JSON_parse st a) as [st1|] eqn:Hstep; [|discriminate].
    apply (IH st1 st' Hrun), (view_step_inv st st1 a Hstep Hinv).
Qed.

Lemma view_reachable_inv (st : ChatState) :
  view_reachable JSON_parse st -> view_inv st.
Proof.
  intros (outcomes & acts & Hrun).
  apply (view_run_inv acts _ _ Hrun), mount_inv.
Qed.

Lemma view_run_app (acts1 acts2 : list Action) (st : ChatState) :
  view_run JSON_parse st (acts1 ++ acts2) =
    (st1 ← view_run JSON_parse st acts1; view_run JSON_parse st1 acts2).
Proof.
  revert st. induction acts1 as [|a rest IH]; intros st; simpl; [reflexivity|].
  destruct (view_step JSON_parse st a) as [st1|]; simpl; [apply IH|reflexivity].
Qed.

(** *** Files *)

Lemma handleFileSelect_files (files : list File) (st : ChatState) :
  files_acceptable st -> files_acceptable (handleFileSelect files st).
Proof.
  intros Hinv. pose proof Hinv as (Hs & Hr & Ha). unfold handleFileSelect.
  destruct files as [|file rest]; [exact Hinv|].
  destruct (existsb (String.eqb (ftype file)) allowedTypes) eqn:Hty;
    cbn [negb]; [|exact Hinv].
  destruct (maxFileSize <? fsize file)%N eqn:Hsz; [exact Hinv|].
  split; [exact Hs|]. split; [|exact Ha].
  intros f Hf. cbn [reading set_reading] in Hf.
  apply in_app_or in Hf as [Hf|[<-|[]]]; [apply Hr, Hf|].
  split.
  - apply existsb_exists in Hty as (ty & Hin & Heq).
    apply String.eqb_eq in Heq. rewrite Heq. exact Hin.
  - apply N.ltb_ge, Hsz.
Qed.

Lemma handleSend_files (now later : Z) (st : ChatState) :
  files_acceptable st -> files_acceptable (handleSend now later st).
Proof.
  intros Hinv. pose proof Hinv as (Hs & Hr & Ha).
  destruct (blank (inputText st) &&
            negb (bool_decide (is_Some (selectedFile st)))) eqn:Hg.
  - unfold handleSend. rewrite Hg. exact Hinv.
  - rewrite (handleSend_unfold now later st Hg).
    destruct (fst _) as [[| |]|]; destruct (file (messageData st)) as [fd|] eqn:Hfd;
      try (split; [intros f Hf; discriminate Hf|split; [exact Hr|exact Ha]]).
    split; [exact Hs|]. split; [exact Hr|].
    intros m d f Hin. cbn [awaiting set_awaiting] in Hin.
    apply in_app_or in Hin as [Hin|[Heq|[]]]; [apply (Ha m d f Hin)|].
    inversion Heq; subst. unfold messageData in Hfd. cbn [file] in Hfd.
    destruct (selectedFile st) as [sf|] eqn:Hsf; [|discriminate].
    inversion Hfd; subst. exists (size sf). split; [reflexivity|].
    apply (Hs sf eq_refl).
Qed.

Lemma view_step_files (st st' : ChatState) (a : Action) :
  view_step JSON_parse st a = Some st' ->
  files_acceptable st -> files_acceptable st'.
Proof.
  intros Hstep Hinv. pose proof Hinv as (Hs & Hr & Ha).
  destruct a; simpl in Hstep.
  - destruct (is_service_event e); [|discriminate].
    destruct (step JSON_parse (wsService (hook st)) e); inversion Hstep; subst.
    exact Hinv.
  - destruct (Chat.isLoading (ui st)); inversion Hstep; subst. exact Hinv.
  - inversion Hstep; subst. apply handleFileSelect_files, Hinv.
  - unfold fileReader_onload in Hstep.
    destruct (reading st !! k) as [file|] eqn:Hk; inversion Hstep; subst.
    split; [|split; [|exact Ha]].
    + intros f Hf. cbn [selectedFile set_selectedFile] in Hf.
      inversion Hf; subst. cbn [type size]. apply Hr.
      apply list_elem_of_In, (list_elem_of_lookup_2 _ k), Hk.
    + intros f Hf. cbn [reading set_selectedFile set_reading] in Hf.
      apply Hr, list_elem_of_In, (list_elem_of_delete_inv _ k), list_elem_of_In, Hf.
  - inversion Hstep; subst.
    split; [intros f Hf; discriminate Hf|split; assumption].
  - destruct (Chat.isLoading (ui st)); inversion Hstep; subst.
    apply handleSend_files, Hinv.
  - destruct (Chat.isLoading (ui st)); inversion Hstep; subst.
    unfold handleKeyPress. destruct (_ && _); [|exact Hinv].
    apply handleSend_files, Hinv.
  - destruct (awaiting st !! k) as [[[m d] f]|] eqn:Hk;
      [|unfold send_onload in Hstep; rewrite Hk in Hstep; discriminate].
    rewrite (send_onload_unfold k later st m d f Hk) in Hstep.
    inversion Hstep; subst.
    assert (Hgo : forall st2, reading st2 = reading st ->
              awaiting st2 = delete k (awaiting st) ->
              selectedFile st2 = None -> files_acceptable st2).
    { intros st2 H1 H2 H3. split; [rewrite H3; intros ? ?; discriminate|].
      split; [rewrite H1; exact Hr|]. rewrite H2. intros m' d' f' Hin.
      apply (Ha m' d' f'), list_elem_of_In, (list_elem_of_delete_inv _ k),
        list_elem_of_In, Hin. }
    destruct (fst _) as [[| |]|]; apply Hgo; reflexivity.
Qed.

(** X12.  Every file the component holds passed the checks of
    [handleFileSelect]: the selected file, every file whose reader is
    still reading and every file attached to a pending send has one of the
    seven allowed MIME types and a size of at most 10 MiB (10485760
    bytes). *)
Theorem held_files_acceptable (st : ChatState) :
  view_reachable JSON_parse st -> files_acceptable st.
Proof.
  intros (outcomes & acts & Hrun).
  assert (H0 : files_acceptable (mount outcomes)).
  { split; [intros f Hf; discriminate Hf|]. split; [intros f []|intros m d f []]. }
  revert Hrun H0. generalize (mount outcomes) as st0.
  induction acts as [|a rest IH]; intros st0 Hrun H0; simpl in Hrun.
  - inversion Hrun; subst. exact H0.
  - destruct (view_step JSON_parse st0 a) as [st1|] eqn:Hstep; [|discriminate].
    apply (IH st1 Hrun), (view_step_files st0 st1 a Hstep H0).
Qed.

(** *** Sending *)

Lemma wired_send_resolves (st : ChatState) (message : value) :
  wired st ->
  send_and_settle message (wsService (hook st)) =
    (Ret Resolved, snd (send (stringify message) (wsService (hook st)))).
Proof.
  intros Hw. rewrite send_and_settle_effect. f_equal. f_equal.
  unfold settles.
  destruct (fst (send (stringify message) (wsService (hook st)))) eqn:E;
    [reflexivity|].
  apply send_throws_iff in E as (_ & _ & _ & Hl).
  rewrite (wired_quiet st disconnected Hw) in Hl. discriminate.
Qed.

(** X13.  A send without a file, in any state the component can reach,
    when the input is not blank: the text goes to the service as typed,
    without trimming, in the envelope with the four file fields null; one
    user message is appended and nothing else, the loading indicator is
    on, the input is cleared.  The failure message is never shown: with
    the hook's callback as only status listener [sendMessage] cannot
    reject. *)
Theorem text_send_effect (now later : Z) (st : ChatState) :
  view_reachable JSON_parse st ->
  selectedFile st = None -> blank (inputText st) = false ->
  let st' := handleSend now later st in
  ui st' =
    {| Chat.messages := Chat.messages (ui st) ++
         [{| Chat.id := now; Chat.text := Some (VStr (inputText st));
             Chat.isUser := true; Chat.file := None |}];
       Chat.isLoading := true |} /\
  inputText st' = EmptyString /\ selectedFile st' = None /\
  awaiting st' = awaiting st /\
  frames (wsService (hook st')) ≡ₚ
    frames (wsService (hook st)) ++ [text_frame (inputText st)].
Proof.
  intros Hreach Hsel Hblank. cbv zeta.
  destruct (view_reachable_inv st Hreach) as [Hw _].
  rewrite handleSend_unfold by (rewrite Hblank; reflexivity). cbv zeta.
  assert (Hfile : file (messageData st) = None)
    by (unfold messageData; rewrite Hsel; reflexivity).
  assert (Hsend : sendMessage (mode st) (messageData st) (wsService (hook st)) =
            (Ret Resolved,
             snd (send (text_frame (inputText st)) (wsService (hook st))))).
  { unfold sendMessage. rewrite Hfile. apply (wired_send_resolves st _ Hw). }
  rewrite Hsend, Hfile. cbn [fst snd].
  unfold handleSend_settled, handleSend_finally, userMessage. rewrite Hsel.
  repeat split. apply send_frames.
Qed.

(** X14.  A send with a file, in any state the component can reach.  The
    call itself appends one user message carrying the file's name, type
    and size, turns the loading indicator on and hands nothing to the
    service: the input and the selected file stay until the reader has
    loaded.  When the reader loads, the envelope with the text, the data
    URL of the content, the name, the type and the size is handed to
    [send], the input and the selected file are cleared, and no message
    is added. *)
Theorem file_send_effect (now later : Z) (st : ChatState) (f : FilePreview) :
  view_reachable JSON_parse st ->
  selectedFile st = Some f ->
  let st1 := handleSend now later st in
  (ui st1 =
     {| Chat.messages := Chat.messages (ui st) ++
          [{| Chat.id := now; Chat.text := Some (VStr (inputText st));
              Chat.isUser := true;
              Chat.file := Some {| Chat.name := name f; Chat.type := type f;
                                   Chat.size := number_of_N (size f) |} |}];
        Chat.isLoading := true |} /\
   inputText st1 = inputText st /\ selectedFile st1 = Some f /\
   wsService (hook st1) = wsService (hook st)) /\
  exists st2,
    send_onload (length (awaiting st)) later st1 = Some st2 /\
    ui st2 = ui st1 /\ inputText st2 = EmptyString /\
    selectedFile st2 = None /\ awaiting st2 = awaiting st /\
    frames (wsService (hook st2)) ≡ₚ
      frames (wsService (hook st)) ++
        [stringify
           (VObj [("text", VStr (inputText st));
                  ("fileData", VStr (readAsDataURL (preview f)));
                  ("filename", VStr (name f));
                  ("fileType", VStr (type f));
                  ("fileSize", VNum (number_of_N (size f)))])].
Proof.
  intros Hreach Hsel. cbv zeta.
  pose proof (view_reachable_inv st Hreach) as Hinv.
  pose proof (handleSend_inv now later st Hinv) as [Hw1 _].
  assert (Hg : blank (inputText st) &&
               negb (bool_decide (is_Some (selectedFile st))) = false).
  { rewrite Hsel. rewrite bool_decide_eq_true_2 by eauto. apply andb_false_r. }
  revert Hw1. rewrite (handleSend_unfold now later st Hg). cbv zeta.
  unfold sendMessage, messageData, userMessage. rewrite Hsel.
  cbn [file fst snd ret]. intros Hw1.
  split; [repeat split; exact Hsel|].
  match goal with
  | |- context [send_onload _ _ ?x] => set (st1 := x) in *
  end.
  assert (Hk : awaiting st1 !! length (awaiting st) =
            Some (mode st,
                  {| WS.text := inputText st;
                     WS.file := Some {| WS.name := name f; WS.type := type f;
                                        WS.size := number_of_N (size f);
                                        WS.data := preview f |} |},
                  {| WS.name := name f; WS.type := type f;
                     WS.size := number_of_N (size f);
                     WS.data := preview f |})).
  { unfold st1. cbn [awaiting set_awaiting]. apply list_lookup_middle. reflexivity. }
  rewrite (send_onload_unfold _ later st1 _ _ _ Hk).
  unfold reader_onload. rewrite (wired_send_resolves st1 _ Hw1).
  eexists. split; [reflexivity|]. cbn [fst snd].
  unfold handleSend_settled, handleSend_finally.
  cbn [ui inputText selectedFile awaiting hook wsService
         set_selectedFile set_inputText set_hook set_awaiting hook_move].
  split; [reflexivity|]. split; [reflexivity|]. split; [reflexivity|].
  split.
  - unfold st1. cbn [awaiting set_awaiting].
    rewrite delete_middle. apply app_nil_r.
  - etransitivity; [apply send_frames|].
    unfold st1.
    cbn [hook wsService set_awaiting set_hook hook_move]. reflexivity.
Qed.

(** *** Receiving *)

Lemma displayed_shows (now : Z) (f : Frame) (x : Chat.UI) :
  exists t, displayed JSON_parse now f x = Chat.show now t x.
Proof.
  unfold displayed. destruct (decode JSON_parse f) as [v|]; [|eauto].
  destruct (Chat.handleMessage now v x) as [x'|] eqn:E; [|eauto].
  apply handleMessage_shows in E as [t ->]. eauto.
Qed.

(** X15.  In any state the component can reach, the arrival of a frame
    adds exactly one assistant message and turns the loading indicator
    off: the message renders the decoded value, or shows the raw payload,
    stringified, when the frame does not decode or the handler throws on
    the decoded value (the service then calls the handler a second time,
    with the raw payload).  The other socket events and the reconnect
    timer leave the messages and the loading indicator as they are. *)
Theorem frame_displayed_once (st st' : ChatState) (e : Event) (now : Z) :
  view_reachable JSON_parse st ->
  view_step JSON_parse st (Service e now) = Some st' ->
  match e with
  | SocketMessage _ f =>
      ui st' = displayed JSON_parse now f (ui st) /\
      exists t,
        Chat.messages (ui st') =
          Chat.messages (ui st) ++
            [{| Chat.id := now; Chat.text := t; Chat.isUser := false;
                Chat.file := None |}] /\
        Chat.isLoading (ui st') = false
  | _ => ui st' = ui st
  end.
Proof.
  intros Hreach Hstep.
  destruct (view_reachable_inv st Hreach) as [[Hh _] _].
  simpl in Hstep. destruct (is_service_event e) eqn:He; [|discriminate].
  destruct (step JSON_parse (wsService (hook st)) e) as [w'|] eqn:Hs;
    [|discriminate].
  inversion Hstep; subst. cbn [ui set_ui].
  destruct (service_event_listeners JSON_parse _ _ e He Hs) as [_ Hd].
  destruct e; try discriminate He;
    try (rewrite Hd, drop_all; reflexivity).
  assert (Hw' : w' = snd (onmessage JSON_parse f (wsService (hook st)))).
  { simpl in Hs. destruct (sockets (wsService (hook st)) !! i) as [s|];
      [|discriminate]. simpl in Hs.
    destruct (readyState s); inversion Hs; reflexivity. }
  rewrite Hw', (onmessage_wired JSON_parse f _ Hh), drop_app_length.
  rewrite receive_all_displayed. split; [reflexivity|].
  destruct (displayed_shows now f (ui st)) as [t ->]. exists t.
  split; reflexivity.
Qed.

(** X16.  The list of messages only grows: no event and no action removes
    or rewrites a message once it is displayed. *)
Theorem messages_only_grow (st st' : ChatState) (acts : list Action) :
  view_run JSON_parse st acts = Some st' ->
  Chat.messages (ui st) `prefix_of` Chat.messages (ui st').
Proof.
  assert (Hsettled : forall later p st0,
            Chat.messages (ui st0) `prefix_of`
              Chat.messages (ui (handleSend_settled later p st0))).
  { intros later p st0. destruct p as [[| |]|]; cbn; try reflexivity;
      eexists; reflexivity. }
  assert (Hsend : forall now later st0,
            Chat.messages (ui st0) `prefix_of`
              Chat.messages (ui (handleSend now later st0))).
  { intros now later st0.
    destruct (blank (inputText st0) &&
              negb (bool_decide (is_Some (selectedFile st0)))) eqn:Hg.
    - unfold handleSend. rewrite Hg. reflexivity.
    - rewrite (handleSend_unfold now later st0 Hg). cbv zeta.
      match goal with
      | |- context [set_hook ?k ?x] =>
          assert (H2 : Chat.messages (ui st0) `prefix_of`
                         Chat.messages (ui (set_hook k x)))
            by (eexists; reflexivity)
      end.
      destruct (fst _) as [[| |]|]; destruct (file (messageData st0));
        try exact H2; (etransitivity; [exact H2|apply Hsettled]). }
  revert st. induction acts as [|a rest IH]; intros st Hrun; simpl in Hrun.
  - inversion Hrun; subst. reflexivity.
  - destruct (view_step JSON_parse st a) as [st1|] eqn:Hstep; [|discriminate].
    etransitivity; [|apply (IH st1 Hrun)]. clear IH Hrun.
    destruct a; simpl in Hstep.
    + destruct (is_service_event e); [|discriminate].
      destruct (step JSON_parse (wsService (hook st)) e); inversion Hstep; subst.
      cbn [ui set_ui]. apply receive_all_appends.
    + destruct (Chat.isLoading (ui st)); inversion Hstep; subst. reflexivity.
    + inversion Hstep; subst.
      destruct (handleFileSelect_hook files st) as [_ ->]. reflexivity.
    + unfold fileReader_onload in Hstep.
      destruct (reading st !! k); inversion Hstep; subst. reflexivity.
    + inversion Hstep; subst. reflexivity.
    + destruct (Chat.isLoading (ui st)); inversion Hstep; subst. apply Hsend.
    + destruct (Chat.isLoading (ui st)); inversion Hstep; subst.
      unfold handleKeyPress. destruct (_ && _); [apply Hsend|reflexivity].
    + destruct (awaiting st !! k) as [[[m d] f]|] eqn:Hk;
        [|unfold send_onload in Hstep; rewrite Hk in Hstep; discriminate].
      rewrite (send_onload_unfold k later st m d f Hk) in Hstep.
      inversion Hstep; subst.
      match goal with
      | |- _ `prefix_of` Chat.messages (ui (handleSend_settled _ _ ?x)) =>
          apply (Hsettled later _ x)
      end.
Qed.

(** *** The status toast *)

Lemma open_event_notified (w w' : State) (i : nat) :
  live_is_current w ->
  step JSON_parse w (SocketOpen i) = Some w' ->
  notified w' =
    notified w ++ round (connectionStatusCallbacks w) connected.
Proof.
  intros Hw Hstep. simpl in Hstep.
  destruct (sockets w !! i) as [s|] eqn:Hs; [|discriminate]. simpl in Hstep.
  destruct (readyState s) eqn:Hr; inversion Hstep as [Hw']; clear Hstep.
  assert (Hcur : ws w = Some i)
    by (apply (Hw i s Hs); unfold live; rewrite Hr; reflexivity).
  rewrite (onopen_effect (update_socket i OPEN w) i (set_readyState OPEN s)).
  - reflexivity.
  - exact Hcur.
  - cbn [update_socket sockets set_sockets].
    rewrite list_lookup_alter_eq, Hs. reflexivity.
  - reflexivity.
Qed.

Lemma close_event_notified (w w' : State) (i : nat) (failed : bool) :
  listener_throws disconnected w = false ->
  step JSON_parse w (SocketClose i failed) = Some w' ->
  notified w' =
    notified w ++
      (if failed then round (connectionStatusCallbacks w) disconnected else []) ++
      round (connectionStatusCallbacks w) disconnected.
Proof.
  intros Hquiet Hstep.
  destruct (step_close_event JSON_parse w w' i failed Hstep) as [-> _].
  set (w1 := if failed then snd (onerror (update_socket i CLOSED w))
             else update_socket i CLOSED w).
  assert (H1 : connectionStatusCallbacks w1 = connectionStatusCallbacks w /\
               notified w1 =
                 notified w ++
                   (if failed then round (connectionStatusCallbacks w) disconnected
                    else [])).
  { unfold w1. destruct failed; [rewrite onerror_effect|];
      cbn [snd notified connectionStatusCallbacks
           set_notified set_isConnecting update_socket set_sockets];
      rewrite ?app_nil_r; split; reflexivity. }
  destruct H1 as (Hcb1 & Hn1).
  rewrite onclose_effect. cbv zeta.
  replace (listener_throws disconnected w1) with false
    by (unfold listener_throws; rewrite Hcb1; symmetry; exact Hquiet).
  match goal with |- context [handleReconnect ?X] =>
    destruct (handleReconnect_counters X) as (Hn & _) end.
  cbn [notified set_notified set_isConnecting] in Hn.
  rewrite Hn, Hn1, Hcb1, <- app_assoc. reflexivity.
Qed.

(** X17.  The toast follows the socket.  It is shown when the component
    mounts; in any state the component can reach it is hidden once a
    socket has opened, shown again, with the text 未连接后端服务, once a
    socket has closed, and the arrival of a frame leaves it as it is. *)
Theorem toast_follows_socket (st st' : ChatState) (e : Event) (now : Z) :
  view_reachable JSON_parse st ->
  view_step JSON_parse st (Service e now) = Some st' ->
  (forall outcomes, toast (mount outcomes) = Some "未连接后端服务") /\
  match e with
  | SocketOpen _ => toast st' = None
  | SocketClose _ _ => toast st' = Some "未连接后端服务"
  | SocketMessage _ _ => toast st' = toast st
  | _ => True
  end.
Proof.
  intros Hreach Hstep. split.
  { intros outcomes. destruct (mount_service outcomes) as (_ & _ & _ & Hst).
    unfold toast. rewrite Hst. reflexivity. }
  destruct (view_reachable_inv st Hreach) as [[_ Hc] Hl].
  pose proof (wired_quiet st disconnected
                (proj1 (view_reachable_inv st Hreach))) as Hquiet.
  simpl in Hstep. destruct (is_service_event e) eqn:He; [|discriminate].
  destruct (step JSON_parse (wsService (hook st)) e) as [w'|] eqn:Hs;
    [|discriminate].
  inversion Hstep; subst. unfold toast.
  cbn [hook set_ui set_hook hook_move status].
  destruct e; try exact I.
  - rewrite (open_event_notified _ _ i Hl Hs), drop_app_length, Hc.
    reflexivity.
  - assert (Hn : notified w' = notified (wsService (hook st))).
    { simpl in Hs. destruct (sockets (wsService (hook st)) !! i) as [s|];
        [|discriminate]. simpl in Hs.
      destruct (readyState s); inversion Hs;
        apply same_notified_onmessage. }
    rewrite Hn, drop_all. reflexivity.
  - rewrite (close_event_notified _ _ i failed Hquiet Hs), drop_app_length, Hc.
    destruct failed; reflexivity.
Qed.

(** *** The mode *)

Lemma handleSend_mode (now later : Z) (st : ChatState) :
  mode (handleSend now later st) = mode st.
Proof.
  destruct (blank (inputText st) &&
            negb (bool_decide (is_Some (selectedFile st)))) eqn:Hg.
  - unfold handleSend. rewrite Hg. reflexivity.
  - rewrite (handleSend_unfold now later st Hg).
    destruct (fst _) as [[| |]|]; destruct (file (messageData st));
      reflexivity.
Qed.

Lemma view_step_mode (st st' : ChatState) (a : Action) :
  view_step JSON_parse st a = Some st' -> mode st' = mode st.
Proof.
  intros Hstep. destruct a; simpl in Hstep.
  - destruct (is_service_event e); [|discriminate].
    destruct (step JSON_parse (wsService (hook st)) e); inversion Hstep; subst.
    reflexivity.
  - destruct (Chat.isLoading (ui st)); inversion Hstep; subst. reflexivity.
  - inversion Hstep; subst. unfold handleFileSelect.
    destruct files as [|file rest]; [reflexivity|].
    destruct (negb _); [reflexivity|]. destruct (_ <? _)%N; reflexivity.
  - unfold fileReader_onload in Hstep.
    destruct (reading st !! k); inversion Hstep; subst. reflexivity.
  - inversion Hstep; subst. reflexivity.
  - destruct (Chat.isLoading (ui st)); inversion Hstep; subst.
    apply handleSend_mode.
  - destruct (Chat.isLoading (ui st)); inversion Hstep; subst.
    unfold handleKeyPress. destruct (_ && _); [apply handleSend_mode|reflexivity].
  - destruct (awaiting st !! k) as [[[m d] f]|] eqn:Hk;
      [|unfold send_onload in Hstep; rewrite Hk in Hstep; discriminate].
    rewrite (send_onload_unfold k later st m d f Hk) in Hstep.
    inversion Hstep; subst. destruct (fst _) as [[| |]|]; reflexivity.
Qed.

(** X18.  The mode never changes.  No element the component renders calls
    [handleModeChange], so in every state the component can reach the
    mode is the initial one, PPT更新, and every send is made with it. *)
Theorem mode_never_changes (st : ChatState) :
  view_reachable JSON_parse st ->
  mode st = Mode_PPT /\
  forall m d f, In (m, d, f) (awaiting st) -> m = Mode_PPT.
Proof.
  intros (outcomes & acts & Hrun).
  assert (H0 : mode (mount outcomes) = Mode_PPT /\
               forall m d f, In (m, d, f) (awaiting (mount outcomes)) ->
                 m = Mode_PPT) by (split; [reflexivity|intros m d f []]).
  revert Hrun H0. generalize (mount outcomes) as st0.
  induction acts as [|a rest IH]; intros st0 Hrun H0; simpl in Hrun.
  - inversion Hrun; subst. exact H0.
  - destruct (view_step JSON_parse st0 a) as [st1|] eqn:Hstep; [|discriminate].
    apply (IH st1 Hrun). destruct H0 as [Hm Ha].
    split; [rewrite (view_step_mode st0 st1 a Hstep); exact Hm|].
    assert (Hsend : forall now later m d f,
              In (m, d, f) (awaiting (handleSend now later st0)) -> m = Mode_PPT).
    { intros now later m d f.
      destruct (blank (inputText st0) &&
                negb (bool_decide (is_Some (selectedFile st0)))) eqn:Hg.
      - unfold handleSend. rewrite Hg. apply Ha.
      - rewrite (handleSend_unfold now later st0 Hg).
        destruct (fst _) as [[| |]|]; destruct (file (messageData st0));
          try apply Ha.
        cbn [awaiting set_awaiting]. intros Hin.
        apply in_app_or in Hin as [Hin|[Heq|[]]]; [apply (Ha m d f Hin)|].
        inversion Heq; subst. exact Hm. }
    clear IH Hrun. destruct a; simpl in Hstep.
    + destruct (is_service_event e); [|discriminate].
      destruct (step JSON_parse (wsService (hook st0)) e);
        inversion Hstep; subst. exact Ha.
    + destruct (Chat.isLoading (ui st0)); inversion Hstep; subst. exact Ha.
    + inversion Hstep; subst. unfold handleFileSelect.
      destruct files as [|file others]; [exact Ha|].
      destruct (negb _); [exact Ha|]. destruct (_ <? _)%N; exact Ha.
    + unfold fileReader_onload in Hstep.
      destruct (reading st0 !! k); inversion Hstep; subst. exact Ha.
    + inversion Hstep; subst. exact Ha.
    + destruct (Chat.isLoading (ui st0)); inversion Hstep; subst. apply Hsend.
    + destruct (Chat.isLoading (ui st0)); inversion Hstep; subst.
      unfold handleKeyPress. destruct (_ && _); [apply Hsend|exact Ha].
    + destruct (awaiting st0 !! k) as [[[m0 d0] f0]|] eqn:Hk;
        [|unfold send_onload in Hstep; rewrite Hk in Hstep; discriminate].
      rewrite (send_onload_unfold k later st0 m0 d0 f0 Hk) in Hstep.
      inversion Hstep; subst. intros m d f Hin.
      assert (Hin' : In (m, d, f) (delete k (awaiting st0)))
        by (destruct (fst _) as [[| |]|]; exact Hin).
      apply (Ha m d f), list_elem_of_In, (list_elem_of_delete_inv _ k),
        list_elem_of_In, Hin'.
Qed.

End Component.

(** *** Scenarios *)

Lemma view_after_reachable (outcomes : list bool) (acts : list Action) :
  view_possible outcomes acts = true ->
  view_reachable scenario_parse (view_after outcomes acts).
Proof.
  unfold view_possible, view_after. intros H. exists outcomes, acts.
  destruct (view_run scenario_parse (mount outcomes) acts);
    [reflexivity|discriminate].
Qed.

Lemma view_after_run (outcomes : list bool) (acts1 acts2 : list Action) :
  view_possible outcomes (acts1 ++ acts2) = true ->
  view_run scenario_parse (view_after outcomes acts1) acts2 =
    Some (view_after outcomes (acts1 ++ acts2)).
Proof.
  unfold view_possible, view_after. rewrite view_run_app.
  destruct (view_run scenario_parse (mount outcomes) acts1) as [st1|];
    cbv [mbind option_bind default from_option id]; [|discriminate].
  destruct (view_run scenario_parse st1 acts2); [reflexivity|discriminate].
Qed.

Lemma view_after_step (outcomes : list bool) (acts : list Action) (a : Action) :
  view_possible outcomes (acts ++ [a]) = true ->
  view_step scenario_parse (view_after outcomes acts) a =
    Some (view_after outcomes (acts ++ [a])).
Proof.
  intros H. pose proof (view_after_run outcomes acts [a] H) as Hrun.
  cbn [view_run] in Hrun.
  destruct (view_step scenario_parse (view_after outcomes acts) a);
    [exact Hrun|discriminate].
Qed.

(** A program file and a presentation of 11 MiB are refused, a text file
    is read and sent, and the text file is chosen again while the send
    waits for its reader. *)
Lemma held_files_acceptable_witness :
  files_acceptable
    (view_after []
       [FileChosen [setup_exe]; FileChosen [large_slides]; FileChosen [notes];
        FileLoaded 0; SendClick 1 2; FileChosen [notes]]).
Proof.
  apply (held_files_acceptable scenario_parse), view_after_reachable.
  vm_compute. reflexivity.
Defined.

(** The text [ hi ], with its spaces, is sent during the first handshake. *)
Lemma text_send_effect_witness :
  let st := view_after [] [InputChange " hi "] in
  inputText (handleSend 1 2 st) = EmptyString /\
  frames (wsService (hook (handleSend 1 2 st))) ≡ₚ
    frames (wsService (hook st)) ++ [text_frame (inputText st)].
Proof.
  intros st.
  destruct (text_send_effect scenario_parse 1 2 st) as (_ & Hin & _ & _ & Hf).
  - apply view_after_reachable. vm_compute. reflexivity.
  - vm_compute. reflexivity.
  - vm_compute. reflexivity.
  - exact (conj Hin Hf).
Defined.

(** The text file is chosen, read and sent with an empty input. *)
Lemma file_send_effect_witness :
  let st := view_after [] [FileChosen [notes]; FileLoaded 0] in
  let st1 := handleSend 1 2 st in
  selectedFile st1 = Some notes_preview /\
  exists st2,
    send_onload (length (awaiting st)) 2 st1 = Some st2 /\
    selectedFile st2 = None.
Proof.
  intros st st1.
  destruct (file_send_effect scenario_parse 1 2 st notes_preview)
    as ((_ & _ & Hsel & _) & st2 & Hload & _ & _ & Hnone & _).
  - apply view_after_reachable. vm_compute. reflexivity.
  - vm_compute. reflexivity.
  - split; [exact Hsel|]. exists st2. exact (conj Hload Hnone).
Defined.

(** The socket opens and the frame [null] arrives: the handler throws on
    the decoded value and the raw text is displayed. *)
Lemma frame_displayed_once_witness :
  let st := view_after [] [Service (SocketOpen 0) 1] in
  let st' :=
    view_after []
      ([Service (SocketOpen 0) 1] ++
       [Service (SocketMessage 0 (TextFrame "null")) 2]) in
  exists t,
    Chat.messages (ui st') =
      Chat.messages (ui st) ++
        [{| Chat.id := 2; Chat.text := t; Chat.isUser := false;
            Chat.file := None |}] /\
    Chat.isLoading (ui st') = false.
Proof.
  intros st st'.
  refine (proj2 (frame_displayed_once scenario_parse st st'
                   (SocketMessage 0 (TextFrame "null")) 2 _ _)).
  - apply view_after_reachable. vm_compute. reflexivity.
  - apply view_after_step. vm_compute. reflexivity.
Defined.

(** A message is typed and sent, the socket opens and the reply arrives. *)
Lemma messages_only_grow_witness :
  let acts :=
    [InputChange "hi"; SendClick 1 2; Service (SocketOpen 0) 3;
     Service (SocketMessage 0 (TextFrame "not-json")) 4] in
  Chat.messages (ui (view_after [] [])) `prefix_of`
    Chat.messages (ui (view_after [] ([] ++ acts))).
Proof.
  intros acts.
  apply (messages_only_grow scenario_parse _ _ acts), view_after_run.
  vm_compute. reflexivity.
Defined.

(** The first socket opens: the toast is hidden. *)
Lemma toast_follows_socket_witness :
  toast (view_after [] ([] ++ [Service (SocketOpen 0) 1])) = None.
Proof.
  refine (proj2 (toast_follows_socket scenario_parse (view_after [] []) _
                   (SocketOpen 0) 1 _ _)).
  - apply view_after_reachable. vm_compute. reflexivity.
  - apply view_after_step. vm_compute. reflexivity.
Defined.

(** A file is sent and its reader has not loaded yet. *)
Lemma mode_never_changes_witness :
  mode (view_after []
          [FileChosen [notes]; FileLoaded 0; SendClick 1 2]) = Mode_PPT.
Proof.
  refine (proj1 (mode_never_changes scenario_parse _ _)).
  apply view_after_reachable. vm_compute. reflexivity.
Defined.

End ViewFacts.
